(** * simpleshark: the streaming capture engine of [capture.py]

    A shallow embedding of [simpleshark/capture/capture.py] (class
    [FileCapture]) and the properties of its record-boundary scanner, its
    iteration protocol, its process supervision and its parameter builder.

    - Module [Py] holds the few primitives of the Python runtime the code
      relies on: [bytes.find], slicing with negative indices,
      [bytes.replace], [" ".join], ["%d"] and the UTF-8 codec.
    - Module [Capture] holds [FileCapture] itself: one definition per
      method, under the method's name, in a state-and-exception monad over
      the mutable attributes of the session and the table of subprocesses. *)

From Stdlib Require Import ZArith NArith List Bool Lia.
From Stdlib Require Import Strings.String Strings.Ascii Strings.Byte.
From Stdlib Require Import DecimalString.
From stdpp Require Import base gmap sets list strings.

#[local] Open Scope Z_scope.

(** ** Python runtime primitives *)

Module Py.

(** [bytes] objects. *)
Abbreviation bytes := (list byte).

(** A bytes literal, written as a string of the same characters. *)
Definition b (s : string) : bytes := list_byte_of_string s.

(** Truth value of a [bytes] object: non-empty. *)
Definition truthy_bytes (d : bytes) : bool :=
  match d with [] => false | _ :: _ => true end.

(** [len(d)] as a Python integer. *)
Definition len {A} (d : list A) : Z := Z.of_nat (length d).

(** [d.startswith(p)]. *)
Fixpoint startswith (d p : bytes) {struct p} : bool :=
  match p, d with
  | [], _ => true
  | _ :: _, [] => false
  | x :: p', y :: d' => Byte.eqb x y && startswith d' p'
  end.

(** [d.find(sub)], scanning from offset [i] of the original object: the
    lowest index at which [sub] occurs, [-1] when it does not occur. *)
Fixpoint find_from (sub d : bytes) (i : Z) : Z :=
  if startswith d sub then i
  else match d with
       | [] => -1
       | _ :: d' => find_from sub d' (i + 1)
       end.

Definition find (d sub : bytes) : Z := find_from sub d 0.

(** Normalisation of a slice bound: a negative bound counts from the end,
    and every bound is clamped to [0, len]. *)
Definition clamp (n i : Z) : Z :=
  if i <? 0 then Z.max 0 (n + i) else Z.min i n.

(** [d[lo:hi]]. *)
Definition slice (d : bytes) (lo hi : Z) : bytes :=
  let l := clamp (len d) lo in
  let h := clamp (len d) hi in
  take (Z.to_nat (h - l)) (drop (Z.to_nat l) d).

(** [d[lo:]]. *)
Definition slice_from (d : bytes) (lo : Z) : bytes :=
  drop (Z.to_nat (clamp (len d) lo)) d.

(** [d.replace(old, new)] for a one-byte [old]. *)
Definition replace1 (old : byte) (new : bytes) (d : bytes) : bytes :=
  flat_map (fun c => if Byte.eqb c old then new else [c]) d.

(** [sep.join(l)] on [str]. *)
Fixpoint join (sep : string) (l : list string) : string :=
  match l with
  | [] => EmptyString
  | [x] => x
  | x :: l' => (x ++ sep ++ join sep l')%string
  end.

(** ["%d" % n] and [str(n)] for an integer. *)
Definition str_of_int (n : Z) : string :=
  NilZero.string_of_int (Z.to_int n).

(** [s.lower()] and [s.strip()] on ASCII text. *)
Definition lower_ascii (c : ascii) : ascii :=
  let n := nat_of_ascii c in
  if ((65 <=? n) && (n <=? 90))%nat then ascii_of_nat (n + 32) else c.

Fixpoint lower (s : string) : string :=
  match s with
  | EmptyString => EmptyString
  | String c s' => String (lower_ascii c) (lower s')
  end.

Definition is_space (c : ascii) : bool :=
  let n := nat_of_ascii c in
  (((9 <=? n) && (n <=? 13)) || ((28 <=? n) && (n <=? 32)))%nat.

Fixpoint lstrip (s : string) : string :=
  match s with
  | String c s' => if is_space c then lstrip s' else s
  | EmptyString => EmptyString
  end.

Fixpoint rstrip (s : string) : string :=
  match s with
  | EmptyString => EmptyString
  | String c s' =>
      match rstrip s' with
      | EmptyString => if is_space c then EmptyString else String c EmptyString
      | r => String c r
      end
  end.

Definition strip (s : string) : string := rstrip (lstrip s).

(** Truth value of a [str]. *)
Definition truthy_str (s : string) : bool :=
  match s with EmptyString => false | String _ _ => true end.

(** *** The UTF-8 codec

    A [str] is the list of its code points. [utf8_decode] follows
    CPython's decoder: an ill-formed sequence is reported over its maximal
    well-formed prefix (one byte for a bad start byte), a truncated
    sequence at the end over all that is left; with [errors='ignore'] the
    reported bytes are skipped, with [errors='strict'] decoding raises
    [UnicodeDecodeError] ([None] here). *)

Inductive errors : Type := strict | ignore.

Definition on_error {A} (mode : errors) (resume : option A) : option A :=
  match mode with strict => None | ignore => resume end.

Definition byte_of_N (n : N) : byte :=
  match Byte.of_N n with Some c => c | None => x00 end.

Definition in_range (lo hi n : N) : bool := ((lo <=? n) && (n <=? hi))%N.

Definition is_continuation (c : byte) : bool := in_range 128 191 (Byte.to_N c).

Definition payload (c : byte) : N := (Byte.to_N c - 128)%N.

(** The second byte of a three-byte and of a four-byte sequence. *)
Definition second_of_3 (lead : N) (c : byte) : bool :=
  if (lead =? 224)%N then in_range 160 191 (Byte.to_N c)
  else if (lead =? 237)%N then in_range 128 159 (Byte.to_N c)
  else is_continuation c.

Definition second_of_4 (lead : N) (c : byte) : bool :=
  if (lead =? 240)%N then in_range 144 191 (Byte.to_N c)
  else if (lead =? 244)%N then in_range 128 143 (Byte.to_N c)
  else is_continuation c.

Fixpoint utf8_decode (mode : errors) (d : bytes) : option (list N) :=
  match d with
  | [] => Some []
  | c0 :: d0 =>
      let n0 := Byte.to_N c0 in
      if (n0 <? 128)%N then cons n0 <$> utf8_decode mode d0
      else if in_range 194 223 n0 then
        match d0 with
        | [] => on_error mode (Some [])
        | c1 :: d1 =>
            if is_continuation c1
            then cons ((n0 - 192) * 64 + payload c1)%N <$> utf8_decode mode d1
            else on_error mode (utf8_decode mode d0)
        end
      else if in_range 224 239 n0 then
        match d0 with
        | [] => on_error mode (Some [])
        | c1 :: d1 =>
            if second_of_3 n0 c1 then
              match d1 with
              | [] => on_error mode (Some [])
              | c2 :: d2 =>
                  if is_continuation c2
                  then cons ((n0 - 224) * 4096 + payload c1 * 64 + payload c2)%N
                         <$> utf8_decode mode d2
                  else on_error mode (utf8_decode mode d1)
              end
            else on_error mode (utf8_decode mode d0)
        end
      else if in_range 240 244 n0 then
        match d0 with
        | [] => on_error mode (Some [])
        | c1 :: d1 =>
            if second_of_4 n0 c1 then
              match d1 with
              | [] => on_error mode (Some [])
              | c2 :: d2 =>
                  if is_continuation c2 then
                    match d2 with
                    | [] => on_error mode (Some [])
                    | c3 :: d3 =>
                        if is_continuation c3
                        then cons ((n0 - 240) * 262144 + payload c1 * 4096
                                   + payload c2 * 64 + payload c3)%N
                               <$> utf8_decode mode d3
                        else on_error mode (utf8_decode mode d2)
                    end
                  else on_error mode (utf8_decode mode d1)
              end
            else on_error mode (utf8_decode mode d0)
        end
      else on_error mode (utf8_decode mode d0)
  end.

(** A code point that UTF-8 can encode: a Unicode scalar value. *)
Definition scalar (cp : N) : bool :=
  ((cp <? 55296) || ((57343 <? cp) && (cp <? 1114112)))%N.

Definition utf8_encode_char (cp : N) : bytes :=
  if (cp <? 128)%N then [byte_of_N cp]
  else if (cp <? 2048)%N then
    [byte_of_N (192 + cp / 64); byte_of_N (128 + cp mod 64)]%N
  else if (cp <? 65536)%N then
    [byte_of_N (224 + cp / 4096); byte_of_N (128 + (cp / 64) mod 64);
     byte_of_N (128 + cp mod 64)]%N
  else
    [byte_of_N (240 + cp / 262144); byte_of_N (128 + (cp / 4096) mod 64);
     byte_of_N (128 + (cp / 64) mod 64); byte_of_N (128 + cp mod 64)]%N.

(** [s.encode()]: [None] stands for [UnicodeEncodeError] (a surrogate). *)
Fixpoint utf8_encode (s : list N) : option bytes :=
  match s with
  | [] => Some []
  | cp :: s' =>
      if scalar cp then app (utf8_encode_char cp) <$> utf8_encode s'
      else None
  end.

End Py.

(** ** The capture session *)

Module Capture.
Import Py.

(** Exceptions that cross a method boundary of [FileCapture]. *)
Inductive exn : Type :=
| FileNotFoundError (msg : string)
| RawMustUseJsonException (msg : string)
| UnknownEncyptionStandardException (msg : string)
| TSharkCrashException (msg : string)
| TSharkVersionException (msg : string)
| StopCapture
| StopIteration
| EOFError
| NotImplementedError (msg : string)
| KeyError (msg : string)
| IndexError
| TimeoutError
| ProcessLookupError
| OSError
| RuntimeError
| UnicodeDecodeError
| UnicodeEncodeError
| Exception (msg : string)
| OtherError (tag : nat).

(** A [LooseVersion], as the list of its numeric components; comparison is
    Python's comparison of lists. *)
Definition version := list N.

Fixpoint version_ge (v w : version) : bool :=
  match v, w with
  | _, [] => true
  | [], _ :: _ => false
  | x :: v', y :: w' =>
      if (y <? x)%N then true
      else if (x <? y)%N then false
      else version_ge v' w'
  end.

(** What [kill()] followed by [wait_for(process.wait(), 1)] meets. *)
Inductive kill_response : Type :=
| Reaped (rc : Z)      (* the process exits and is waited for *)
| WaitTimesOut         (* the wait does not finish within the second *)
| NoSuchProcess        (* ProcessLookupError *)
| OtherOSError.        (* any other OSError *)

(** An [asyncio.subprocess.Process] object, with the part of the operating
    system that stands behind it. *)
Record process : Type := mkProcess {
  stdout : list bytes;          (* what the pipe still delivers, read by read *)
  returncode : option Z;        (* None while the exit status is unknown *)
  exit_at_eof : option Z;       (* status collected once the pipe is drained *)
  on_kill : kill_response;
  killed : bool                 (* kill() was delivered *)
}.

(** The identity of a [Process] object. *)
Definition pid := nat.

(** Everything [capture.py] imports or is handed from outside: the decoder
    of [simpleshark.tshark.tshark_xml], the helpers of
    [simpleshark.tshark.tshark], the operating system and the caller. *)
Record Env : Type := mkEnv {
  XmlPacket : Type;
  PsmlStructure : Type;
  User : Type;
  packet_from_xml_packet : bytes -> option PsmlStructure -> exn + XmlPacket;
  psml_structure_from_xml : bytes -> exn + PsmlStructure;
  truthy_xml_packet : XmlPacket -> bool;
  truthy_psml_structure : PsmlStructure -> bool;
  get_process_path : option string -> string;
  get_tshark_version : option string -> version;
  tshark_supports_json : version -> bool;
  get_tshark_display_filter_flag : version -> string;
  path_exists : string -> bool;               (* os.path.exists *)
  os_name : string;                           (* os.name *)
  linesep : bytes;                            (* os.linesep, encoded *)
  event_loop_available : bool;                (* _setup_eventloop succeeds *)
  create_subprocess_exec : list string -> process
}.

(** [custom_parameters]: absent, a list, a dict, or an object of another
    type (with its truth value). *)
Inductive custom_parameters : Type :=
| CustomNone
| CustomList (l : list string)
| CustomDict (d : list (string * string))
| CustomOther (truth : bool).

(** The attributes of a session that are fixed by the constructor. A dict
    is the list of its items in iteration order. *)
Record config : Type := mkConfig {
  input_filename : string;
  keep_packets : bool;
  tshark_path : option string;
  _override_prefs : option (list (string * string));
  debug : bool;
  use_json : bool;
  include_raw : bool;
  _display_filter : option string;
  _capture_filter : option string;
  _only_summaries : bool;
  _output_file : option string;
  _decode_as : option (list (string * string));
  _disable_protocol : option string;
  _custom_parameters : custom_parameters;
  encryption : option string * string
}.

(** [input_file]: a path, or a file object with a [name]. *)
Inductive input_source : Type :=
| PathStr (path : string)
| FileObject (name : string).

(** [input_file] itself if it is a [str], its [name] otherwise. *)
Definition file_name (input_file : input_source) : string :=
  match input_file with PathStr path => path | FileObject name => name end.

(** The arguments of [FileCapture(...)]. *)
Record init_args : Type := mkInitArgs {
  arg_input_file : input_source;
  arg_keep_packets : bool;
  arg_display_filter : option string;
  arg_only_summaries : bool;
  arg_eventloop_given : bool;
  arg_decryption_key : option string;
  arg_encryption_type : option string;
  arg_output_file : option string;
  arg_decode_as : option (list (string * string));
  arg_disable_protocol : option string;
  arg_tshark_path : option string;
  arg_override_prefs : option (list (string * string));
  arg_capture_filter : option string;
  arg_use_json : bool;
  arg_include_raw : bool;
  arg_custom_parameters : custom_parameters;
  arg_debug : bool
}.

Definition DEFAULT_BATCH_SIZE : Z := 2 ^ 16.
Definition SUMMARIES_BATCH_SIZE : Z := 64.
Definition SUPPORTED_ENCRYPTION_STANDARDS : list string :=
  ["wep"; "wpa-pwk"; "wpa-pwd"; "wpa-psk"]%string.

(** Truth values of optional arguments. *)
Definition truthy_opt_str (o : option string) : bool :=
  match o with Some s => truthy_str s | None => false end.

Definition truthy_opt_bytes (o : option bytes) : bool :=
  match o with Some d => truthy_bytes d | None => false end.

Definition truthy_opt_int (o : option Z) : bool :=
  match o with Some n => negb (n =? 0) | None => false end.

(** [x in l] for a list of [str]. *)
Definition str_in (x : string) (l : list string) : bool :=
  existsb (String.eqb x) l.
Arguments str_in : simpl never.

(** The outcome of a call: a value, an exception, or (for the loops of
    the model, which are bounded by a step count) no outcome within the
    bound. *)
Inductive result (A : Type) : Type :=
| Ok (a : A)
| Raise (e : exn)
| Diverge.
Arguments Ok {A} a.
Arguments Raise {A} e.
Arguments Diverge {A}.

Section Session.
Context (E : Env).

(** What the engine hands to its caller: in JSON mode the raw bytes of the
    record, otherwise the object built by [packet_from_xml_packet]. *)
Inductive packet : Type :=
| JsonPacket (raw : bytes)
| Packet (p : XmlPacket E).

Definition truthy_packet (p : packet) : bool :=
  match p with
  | JsonPacket raw => truthy_bytes raw
  | Packet p => truthy_xml_packet E p
  end.

(** The generator object made by [_packets_from_tshark_sync()]: not yet
    started, suspended at its [yield] with its local variables, or
    finished. *)
Inductive generator : Type :=
| GenCreated
| GenSuspended (tshark_process : pid) (psml_structure : option (PsmlStructure E))
               (data : bytes) (packets_captured : Z)
| GenFinished.

(** The mutable attributes of the session, the [Process] objects it has
    created, the caller's own data, and a log of the calls made to the
    packet handler (each with the exception it raised, if any). *)
Record state : Type := mkState {
  loaded : bool;
  _packets : list packet;
  _current_packet : nat;
  _running_processes : gset pid;
  _packet_generator : generator;
  processes : gmap pid process;
  next_pid : pid;
  user : User E;
  calls : list (packet * option exn)
}.

Definition set_loaded v (s : state) : state :=
  mkState v (_packets s) (_current_packet s) (_running_processes s)
    (_packet_generator s) (processes s) (next_pid s) (user s) (calls s).
Definition set_packets v (s : state) : state :=
  mkState (loaded s) v (_current_packet s) (_running_processes s)
    (_packet_generator s) (processes s) (next_pid s) (user s) (calls s).
Definition set_current_packet v (s : state) : state :=
  mkState (loaded s) (_packets s) v (_running_processes s)
    (_packet_generator s) (processes s) (next_pid s) (user s) (calls s).
Definition set_running_processes v (s : state) : state :=
  mkState (loaded s) (_packets s) (_current_packet s) v
    (_packet_generator s) (processes s) (next_pid s) (user s) (calls s).
Definition set_packet_generator v (s : state) : state :=
  mkState (loaded s) (_packets s) (_current_packet s) (_running_processes s)
    v (processes s) (next_pid s) (user s) (calls s).
Definition set_processes v (s : state) : state :=
  mkState (loaded s) (_packets s) (_current_packet s) (_running_processes s)
    (_packet_generator s) v (next_pid s) (user s) (calls s).
Definition set_next_pid v (s : state) : state :=
  mkState (loaded s) (_packets s) (_current_packet s) (_running_processes s)
    (_packet_generator s) (processes s) v (user s) (calls s).
Definition set_user v (s : state) : state :=
  mkState (loaded s) (_packets s) (_current_packet s) (_running_processes s)
    (_packet_generator s) (processes s) (next_pid s) v (calls s).
Definition set_calls v (s : state) : state :=
  mkState (loaded s) (_packets s) (_current_packet s) (_running_processes s)
    (_packet_generator s) (processes s) (next_pid s) (user s) v.

(** *** The monad: state and exceptions *)

Definition M (A : Type) : Type := state -> result A * state.

Definition ret {A} (a : A) : M A := fun s => (Ok a, s).
Definition raise {A} (e : exn) : M A := fun s => (Raise e, s).
Definition diverge {A} : M A := fun s => (Diverge, s).

Definition bind {A B} (c : M A) (k : A -> M B) : M B :=
  fun s =>
    match c s with
    | (Ok a, s') => k a s'
    | (Raise e, s') => (Raise e, s')
    | (Diverge, s') => (Diverge, s')
    end.

Definition get : M state := fun s => (Ok s, s).
Definition modify (f : state -> state) : M unit := fun s => (Ok tt, f s).

(** A call of an imported function that returns or raises. *)
Definition lift {A} (r : exn + A) : M A :=
  match r with inl e => raise e | inr a => ret a end.

(** [try: c  except <the exceptions h accepts>: h e]. *)
Definition try_except {A} (c : M A) (h : exn -> option (M A)) : M A :=
  fun s =>
    match c s with
    | (Raise e, s') =>
        match h e with Some k => k s' | None => (Raise e, s') end
    | r => r
    end.

(** [try: c  finally: f]: an exception raised by [f] replaces the outcome
    of [c]. *)
Definition try_finally {A} (c : M A) (f : M unit) : M A :=
  fun s =>
    match c s with
    | (Diverge, s') => (Diverge, s')
    | (r, s') =>
        match f s' with
        | (Ok _, s'') => (r, s'')
        | (Raise e, s'') => (Raise e, s'')
        | (Diverge, s'') => (Diverge, s'')
        end
    end.

(** What the engine itself never writes while it reads a stream or
    supervises a process: the retained packets, the cursor, the caller's
    data and the log of handler calls. *)
Definition untouched (s s' : state) : Prop :=
  _packets s' = _packets s /\ _current_packet s' = _current_packet s
  /\ user s' = user s /\ calls s' = calls s.

Definition preserves {A} (c : M A) : Prop := forall s, untouched s (c s).2.

(** What a handler that retains packets makes of the session: the handler
    was called on some packets, and these were appended to the retained
    ones. *)
Definition retains (s s' : state) : Prop :=
  exists new, calls s' = calls s ++ new /\ _packets s' = _packets s ++ map fst new.

(** A computation that takes every state to one related to it by [R]. *)
Definition keeps (R : state -> state -> Prop) {A} (c : M A) : Prop :=
  forall s, R s (c s).2.

(** A computation that ends, and not by [StopCapture]. *)
Definition settles {A} (c : M A) : Prop :=
  forall s, (c s).1 <> Diverge /\ (c s).1 <> Raise StopCapture.

End Session.

Arguments ret {E A} a.
Arguments raise {E A} e.
Arguments diverge {E A}.
Arguments bind {E A B} c k.
Arguments get {E}.
Arguments modify {E} f.
Arguments lift {E A} r.
Arguments try_except {E A} c h.
Arguments try_finally {E A} c f.
Arguments preserves {E A} c.
Arguments keeps {E} R {A} c.
Arguments settles {E A} c.

Declare Scope monad_scope.
Delimit Scope monad_scope with monad.
Bind Scope monad_scope with M.
Notation "x <- c1 ;; c2" := (bind c1 (fun x => c2))
  (at level 100, c1 at next level, right associativity) : monad_scope.
Notation "c1 ;; c2" := (bind c1 (fun _ => c2)) : monad_scope.
#[local] Open Scope monad_scope.

(** *** The constructor *)

Section Constructor.
Context (E : Env).

(** [_setup_eventloop]: asyncio is outside the model; all that is kept is
    whether a loop could be obtained ([RuntimeError] otherwise). *)
Definition _setup_eventloop : M E unit :=
  if event_loop_available E then ret tt else raise RuntimeError.

Definition __init__ (a : init_args) : M E config :=
  let input_filename := file_name (arg_input_file a) in
  modify (set_loaded E false);;
  if negb (path_exists E input_filename) then
    raise (FileNotFoundError
             ("[Errno 2] No such file or directory: " ++ input_filename))
  else
    modify (fun s => set_running_processes E ∅
                       (set_current_packet E 0%nat (set_packets E [] s)));;
    if arg_include_raw a && negb (arg_use_json a) then
      raise (RawMustUseJsonException "use_json must be True if include_raw")
    else
      (if arg_eventloop_given a then ret tt else _setup_eventloop);;
      encryption <-
        match arg_encryption_type a with
        | Some encryption_type =>
            if truthy_str encryption_type
               && str_in (lower encryption_type) SUPPORTED_ENCRYPTION_STANDARDS
            then ret (arg_decryption_key a, lower encryption_type)
            else raise (UnknownEncyptionStandardException
                          ("Only the following standards are supported: "
                           ++ join ", " SUPPORTED_ENCRYPTION_STANDARDS ++ "."))
        | None =>
            raise (UnknownEncyptionStandardException
                     ("Only the following standards are supported: "
                      ++ join ", " SUPPORTED_ENCRYPTION_STANDARDS ++ "."))
        end;;
      modify (set_packet_generator E (GenCreated E));;
      ret {| input_filename := input_filename;
             keep_packets := arg_keep_packets a;
             tshark_path := arg_tshark_path a;
             _override_prefs := arg_override_prefs a;
             debug := arg_debug a;
             use_json := arg_use_json a;
             include_raw := arg_include_raw a;
             _display_filter := arg_display_filter a;
             _capture_filter := arg_capture_filter a;
             _only_summaries := arg_only_summaries a;
             _output_file := arg_output_file a;
             _decode_as := arg_decode_as a;
             _disable_protocol := arg_disable_protocol a;
             _custom_parameters := arg_custom_parameters a;
             encryption := encryption |}.

End Constructor.

(** *** The boundary scanner and the parameter builder *)

Section Scanner.
Context (E : Env) (self : config).

(** [_get_tshark_version]. The cache [__tshark_version] is not kept: the
    version is a function of the path here, so the cache is unobservable. *)
Definition _get_tshark_version : version :=
  get_tshark_version E (tshark_path self).

Definition _get_tshark_path : string := get_process_path E (tshark_path self).

Definition _get_json_separators : bytes * bytes * Z :=
  if version_ge _get_tshark_version [3; 0; 0]%N then
    (linesep E ++ b "  }," ++ linesep E,
     b "}" ++ linesep E ++ b "]",
     1 + len (linesep E))
  else
    (b "}" ++ linesep E ++ linesep E ++ b "  ,",
     b "}" ++ linesep E ++ linesep E ++ b "]",
     1).

Definition _extract_packet_json_from_data (data : bytes) (got_first_packet : bool)
  : option bytes * bytes :=
  let tag_start := if got_first_packet then 0 else find data (b "{") in
  if negb got_first_packet && (tag_start =? -1) then (None, data)
  else
    let '(packet_separator, end_separator, end_tag_strip_length) :=
      _get_json_separators in
    let tag_end := find data packet_separator in
    let '(tag_end, found_separator) :=
      if tag_end =? -1 then
        let tag_end := find data end_separator in
        if negb (tag_end =? -1) then (tag_end, Some end_separator)
        else (tag_end, None)
      else (tag_end, Some packet_separator) in
    match found_separator with
    | Some sep =>
        if truthy_bytes sep then
          let tag_end := tag_end + len sep - end_tag_strip_length in
          (Some (slice data tag_start tag_end), slice_from data (tag_end + 1))
        else (None, data)
    | None => (None, data)
    end.

(** The two local variables of [_extract_tag_from_data]. *)
Definition opening_tag (tag_name : bytes) : bytes := b "<" ++ tag_name ++ b ">".

Definition closing_tag (tag_name : bytes) : bytes :=
  replace1 "<"%byte (b "</") (opening_tag tag_name).

Definition _extract_tag_from_data (data : bytes) (tag_name : bytes)
  : option bytes * bytes :=
  let opening_tag := opening_tag tag_name in
  let closing_tag := closing_tag tag_name in
  let tag_end := find data closing_tag in
  if negb (tag_end =? -1) then
    let tag_end := tag_end + len closing_tag in
    let tag_start := find data opening_tag in
    (Some (slice data tag_start tag_end), slice_from data tag_end)
  else (None, data).

(** [all(self.encryption)]. *)
Definition all_encryption : bool :=
  truthy_opt_str (fst (encryption self)) && truthy_str (snd (encryption self)).

Definition dquote : string := String (ascii_of_nat 34) EmptyString.

(** The two options appended for the encryption pair. *)
Definition encryption_options : list string :=
  match fst (encryption self) with
  | Some key =>
      ["-o"; "wlan.enable_decryption:TRUE"; "-o";
       "uat:80211_keys:" ++ dquote ++ snd (encryption self) ++ dquote ++ ","
         ++ dquote ++ key ++ dquote]%string
  | None => []
  end.

(** The two preference names of the [continue] in the loop below. *)
Definition reserved_preference (preference_name : string) : bool :=
  str_in preference_name ["wlan.enable_decryption"; "uat:80211_keys"]%string.

(** The loop over [self._override_prefs.items()], with its [continue]. *)
Fixpoint override_prefs_loop (items : list (string * string)) (params : list string)
  : list string :=
  match items with
  | [] => params
  | (preference_name, preference_value) :: items' =>
      if all_encryption && reserved_preference preference_name
      then override_prefs_loop items' params
      else override_prefs_loop items'
             (params ++ ["-o"; preference_name ++ ":" ++ preference_value]%string)
  end.

Fixpoint decode_as_loop (items : list (string * string)) (params : list string)
  : list string :=
  match items with
  | [] => params
  | (criterion, decode_as_proto) :: items' =>
      decode_as_loop items'
        (params ++ ["-d"; join "," [strip criterion; strip decode_as_proto]]%string)
  end.

Fixpoint custom_dict_loop (items : list (string * string)) (params : list string)
  : list string :=
  match items with
  | [] => params
  | (key, val) :: items' => custom_dict_loop items' (params ++ [key; val])
  end.

(** [get_parameters], block by block: the filters and the packet count;
    the custom parameters; the encryption pair; the preference overrides;
    the output file, the decode-as rules, the disabled protocol and the
    input file. Each block appends to [params]. *)
Definition filter_parameters (packet_count : option Z) : list string :=
  let params := [] in
  let params :=
    match _capture_filter self with
    | Some f => if truthy_str f then params ++ ["-f"%string; f] else params
    | None => params
    end in
  let params :=
    match _display_filter self with
    | Some f =>
        if truthy_str f
        then params ++ [get_tshark_display_filter_flag E _get_tshark_version; f]
        else params
    | None => params
    end in
  let params := if include_raw self then params ++ ["-x"%string] else params in
  match packet_count with
  | Some n => if negb (n =? 0) then params ++ ["-c"%string; str_of_int n] else params
  | None => params
  end.

Definition custom_parameters_block (params : list string) : exn + list string :=
  match _custom_parameters self with
  | CustomNone => inr params
  | CustomList l => inr (params ++ l)
  | CustomDict d => inr (custom_dict_loop d params)
  | CustomOther truth =>
      if truth then inl (Exception "Custom parameters type not supported.")
      else inr params
  end.

Definition encryption_block (params : list string) : list string :=
  if all_encryption then params ++ encryption_options else params.

Definition override_prefs_block (params : list string) : list string :=
  match _override_prefs self with
  | Some items => override_prefs_loop items params
  | None => params
  end.

Definition output_block (params : list string) : list string :=
  let params :=
    match _output_file self with
    | Some f => if truthy_str f then params ++ ["-w"%string; f] else params
    | None => params
    end in
  let params :=
    match _decode_as self with
    | Some items => decode_as_loop items params
    | None => params
    end in
  let params :=
    match _disable_protocol self with
    | Some p =>
        if truthy_str p then params ++ ["--disable-protocol"%string; strip p]
        else params
    | None => params
    end in
  params ++ ["-r"%string; input_filename self].

Definition get_parameters (packet_count : option Z) : exn + list string :=
  match custom_parameters_block (filter_parameters packet_count) with
  | inl e => inl e
  | inr params =>
      inr (output_block (override_prefs_block (encryption_block params)))
  end.

End Scanner.

(** The session with another [override_prefs]. *)
Definition with_override_prefs (self : config)
    (prefs : option (list (string * string))) : config :=
  {| input_filename := input_filename self;
     keep_packets := keep_packets self;
     tshark_path := tshark_path self;
     _override_prefs := prefs;
     debug := debug self;
     use_json := use_json self;
     include_raw := include_raw self;
     _display_filter := _display_filter self;
     _capture_filter := _capture_filter self;
     _only_summaries := _only_summaries self;
     _output_file := _output_file self;
     _decode_as := _decode_as self;
     _disable_protocol := _disable_protocol self;
     _custom_parameters := _custom_parameters self;
     encryption := encryption self |}.

(** The number of [-o] options of an argument list that set the
    preference [key], that is, whose value begins with [key:]. *)
Fixpoint count_option (key : string) (params : list string) : nat :=
  match params with
  | [] => 0
  | flag :: rest =>
      (match rest with
       | value :: _ =>
           if String.eqb flag "-o" && String.prefix (key ++ ":") value
           then 1 else 0
       | [] => 0
       end + count_option key rest)%nat
  end.

(** The option written for one entry of [override_prefs], and the entries
    that are not named by a reserved preference. *)
Definition preference_option (item : string * string) : list string :=
  ["-o"; item.1 ++ ":" ++ item.2]%string.

Definition unreserved (items : list (string * string)) : list (string * string) :=
  List.filter (fun item => negb (reserved_preference item.1)) items.

(** *** Process supervision *)

Section Supervisor.
Context (E : Env) (self : config).

#[local] Abbreviation M := (M E).
#[local] Abbreviation state := (state E).

(** [await stream.read(n)]: at most [n] bytes of what the pipe delivers
    next, the empty bytes object at end of file only. *)
Fixpoint read_chunks (n : Z) (chunks : list bytes) : bytes * list bytes :=
  match chunks with
  | [] => ([], [])
  | [] :: chunks' => read_chunks n chunks'
  | chunk :: chunks' =>
      if len chunk <=? n then (chunk, chunks')
      else (take (Z.to_nat n) chunk, drop (Z.to_nat n) chunk :: chunks')
  end.

(** The stream is named by the process it belongs to. Once the pipe is
    drained the exit status of the process becomes known, if the operating
    system has one to report. *)
Definition read (stream : pid) (n : Z) : M bytes :=
  fun s =>
    match processes E s !! stream with
    | None => (Ok [], s)
    | Some pr =>
        let '(chunk, rest) := read_chunks n (stdout pr) in
        let rc :=
          match chunk, returncode pr with
          | [], None => exit_at_eof pr
          | _, rc => rc
          end in
        (Ok chunk,
         set_processes E
           (<[stream := mkProcess rest rc (exit_at_eof pr) (on_kill pr) (killed pr)]>
              (processes E s)) s)
    end.

(** [asyncio.create_subprocess_exec] on the parameters: a new [Process]
    object. *)
Definition new_process (parameters : list string) : M pid :=
  fun s =>
    let p := next_pid E s in
    (Ok p,
     set_next_pid E (S p)
       (set_processes E (<[p := create_subprocess_exec E parameters]> (processes E s)) s)).

Definition _created_new_process (parameters : list string) (process : pid)
    (process_name : string) : M unit :=
  s <- get;;
  let rc := processes E s !! process ≫= returncode in
  match rc with
  | Some code =>
      if negb (code =? 0) then
        raise (TSharkCrashException
                 (process_name ++ " seems to have crashed. Try updating it. (command ran: '"
                  ++ join " " parameters ++ "')"))
      else modify (fun s => set_running_processes E
                              ({[process]} ∪ _running_processes E s) s)
  | None => modify (fun s => set_running_processes E
                               ({[process]} ∪ _running_processes E s) s)
  end.

Definition _get_tshark_process (packet_count : option Z) : M pid :=
  output_type <-
    (if use_json self then
       if negb (tshark_supports_json E (_get_tshark_version E self)) then
         raise (TSharkVersionException "JSON only supported on Wireshark >= 2.2.0")
       else ret "json"%string
     else ret (if _only_summaries self then "psml" else "pdml")%string);;
  params <- lift (get_parameters E self packet_count);;
  let parameters :=
    [_get_tshark_path E self; "-l"; "-n"; "-T"; output_type]%string ++ params in
  tshark_process <- new_process parameters;;
  _created_new_process parameters tshark_process "TShark";;
  ret tshark_process.

(** The process object after [kill()] and the bounded wait. *)
Definition after_kill (pr : process) : process :=
  match on_kill pr with
  | Reaped rc => mkProcess (stdout pr) (Some rc) (exit_at_eof pr) (on_kill pr) true
  | WaitTimesOut => mkProcess (stdout pr) None (exit_at_eof pr) (on_kill pr) true
  | NoSuchProcess | OtherOSError => pr
  end.

Definition _cleanup_subprocess (process : pid) : M (option Z) :=
  s <- get;;
  match processes E s !! process with
  | None => ret None
  | Some pr =>
      match returncode pr with
      | None =>
          modify (set_processes E (<[process := after_kill pr]> (processes E s)));;
          match on_kill pr with
          | Reaped rc => ret (Some rc)
          | WaitTimesOut => ret None         (* TimeoutError: logged *)
          | NoSuchProcess => ret None        (* ProcessLookupError: pass *)
          | OtherOSError =>
              if String.eqb (os_name E) "nt" then ret None else raise OSError
          end
      | Some code =>
          if code >? 0 then
            raise (TSharkCrashException
                     ("TShark seems to have crashed (retcode: " ++ str_of_int code
                      ++ "). Try rerunning in debug mode [ capture_obj.set_debug() ] or try updating tshark."))
          else ret None
      end
  end.

(** Whether [_cleanup_subprocess] ends without raising on this process,
    and the process object it leaves. *)
Definition cleans_up_quietly (pr : process) : bool :=
  match returncode pr with
  | None =>
      match on_kill pr with
      | OtherOSError => String.eqb (os_name E) "nt"
      | _ => true
      end
  | Some code => negb (code >? 0)
  end.

Definition cleaned (pr : process) : process :=
  match returncode pr with
  | None => after_kill pr
  | Some _ => pr
  end.

(** [for process in l: await self._cleanup_subprocess(process)]. *)
Fixpoint cleanup_each (l : list pid) : M unit :=
  match l with
  | [] => ret tt
  | process :: l' => _cleanup_subprocess process;; cleanup_each l'
  end.

(** The set is visited in the order of [elements]; Python does not fix
    the order of iteration of a set either. *)
Definition close_async : M unit :=
  s <- get;;
  cleanup_each (elements (_running_processes E s));;
  modify (set_running_processes E ∅).

Definition close : M unit := close_async.

End Supervisor.

(** *** The iteration protocol *)

Section Engine.
Context (E : Env) (self : config).

#[local] Abbreviation M := (M E).
#[local] Abbreviation state := (state E).
#[local] Abbreviation packet := (packet E).

(** A packet handler passed to [apply_on_packets]. It may raise, update
    the caller's own data and, as the handler of [load_packets] does, the
    retained packets. A handler that calls back into the session it is
    run by ([reset], [clear], [next], [close]) is outside the model: what
    is proved of handlers is proved of handlers of this kind. *)
Definition callback : Type :=
  packet -> list packet * User E -> option exn * (list packet * User E).

(** [packet_callback(packet)]. *)
Definition call (packet_callback : callback) (pkt : packet) : M unit :=
  fun s =>
    let '(raised, (pkts, u)) := packet_callback pkt (_packets E s, user E s) in
    let s' := set_calls E (calls E s ++ [(pkt, raised)])
                (set_user E u (set_packets E pkts s)) in
    (match raised with Some e => Raise e | None => Ok tt end, s').

(** A bound on the number of turns the read loops can still take: every
    turn either consumes bytes of the buffer or moves bytes from the pipe
    to the buffer. *)
Definition pending (chunks : list bytes) : nat :=
  fold_right (fun chunk n => (2 * length chunk + 1 + n)%nat) 0%nat chunks.

Definition steps_left (stream : pid) (data : bytes) (s : state) : nat :=
  S (length data
     + match processes E s !! stream with
       | Some pr => pending (stdout pr)
       | None => 0
       end).

(** The loop of [_get_psml_struct]. *)
Fixpoint psml_struct_loop (steps : nat) (fd : pid) (data : bytes)
  : M (option (PsmlStructure E) * bytes) :=
  match steps with
  | O => diverge
  | S steps' =>
      new_data <- read E fd SUMMARIES_BATCH_SIZE;;
      let data := data ++ new_data in
      let '(psml_struct, data) := _extract_tag_from_data data (b "structure") in
      if truthy_opt_bytes psml_struct then
        psml_struct <- lift (psml_structure_from_xml E (default [] psml_struct));;
        if truthy_psml_structure E psml_struct then ret (Some psml_struct, data)
        else psml_struct_loop steps' fd data
      else if negb (truthy_bytes new_data) then ret (None, data)
      else psml_struct_loop steps' fd data
  end.

Definition _get_psml_struct (fd : pid) : M (option (PsmlStructure E) * bytes) :=
  if _only_summaries self then
    fun s => psml_struct_loop (steps_left fd [] s) fd [] s
  else ret (None, []).

(** The text of the record is only logged; what matters is whether it
    decodes. The codec named ['UTF-'] in the handler is UTF-8: the codec
    registry normalises the name to its alias [utf]. *)
Definition _get_packet_from_stream (stream : pid) (existing_data : bytes)
    (got_first_packet : bool) (psml_structure : option (PsmlStructure E))
  : M (option packet * bytes) :=
  let '(packet, existing_data) :=
    if use_json self
    then _extract_packet_json_from_data E self existing_data got_first_packet
    else _extract_tag_from_data existing_data (b "packet") in
  if truthy_opt_bytes packet then
    let packet := default [] packet in
    if use_json self then ret (Some (JsonPacket E packet), existing_data)
    else
      packet <-
        match utf8_decode strict packet with
        | Some _ => ret packet
        | None =>
            match utf8_decode ignore packet ≫= utf8_encode with
            | None => raise UnicodeEncodeError
            | Some packet =>
                match utf8_decode strict packet with
                | Some _ => ret packet
                | None => raise UnicodeDecodeError
                end
            end
        end;;
      packet <- lift (packet_from_xml_packet E packet psml_structure);;
      ret (Some (Packet E packet), existing_data)
  else
    new_data <- read E stream DEFAULT_BATCH_SIZE;;
    let existing_data := existing_data ++ new_data in
    if negb (truthy_bytes new_data) then raise EOFError
    else ret (None, existing_data).

(** [if packet:] on what [_get_packet_from_stream] returned. *)
Definition truthy_opt_packet (p : option packet) : bool :=
  match p with Some p => truthy_packet E p | None => false end.

(** [packet_count and packets_captured >= packet_count]. *)
Definition count_reached (packet_count : option Z) (packets_captured : Z) : bool :=
  truthy_opt_int packet_count && (default 0 packet_count <=? packets_captured).

(** The loop of [_go_through_packets_from_fd]; [Ok tt] is [break]. *)
Fixpoint go_through_loop (steps : nat) (fd : pid) (packet_callback : callback)
    (packet_count : option Z) (psml_struct : option (PsmlStructure E))
    (data : bytes) (packets_captured : Z) : M unit :=
  match steps with
  | O => diverge
  | S steps' =>
      fun s =>
        match _get_packet_from_stream fd data (0 <? packets_captured) psml_struct s with
        | (Raise EOFError, s1) => (Ok tt, s1)
        | (Raise e, s1) => (Raise e, s1)
        | (Diverge, s1) => (Diverge, s1)
        | (Ok (Some pkt, data), s1) =>
            if truthy_packet E pkt then
              let packets_captured := packets_captured + 1 in
              match call packet_callback pkt s1 with
              | (Raise StopCapture, s2) => (Ok tt, s2)
              | (Raise e, s2) => (Raise e, s2)
              | (Diverge, s2) => (Diverge, s2)
              | (Ok _, s2) =>
                  if count_reached packet_count packets_captured then (Ok tt, s2)
                  else go_through_loop steps' fd packet_callback packet_count
                         psml_struct data packets_captured s2
              end
            else if count_reached packet_count packets_captured then (Ok tt, s1)
            else go_through_loop steps' fd packet_callback packet_count
                   psml_struct data packets_captured s1
        | (Ok (None, data), s1) =>
            if count_reached packet_count packets_captured then (Ok tt, s1)
            else go_through_loop steps' fd packet_callback packet_count
                   psml_struct data packets_captured s1
        end
  end.

Definition _go_through_packets_from_fd (fd : pid) (packet_callback : callback)
    (packet_count : option Z) : M unit :=
  r <- _get_psml_struct fd;;
  let '(psml_struct, data) := r in
  fun s =>
    go_through_loop (steps_left fd data s) fd packet_callback packet_count
      psml_struct data 0 s.

Definition packets_from_tshark (packet_callback : callback)
    (packet_count : option Z) (close_tshark : bool) : M unit :=
  tshark_process <- _get_tshark_process E self packet_count;;
  try_finally
    (try_except
       (_go_through_packets_from_fd tshark_process packet_callback packet_count)
       (fun e => match e with StopCapture => Some (ret tt) | _ => None end))
    (if close_tshark then close_async E else ret tt).

(** [apply_on_packets] without a timeout ([asyncio.wait_for] is real time
    and is not part of the model). *)
Definition apply_on_packets (packet_callback : callback) (packet_count : option Z)
  : M unit :=
  packets_from_tshark packet_callback packet_count true.

(** The handler [keep_packet] of [load_packets]. *)
Definition keep_packet (packet_count : Z) (initial_packet_amount : Z) : callback :=
  fun pkt '(pkts, u) =>
    let pkts := pkts ++ [pkt] in
    if negb (packet_count =? 0) && (packet_count <=? len pkts - initial_packet_amount)
    then (Some StopCapture, (pkts, u))
    else (None, (pkts, u)).

Definition load_packets (packet_count : Z) : M unit :=
  s <- get;;
  let initial_packet_amount := len (_packets E s) in
  try_except
    (apply_on_packets (keep_packet packet_count initial_packet_amount) None;;
     modify (set_loaded E true))
    (fun e => match e with TimeoutError => Some (ret tt) | _ => None end).

(** The generator made by [self._packets_from_tshark_sync()], as
    [__init__] and [__iter__] make it: no [packet_count], no
    [existing_process].

    [sync_finally] is the way out of its [try]: the [finally] clause runs,
    then the generator is finished, by [StopIteration] after a [break] or
    by the exception that ended the loop. *)
Definition sync_finally {A} (tshark_process : pid) (e : exn) : M A :=
  s <- get;;
  (if decide (tshark_process ∈ _running_processes E s)
   then _cleanup_subprocess E tshark_process;; ret tt
   else ret tt);;
  raise e.

(** The loop of [_packets_from_tshark_sync] up to its next [yield]. *)
Fixpoint sync_loop (steps : nat) (tshark_process : pid)
    (psml_structure : option (PsmlStructure E)) (data : bytes)
    (packets_captured : Z) : M packet :=
  match steps with
  | O => diverge
  | S steps' =>
      fun s =>
        match _get_packet_from_stream tshark_process data (0 <? packets_captured)
                psml_structure s with
        | (Raise EOFError, s1) => sync_finally tshark_process StopIteration s1
        | (Raise e, s1) => sync_finally tshark_process e s1
        | (Diverge, s1) => (Diverge, s1)
        | (Ok (Some pkt, data), s1) =>
            if truthy_packet E pkt then
              (Ok pkt,
               set_packet_generator E
                 (GenSuspended E tshark_process psml_structure data
                    (packets_captured + 1)) s1)
            else sync_loop steps' tshark_process psml_structure data
                   packets_captured s1
        | (Ok (None, data), s1) =>
            sync_loop steps' tshark_process psml_structure data packets_captured s1
        end
  end.

(** [self._packet_generator.send(None)]. While its body runs the generator
    is marked finished, which is what it is if the body raises; a [yield]
    marks it suspended again. *)
Definition _packet_generator_send : M packet :=
  s <- get;;
  match _packet_generator E s with
  | GenFinished _ => raise StopIteration
  | GenCreated _ =>
      modify (set_packet_generator E (GenFinished E));;
      tshark_process <- _get_tshark_process E self None;;
      r <- _get_psml_struct tshark_process;;
      let psml_structure := fst r in
      tshark_process <- _get_tshark_process E self None;;
      fun s => sync_loop (steps_left tshark_process [] s) tshark_process
                 psml_structure [] 0 s
  | GenSuspended _ tshark_process psml_structure data packets_captured =>
      modify (set_packet_generator E (GenFinished E));;
      fun s => sync_loop (steps_left tshark_process data s) tshark_process
                 psml_structure data packets_captured s
  end.

Definition next_packet : M packet :=
  s <- get;;
  match _packets E s !! _current_packet E s with
  | None => raise StopIteration
  | Some cur_packet =>
      modify (set_current_packet E (S (_current_packet E s)));;
      ret cur_packet
  end.

Definition next : M packet :=
  if negb (keep_packets self) then _packet_generator_send
  else
    s <- get;;
    (if (length (_packets E s) <=? _current_packet E s)%nat then
       pkt <- _packet_generator_send;;
       modify (fun s => set_packets E (_packets E s ++ [pkt]) s)
     else ret tt);;
    next_packet.

Definition clear : M unit :=
  modify (fun s => set_current_packet E 0%nat (set_packets E [] s)).

Definition reset : M unit := modify (set_current_packet E 0%nat).

Definition __len__ : M Z := s <- get;; ret (len (_packets E s)).

(** [l[i]] on a list, with a negative index counting from the end. *)
Definition list_index {A} (l : list A) (i : Z) : option A :=
  if i <? 0 then (if len l + i <? 0 then None else l !! Z.to_nat (len l + i))
  else l !! Z.to_nat i.

(** The loop of [__getitem__]. *)
Fixpoint getitem_loop (steps : nat) (packet_index : Z) : M packet :=
  match steps with
  | O => diverge
  | S steps' =>
      s <- get;;
      if len (_packets E s) <=? packet_index then
        try_except (next;; ret tt)
          (fun e =>
             match e with
             | StopIteration =>
                 Some (raise (KeyError ("Packet of index " ++ str_of_int packet_index
                                        ++ " does not exist in capture")))
             | _ => None
             end);;
        getitem_loop steps' packet_index
      else
        match list_index (_packets E s) packet_index with
        | Some pkt => ret pkt
        | None => raise IndexError
        end
  end.

Definition __getitem__ (packet_index : Z) : M packet :=
  if negb (keep_packets self) then
    raise (NotImplementedError "Cannot use getitem if packet are not kept")
  else
    fun s =>
      getitem_loop
        (Z.to_nat (packet_index - Z.of_nat (_current_packet E s)) + 2)
        packet_index s.

(** One call of the public iteration surface. *)
Inductive operation : Type :=
| OpNext
| OpLoadPackets (packet_count : Z)
| OpClear
| OpReset.

Definition run_operation (op : operation) : state -> state :=
  fun s =>
    match op with
    | OpNext => snd (next s)
    | OpLoadPackets packet_count => snd (load_packets packet_count s)
    | OpClear => snd (clear s)
    | OpReset => snd (reset s)
    end.

Definition run_operations (ops : list operation) (s : state) : state :=
  fold_left (fun s op => run_operation op s) ops s.

(** A logged call that raised [StopCapture], and a log in which such a
    call can only be the last one. *)
Definition stopped (c : packet * option exn) : bool :=
  match c.2 with Some StopCapture => true | _ => false end.

Definition stop_only_last (l : list (packet * option exn)) : Prop :=
  forall i c, l !! i = Some c -> stopped c = true -> S i = length l.

End Engine.

End Capture.

(** ** The vocabulary of the properties

    Views of the session, and the output of a process as a stream of
    records. *)

Module Vocabulary.
Import Py Capture.
#[local] Open Scope monad_scope.

Section Cursor.
Context (E : Env) (self : config).

(** The cursor of [next_packet] points into the retained packets or just
    past them. *)
Definition cursor_in_range (s : state E) : Prop :=
  (_current_packet E s <= length (_packets E s))%nat.

(** [next()] called [n] times, with the outcome of each call. *)
Fixpoint next_n (n : nat) (s : state E) : list (result (packet E)) * state E :=
  match n with
  | O => ([], s)
  | S n' =>
      let r := next E self s in
      let rs := next_n n' r.2 in
      (r.1 :: rs.1, rs.2)
  end.

End Cursor.

Section Views.
Context (E : Env).

(** Two states that agree on what [view] shows of a state. *)
Definition same {A} (view : state E -> A) (s s' : state E) : Prop :=
  view s' = view s.

(** The attributes of the session proper, and the bookkeeping of the
    processes it has started. *)
Definition attributes (s : state E) :=
  (loaded E s, _packets E s, _current_packet E s, _packet_generator E s,
   user E s, calls E s).

Definition handles (s : state E) := (_running_processes E s, next_pid E s).

(** What a packet handler has no hand in. *)
Definition iteration (s : state E) :=
  (loaded E s, _current_packet E s, _packet_generator E s).

End Views.

Arguments same {E A} view s s'.

Section Log.
Context (E : Env).

(** In a log of handler calls, a call that raised is the last one. *)
Definition raises_only_last (l : list (packet E * option exn)) : Prop :=
  forall i pkt e, l !! i = Some (pkt, Some e) -> S i = length l.

End Log.

Section Streams.
Context (E : Env).

(** A stretch of tagged markup that holds one complete record: an opening
    tag, and after it a closing tag, the first of the stretch, that ends
    the stretch. Whatever comes before the opening tag (a prolog, the
    space between two records) belongs to no record: [record_of] is the
    record itself. *)
Definition complete_record (tag_name stretch : bytes) : bool :=
  (0 <=? find stretch (opening_tag tag_name))
  && (find stretch (opening_tag tag_name) + len (opening_tag tag_name)
      <=? find stretch (closing_tag tag_name))
  && (find stretch (closing_tag tag_name) + len (closing_tag tag_name)
      =? len stretch).

Definition record_of (tag_name stretch : bytes) : bytes :=
  slice_from stretch (find stretch (opening_tag tag_name)).

(** The bytes of a record that [_get_packet_from_stream] hands to
    [packet_from_xml_packet]: the record itself if it is valid UTF-8, else
    what [decode('UTF-', 'ignore')] and [encode()] leave of it. *)
Definition sanitized (record : bytes) : bytes :=
  match utf8_decode strict record with
  | Some _ => record
  | None => default record (utf8_decode ignore record ≫= utf8_encode)
  end.

(** The process [pr] once part of its output has been read, [chunks]
    being what its pipe has still to deliver; and once its pipe has been
    read to the end, which is when its exit status is collected. *)
Definition reading (pr : process) (chunks : list bytes) : process :=
  mkProcess chunks (returncode pr) (exit_at_eof pr) (on_kill pr) (killed pr).

Definition drained (pr : process) : process :=
  mkProcess []
    (match returncode pr with None => exit_at_eof pr | Some rc => Some rc end)
    (exit_at_eof pr) (on_kill pr) (killed pr).

(** The bytes a reader of the output of [pr], started as [fd], has still
    to see: those in its buffer [data], then those the pipe has still to
    deliver. *)
Definition feeds (fd : pid) (pr : process) (data stream : bytes) (s : state E)
  : Prop :=
  exists chunks,
    processes E s !! fd = Some (reading pr chunks)
    /\ data ++ concat chunks = stream.

End Streams.

Section Decoding.
Context (E : Env).

(** A record of tagged markup with the packet the decoder makes of it. *)
Definition decodes (psml_structure : option (PsmlStructure E))
    (record : bytes) (pkt : XmlPacket E) : Prop :=
  complete_record (b "packet") record = true
  /\ packet_from_xml_packet E (sanitized (record_of (b "packet") record))
       psml_structure = inr pkt
  /\ truthy_xml_packet E pkt = true.

End Decoding.

Section Processes.
Context (E : Env) (self : config).

(** The command line [_get_tshark_process] builds around the parameters
    of [get_parameters]. *)
Definition command_line (params : list string) : list string :=
  [_get_tshark_path E self; "-l"; "-n"; "-T";
   if use_json self then "json"
   else if _only_summaries self then "psml" else "pdml"]%string ++ params.

(** The state in which [_get_tshark_process] leaves the session when the
    process it has started is not found dead. *)
Definition started (pr : process) (s : state E) : state E :=
  set_running_processes E ({[next_pid E s]} ∪ _running_processes E s)
    (set_next_pid E (S (next_pid E s))
       (set_processes E (<[next_pid E s := pr]> (processes E s)) s)).

End Processes.

Section Generators.
Context (E : Env).

(** What the generator of the session has still to go through: [stream],
    from the output of [pr]. Either it has not started, and nothing of the
    output has been read, or it is suspended at its [yield] with part of
    the output in its buffer. *)
Definition pulling (pr : process) (stream : bytes) (s : state E) : Prop :=
  match _packet_generator E s with
  | GenCreated _ => concat (stdout pr) = stream
  | GenSuspended _ fd psml_structure data _ =>
      psml_structure = None /\ feeds E fd pr data stream s
  | GenFinished _ => False
  end.

End Generators.

End Vocabulary.

(** ** An environment to run the model in

    A Unix host whose decoder keeps the record's bytes as the packet; the
    tshark version and the behaviour of the processes it starts are left
    to each example. *)

Module Example.
Import Py Capture.

Definition env (v : version) (spawn : list string -> process) : Env :=
  {| XmlPacket := bytes;
     PsmlStructure := bytes;
     User := nat;
     packet_from_xml_packet := fun d _ => inr d;
     psml_structure_from_xml := fun d => inr d;
     truthy_xml_packet := fun _ => true;
     truthy_psml_structure := fun _ => true;
     get_process_path := fun _ => "tshark"%string;
     get_tshark_version := fun _ => v;
     tshark_supports_json := fun v => version_ge v [2; 2; 0]%N;
     get_tshark_display_filter_flag :=
       fun v => if version_ge v [1; 10; 0]%N then "-Y"%string else "-R"%string;
     path_exists := String.eqb "capture.pcap";
     os_name := "posix";
     linesep := [x0a];
     event_loop_available := true;
     create_subprocess_exec := spawn |}.

(** A process that writes [chunks], then exits with [status]. *)
Definition writes (chunks : list bytes) (status : Z) : process :=
  {| stdout := chunks; returncode := None; exit_at_eof := Some status;
     on_kill := Reaped (-9); killed := false |}.

(** Every invocation starts a process that writes nothing and exits. *)
Definition silent : list string -> process := fun _ => writes [] 0.

(** A process that is found dead, with [status], right after its start. *)
Definition dead (status : Z) : process :=
  {| stdout := []; returncode := Some status; exit_at_eof := Some status;
     on_kill := NoSuchProcess; killed := false |}.

Definition args (use_json keep_packets : bool) : init_args :=
  {| arg_input_file := PathStr "capture.pcap";
     arg_keep_packets := keep_packets;
     arg_display_filter := None;
     arg_only_summaries := false;
     arg_eventloop_given := false;
     arg_decryption_key := None;
     arg_encryption_type := Some "wpa-pwd"%string;
     arg_output_file := None;
     arg_decode_as := None;
     arg_disable_protocol := None;
     arg_tshark_path := None;
     arg_override_prefs := None;
     arg_capture_filter := None;
     arg_use_json := use_json;
     arg_include_raw := false;
     arg_custom_parameters := CustomNone;
     arg_debug := false |}.

(** Constructor arguments that differ from the defaults in the input
    file, [include_raw], [use_json], [encryption_type] and
    [decryption_key]. *)
Definition init_with (input_file : string) (include_raw use_json : bool)
    (encryption_type decryption_key : option string) : init_args :=
  {| arg_input_file := PathStr input_file;
     arg_keep_packets := true;
     arg_display_filter := None;
     arg_only_summaries := false;
     arg_eventloop_given := false;
     arg_decryption_key := decryption_key;
     arg_encryption_type := encryption_type;
     arg_output_file := None;
     arg_decode_as := None;
     arg_disable_protocol := None;
     arg_tshark_path := None;
     arg_override_prefs := None;
     arg_capture_filter := None;
     arg_use_json := use_json;
     arg_include_raw := include_raw;
     arg_custom_parameters := CustomNone;
     arg_debug := false |}.

(** The session [FileCapture("capture.pcap", ...)] builds from [args]. *)
Definition session (use_json keep_packets : bool) : config :=
  {| input_filename := "capture.pcap";
     keep_packets := keep_packets;
     tshark_path := None;
     _override_prefs := None;
     debug := false;
     use_json := use_json;
     include_raw := false;
     _display_filter := None;
     _capture_filter := None;
     _only_summaries := false;
     _output_file := None;
     _decode_as := None;
     _disable_protocol := None;
     _custom_parameters := CustomNone;
     encryption := (None, "wpa-pwd"%string) |}.

(** A session with a decryption key, and the given [override_prefs] and
    [custom_parameters]. *)
Definition encrypted (prefs : option (list (string * string)))
    (custom : custom_parameters) : config :=
  {| input_filename := "capture.pcap";
     keep_packets := true;
     tshark_path := None;
     _override_prefs := prefs;
     debug := false;
     use_json := false;
     include_raw := false;
     _display_filter := None;
     _capture_filter := None;
     _only_summaries := false;
     _output_file := None;
     _decode_as := None;
     _disable_protocol := None;
     _custom_parameters := custom;
     encryption := (Some "secret"%string, "wpa-pwd"%string) |}.

(** The state before any session exists. *)
Definition boot (E : Env) (u : User E) : state E :=
  {| loaded := false; _packets := []; _current_packet := 0%nat;
     _running_processes := ∅; _packet_generator := GenCreated E;
     processes := ∅; next_pid := 0%nat; user := u; calls := [] |}.

(** A host with tshark 3.0.0 on which no session exists yet. *)
Definition host : Env := env [3; 0; 0]%N silent.

Definition fresh : state host := boot host 0%nat.

(** A host on which tshark writes nothing and exits with [status], its
    exit being noticed when its output is read to the end. *)
Definition crashing (status : Z) : Env := env [3; 0; 0]%N (fun _ => writes [] status).

(** A host on which tshark is found dead, with [status], right after its
    start. *)
Definition stillborn (status : Z) : Env := env [3; 0; 0]%N (fun _ => dead status).

(** A host on which tshark writes two tagged records in two chunks that
    cut the second record. *)
Definition two_packets : Env :=
  env [3; 0; 0]%N
    (fun _ => writes [b "<packet>A</packet><pac"; b "ket>B</packet>"] 0).

(** A host on which tshark writes a JSON array of two records, laid out
    as tshark 3.x does. *)
Definition two_json_packets : Env :=
  env [3; 0; 0]%N
    (fun _ => writes [b "[" ++ [x0a] ++ b "  {1" ++ [x0a] ++ b "  }," ++ [x0a]
                      ++ b "  {2" ++ [x0a] ++ b "  }" ++ [x0a] ++ b "]" ++ [x0a]] 0).

(** [next()] three times, keeping the three outcomes. *)
Definition three_pulls (E : Env) (self : config) (s : state E)
  : result (packet E) * result (packet E) * result (packet E) :=
  let r1 := next E self s in
  let r2 := next E self r1.2 in
  let r3 := next E self r2.2 in
  (r1.1, r2.1, r3.1).

(** Start tshark, read its output once, clean the process up. *)
Definition start_read_cleanup (E : Env) (self : config) : M E (option Z) :=
  (tshark_process <- _get_tshark_process E self None;;
   read E tshark_process SUMMARIES_BATCH_SIZE;;
   _cleanup_subprocess E tshark_process)%monad.

(** A handler that counts the packets it is given in the caller's data
    and raises [StopCapture] on the [n]-th. *)
Definition stop_at (E : Env) (count : User E -> nat) (incr : User E -> User E)
    (n : nat) : callback E :=
  fun _ '(pkts, u) =>
    let u := incr u in
    (if (n <=? count u)%nat then Some StopCapture else None, (pkts, u)).

(** A session without a decryption key, with the given [only_summaries]
    and [override_prefs]. *)
Definition plain (only_summaries : bool) (prefs : option (list (string * string)))
  : config :=
  {| input_filename := "capture.pcap";
     keep_packets := true;
     tshark_path := None;
     _override_prefs := prefs;
     debug := false;
     use_json := false;
     include_raw := false;
     _display_filter := None;
     _capture_filter := None;
     _only_summaries := only_summaries;
     _output_file := None;
     _decode_as := None;
     _disable_protocol := None;
     _custom_parameters := CustomNone;
     encryption := (None, "wpa-pwd"%string) |}.

(** A host on which tshark writes a summary header and one record, in two
    chunks that cut the header. *)
Definition summaries : Env :=
  env [3; 0; 0]%N
    (fun _ => writes [b "<psml><structure><section>No.</section></struc";
                      b "ture><packet>A</packet></psml>"] 0).

(** A host on which tshark writes a prolog, two tagged records and an
    epilog, in two chunks that cut the second record. *)
Definition two_records : Env :=
  env [3; 0; 0]%N
    (fun _ => writes [b "<?xml?><pdml><packet>A</packet><pac";
                      b "ket>B</packet></pdml>"] 0).

(** A host with tshark 2.0.0, which has no JSON output. *)
Definition old_host : Env := env [2; 0; 0]%N silent.

End Example.

(** * Properties *)

(** ** Facts about the runtime primitives *)

Module PyFacts.
Import Py.

Lemma len_nonneg {A} (d : list A) : 0 <= len d.
Proof. unfold len. lia. Qed.

Lemma len_app {A} (x y : list A) : len (x ++ y) = len x + len y.
Proof. unfold len. rewrite length_app. lia. Qed.

Lemma startswith_app (p t : bytes) : startswith (p ++ t) p = true.
Proof.
  induction p as [|c p IH]; [reflexivity|].
  cbn. rewrite IH. now rewrite (byte_dec_lb (eq_refl c)).
Qed.

Lemma startswith_inv (d p : bytes) :
  startswith d p = true -> exists t, d = p ++ t.
Proof.
  revert d. induction p as [|c p IH]; intros d H.
  - now exists d.
  - destruct d as [|y d]; [discriminate|]. cbn in H.
    apply andb_true_iff in H as [Hc Hp].
    apply byte_dec_bl in Hc. subst y.
    destruct (IH _ Hp) as [t ->]. now exists t.
Qed.

Lemma startswith_length (d p : bytes) :
  startswith d p = true -> (length p <= length d)%nat.
Proof.
  intros H. destruct (startswith_inv _ _ H) as [t ->].
  rewrite length_app. lia.
Qed.

(** A prefix test that succeeds on [d] succeeds on every extension. *)
Lemma startswith_extend (d p t : bytes) :
  startswith d p = true -> startswith (d ++ t) p = true.
Proof.
  intros H. destruct (startswith_inv _ _ H) as [u ->].
  rewrite <- app_assoc. apply startswith_app.
Qed.

Lemma find_from_none_or_ge (sub d : bytes) (i : Z) :
  find_from sub d i = -1 \/ i <= find_from sub d i.
Proof.
  revert i. induction d as [|c d IH]; intros i; cbn.
  - destruct (startswith [] sub); [right; lia | now left].
  - destruct (startswith (c :: d) sub); [right; lia|].
    destruct (IH (i + 1)) as [H|H]; [now left | right; lia].
Qed.

(** The offset only shifts the answer. *)
Lemma find_from_shift (sub d : bytes) (i : Z) :
  0 <= i ->
  find_from sub d i = if find_from sub d 0 =? -1 then -1 else i + find_from sub d 0.
Proof.
  revert i. induction d as [|c d IH]; intros i Hi; cbn.
  - destruct (startswith [] sub); cbn; lia.
  - destruct (startswith (c :: d) sub); cbn; [lia|].
    rewrite (IH (i + 1)) by lia. rewrite (IH (0 + 1)) by lia.
    destruct (find_from sub d 0 =? -1) eqn:Hn; cbn; [reflexivity|].
    apply Z.eqb_neq in Hn.
    destruct (find_from_none_or_ge sub d 0) as [H|H]; [contradiction|].
    destruct (0 + 1 + find_from sub d 0 =? -1) eqn:Hm; [apply Z.eqb_eq in Hm|]; lia.
Qed.

(** What is too short to hold [sub] does not hold it. *)
Lemma find_from_short (sub d : bytes) (i : Z) :
  (length d < length sub)%nat -> find_from sub d i = -1.
Proof.
  revert i. induction d as [|c d IH]; intros i Hl; cbn.
  - destruct (startswith [] sub) eqn:Hs; [|reflexivity].
    apply startswith_length in Hs. lia.
  - destruct (startswith (c :: d) sub) eqn:Hs.
    + apply startswith_length in Hs. lia.
    + apply IH. cbn in Hl. lia.
Qed.

Lemma startswith_false_extend (d sub t : bytes) :
  startswith d sub = false -> startswith (d ++ t) sub = true ->
  (length d < length sub)%nat.
Proof.
  revert d. induction sub as [|x sub IH]; intros d H1 H2.
  - destruct d; discriminate.
  - destruct d as [|y d]; [cbn; lia|]. cbn in *.
    destruct (Byte.eqb x y); cbn in *; [|discriminate].
    specialize (IH d H1 H2). lia.
Qed.

(** An occurrence found in [d] is the one found in every extension of [d]. *)
Lemma find_from_extend (sub d t : bytes) (i : Z) :
  find_from sub d i <> -1 -> find_from sub (d ++ t) i = find_from sub d i.
Proof.
  revert i. induction d as [|c d IH]; intros i H.
  - cbn in H. destruct (startswith [] sub) eqn:Hs; [|congruence].
    destruct sub; [|discriminate]. cbn. destruct t; reflexivity.
  - cbn [find_from] in H. rewrite <- app_comm_cons. cbn [find_from].
    destruct (startswith (c :: d) sub) eqn:Hs.
    + rewrite app_comm_cons, (startswith_extend _ _ t Hs). reflexivity.
    + destruct (startswith (c :: d ++ t) sub) eqn:Hs'.
      * rewrite app_comm_cons in Hs'.
        pose proof (startswith_false_extend _ _ _ Hs Hs') as Hl.
        exfalso. apply H. apply find_from_short. cbn in Hl. lia.
      * now apply IH.
Qed.

Lemma find_extend (d sub t : bytes) :
  find d sub <> -1 -> find (d ++ t) sub = find d sub.
Proof. apply find_from_extend. Qed.

Lemma find_startswith (d sub : bytes) :
  startswith d sub = true -> find d sub = 0.
Proof. unfold find. intros H. destruct d; cbn; now rewrite H. Qed.

(** [find] answers [-1] or a position at which [sub] fits. *)
Lemma find_bounds (d sub : bytes) :
  find d sub = -1 \/ (0 <= find d sub /\ find d sub + len sub <= len d).
Proof.
  unfold find. induction d as [|c d IH]; cbn.
  - destruct (startswith [] sub) eqn:Hs; [|now left].
    right. apply startswith_length in Hs. unfold len. cbn in *. lia.
  - destruct (startswith (c :: d) sub) eqn:Hs.
    + right. apply startswith_length in Hs. unfold len. lia.
    + rewrite find_from_shift by lia.
      destruct IH as [->|[H1 H2]]; [now left|].
      destruct (find_from sub d 0 =? -1) eqn:Hn; [now left|].
      right. unfold len in *. cbn [length]. lia.
Qed.

(** *** Slices *)

Lemma clamp_inside (n i : Z) : 0 <= i <= n -> clamp n i = i.
Proof. intros H. unfold clamp. destruct (i <? 0) eqn:Hi; lia. Qed.

Lemma slice_prefix (x y : bytes) : slice (x ++ y) 0 (len x) = x.
Proof.
  unfold slice. pose proof (len_nonneg x). pose proof (len_nonneg y).
  rewrite !clamp_inside by (rewrite len_app; lia).
  cbn. rewrite Z.sub_0_r. unfold len. rewrite Nat2Z.id.
  apply take_app_length.
Qed.

Lemma slice_from_prefix (x y : bytes) : slice_from (x ++ y) (len x) = y.
Proof.
  unfold slice_from. pose proof (len_nonneg x). pose proof (len_nonneg y).
  rewrite clamp_inside by (rewrite len_app; lia).
  unfold len. rewrite Nat2Z.id. apply drop_app_length.
Qed.

Lemma length_slice_from (d : bytes) (i : Z) :
  0 <= i -> length (slice_from d i) = (length d - Z.to_nat i)%nat.
Proof.
  intros H. unfold slice_from, clamp.
  replace (i <? 0) with false by (symmetry; apply Z.ltb_ge; lia).
  rewrite length_drop. unfold len. lia.
Qed.

Lemma slice_split (d : bytes) (hi : Z) :
  0 <= hi <= len d -> d = slice d 0 hi ++ slice_from d hi.
Proof.
  intros H. unfold slice, slice_from. rewrite !clamp_inside by lia.
  cbn. rewrite Z.sub_0_r. symmetry. apply take_drop.
Qed.

(** *** The UTF-8 codec *)

Lemma byte_to_of_N (n : N) : (n < 256)%N -> Byte.to_N (byte_of_N n) = n.
Proof.
  intros H. unfold byte_of_N. destruct (Byte.of_N n) as [c|] eqn:Hc.
  - now apply Byte.to_of_N.
  - apply Byte.of_N_None_iff in Hc. lia.
Qed.

(** Comparisons on [N] that were decided by a test, as propositions. *)
Ltac bool_props :=
  repeat match goal with
  | H : (_ && _) = true |- _ => apply andb_true_iff in H as [? ?]
  | H : (_ || _) = false |- _ => apply orb_false_iff in H as [? ?]
  | H : (_ && _) = false |- _ => apply andb_false_iff in H as [?|?]
  | H : (_ || _) = true |- _ => apply orb_true_iff in H as [?|?]
  | H : (_ <=? _)%N = true |- _ => apply N.leb_le in H
  | H : (_ <=? _)%N = false |- _ => apply N.leb_gt in H
  | H : (_ <? _)%N = true |- _ => apply N.ltb_lt in H
  | H : (_ <? _)%N = false |- _ => apply N.ltb_ge in H
  | H : (_ =? _)%N = true |- _ => apply N.eqb_eq in H
  | H : (_ =? _)%N = false |- _ => apply N.eqb_neq in H
  end.

Ltac absurd_range :=
  exfalso;
  unfold second_of_3, second_of_4, is_continuation, scalar, payload, in_range in *;
  repeat match goal with
         | H : context [if ?c then _ else _] |- _ => destruct c eqn:?
         end;
  bool_props; lia.

(** The decoder at a well-formed sequence of one to four bytes. *)
Lemma utf8_decode_1 (mode : errors) (c0 : byte) (d0 : bytes) :
  (Byte.to_N c0 <? 128)%N = true ->
  utf8_decode mode (c0 :: d0) = cons (Byte.to_N c0) <$> utf8_decode mode d0.
Proof. intros H. cbn [utf8_decode]. now rewrite H. Qed.

Lemma utf8_decode_2 (mode : errors) (c0 c1 : byte) (d1 : bytes) :
  in_range 194 223 (Byte.to_N c0) = true ->
  is_continuation c1 = true ->
  utf8_decode mode (c0 :: c1 :: d1)
  = cons ((Byte.to_N c0 - 192) * 64 + payload c1)%N <$> utf8_decode mode d1.
Proof.
  intros H0 H1. remember (c1 :: d1) as d0 eqn:Hd0. cbn [utf8_decode].
  destruct (Byte.to_N c0 <? 128)%N eqn:Hlt; [absurd_range|].
  rewrite H0. subst d0. cbv beta iota. now rewrite H1.
Qed.

Lemma utf8_decode_3 (mode : errors) (c0 c1 c2 : byte) (d2 : bytes) :
  in_range 224 239 (Byte.to_N c0) = true ->
  second_of_3 (Byte.to_N c0) c1 = true ->
  is_continuation c2 = true ->
  utf8_decode mode (c0 :: c1 :: c2 :: d2)
  = cons ((Byte.to_N c0 - 224) * 4096 + payload c1 * 64 + payload c2)%N
      <$> utf8_decode mode d2.
Proof.
  intros H0 H1 H2. remember (c1 :: c2 :: d2) as d0 eqn:Hd0. cbn [utf8_decode].
  destruct (Byte.to_N c0 <? 128)%N eqn:Hlt; [absurd_range|].
  destruct (in_range 194 223 (Byte.to_N c0)) eqn:H2b; [absurd_range|].
  rewrite H0. subst d0. cbv beta iota. now rewrite H1, H2.
Qed.

Lemma utf8_decode_4 (mode : errors) (c0 c1 c2 c3 : byte) (d3 : bytes) :
  in_range 240 244 (Byte.to_N c0) = true ->
  second_of_4 (Byte.to_N c0) c1 = true ->
  is_continuation c2 = true ->
  is_continuation c3 = true ->
  utf8_decode mode (c0 :: c1 :: c2 :: c3 :: d3)
  = cons ((Byte.to_N c0 - 240) * 262144 + payload c1 * 4096
          + payload c2 * 64 + payload c3)%N
      <$> utf8_decode mode d3.
Proof.
  intros H0 H1 H2 H3. remember (c1 :: c2 :: c3 :: d3) as d0 eqn:Hd0.
  cbn [utf8_decode].
  destruct (Byte.to_N c0 <? 128)%N eqn:Hlt; [absurd_range|].
  destruct (in_range 194 223 (Byte.to_N c0)) eqn:H2b; [absurd_range|].
  destruct (in_range 224 239 (Byte.to_N c0)) eqn:H3b; [absurd_range|].
  rewrite H0. subst d0. cbv beta iota. now rewrite H1, H2, H3.
Qed.

(** Linear arithmetic with division by a constant. *)
Ltac div_lia := zify; Z.to_euclidean_division_equations; lia.

(** A test on a number given by its value holds. *)
Ltac range_holds :=
  unfold second_of_3, second_of_4, is_continuation, payload, in_range;
  repeat rewrite byte_to_of_N by div_lia;
  repeat match goal with
         | |- context [if ?c then _ else _] =>
             let H := fresh in destruct c eqn:H; bool_props
         end;
  try (apply andb_true_iff; split);
  (apply N.leb_le || apply N.ltb_lt); div_lia.

(** The bytes written for a scalar value decode to it, in either mode. *)
Lemma utf8_decode_encode_char (mode : errors) (cp : N) (rest : bytes) :
  scalar cp = true ->
  utf8_decode mode (utf8_encode_char cp ++ rest) = cons cp <$> utf8_decode mode rest.
Proof.
  intros Hs. unfold utf8_encode_char.
  assert (Hcp : (cp < 55296 \/ 57343 < cp < 1114112)%N)
    by (unfold scalar in Hs; bool_props; lia).
  destruct (cp <? 128)%N eqn:H1; [|destruct (cp <? 2048)%N eqn:H2;
                                   [|destruct (cp <? 65536)%N eqn:H3]];
    bool_props; cbn [app].
  - rewrite utf8_decode_1 by (rewrite byte_to_of_N by div_lia; now apply N.ltb_lt).
    now rewrite byte_to_of_N by div_lia.
  - rewrite utf8_decode_2 by range_holds.
    unfold payload. rewrite !byte_to_of_N by div_lia. do 2 f_equal. div_lia.
  - rewrite utf8_decode_3 by range_holds.
    unfold payload. rewrite !byte_to_of_N by div_lia. do 2 f_equal. div_lia.
  - rewrite utf8_decode_4 by range_holds.
    unfold payload. rewrite !byte_to_of_N by div_lia. do 2 f_equal. div_lia.
Qed.

(** The number decoded from a well-formed sequence is a scalar value. *)
Ltac scalar_holds :=
  unfold scalar;
  match goal with
  | |- ((?a <? 55296)%N || _) = true =>
      destruct (a <? 55296)%N eqn:?; [reflexivity|]
  end;
  cbn [orb];
  unfold second_of_3, second_of_4, is_continuation, payload, in_range in *;
  repeat match goal with
         | H : context [if ?c then _ else _] |- _ => destruct c eqn:?
         end;
  repeat match goal with
         | c : byte |- _ => pose proof (Byte.to_N_bounded c); generalize dependent c
         end;
  intros; bool_props; apply andb_true_iff; split; apply N.ltb_lt; lia.

(** With [errors='ignore'] decoding never fails, and yields scalar values
    only. *)
Lemma utf8_decode_ignore_scalars (d : bytes) :
  exists s, utf8_decode ignore d = Some s /\ Forall (fun cp => scalar cp = true) s.
Proof.
  remember (length d) as n eqn:Hn. revert d Hn.
  induction n as [n IH] using lt_wf_ind. intros d ->.
  assert (Hrec : forall d', (length d' < length d)%nat ->
             exists s, utf8_decode ignore d' = Some s
                       /\ Forall (fun cp => scalar cp = true) s)
    by (intros d' Hlt; now apply (IH _ Hlt)).
  assert (Hcons : forall cp d', scalar cp = true -> (length d' < length d)%nat ->
             exists s, cons cp <$> utf8_decode ignore d' = Some s
                       /\ Forall (fun cp => scalar cp = true) s).
  { intros cp d' Hcp Hlt. destruct (Hrec d' Hlt) as (s & -> & Hs).
    exists (cp :: s). split; [reflexivity|]. now constructor. }
  clear IH. destruct d as [|c0 d0]; [now exists []|].
  cbn [utf8_decode].
  repeat (cbv beta iota zeta;
          match goal with
          | |- context [match ?l with [] => _ | _ :: _ => _ end] =>
              is_var l; destruct l
          | |- context [if ?c then _ else _] => destruct c eqn:?
          end);
    cbn [on_error];
    first [ now exists []
          | apply Hrec; cbn [length]; lia
          | apply Hcons; [|cbn [length]; lia] ].
  all: scalar_holds.
Qed.

(** What was encoded decodes, strictly. *)
Lemma utf8_decode_encode (s : list N) :
  Forall (fun cp => scalar cp = true) s ->
  exists d, utf8_encode s = Some d /\ utf8_decode strict d = Some s.
Proof.
  induction 1 as [|cp s Hcp Hs (d & He & Hd)].
  - now exists [].
  - exists (utf8_encode_char cp ++ d). cbn [utf8_encode].
    rewrite Hcp, He. split; [reflexivity|].
    now rewrite utf8_decode_encode_char, Hd.
Qed.

Lemma byte_of_to_N (c : byte) : byte_of_N (Byte.to_N c) = c.
Proof. unfold byte_of_N. now rewrite Byte.of_to_N. Qed.

(** The number decoded from a well-formed sequence is a scalar value, and
    it is encoded by that very sequence. *)
Ltac ranges_as_props :=
  unfold second_of_3, second_of_4, is_continuation, payload, in_range in *;
  repeat match goal with
         | H : context [if ?c then _ else _] |- _ => destruct c eqn:?
         end;
  repeat match goal with
         | c : byte |- _ => pose proof (Byte.to_N_bounded c); generalize dependent c
         end;
  intros; bool_props.

Ltac pick_branch :=
  match goal with
  | |- context [if ?c then _ else _] =>
      first [ replace c with true by (symmetry; apply N.ltb_lt; div_lia)
            | replace c with false by (symmetry; apply N.ltb_ge; div_lia) ]
  end.

Lemma utf8_encode_char_1 (c0 : byte) :
  (Byte.to_N c0 <? 128)%N = true ->
  scalar (Byte.to_N c0) = true /\ utf8_encode_char (Byte.to_N c0) = [c0].
Proof.
  intros H. split.
  - unfold scalar. bool_props.
    now replace (Byte.to_N c0 <? 55296)%N with true by (symmetry; apply N.ltb_lt; lia).
  - unfold utf8_encode_char. rewrite H. now rewrite byte_of_to_N.
Qed.

Lemma utf8_encode_char_2 (c0 c1 : byte) :
  in_range 194 223 (Byte.to_N c0) = true ->
  is_continuation c1 = true ->
  scalar ((Byte.to_N c0 - 192) * 64 + payload c1) = true
  /\ utf8_encode_char ((Byte.to_N c0 - 192) * 64 + payload c1) = [c0; c1].
Proof.
  intros H0 H1. split; [scalar_holds|].
  unfold utf8_encode_char. ranges_as_props.
  repeat pick_branch.
  replace (192 + _ / 64)%N with (Byte.to_N c0) by div_lia.
  replace (128 + _ mod 64)%N with (Byte.to_N c1) by div_lia.
  now rewrite !byte_of_to_N.
Qed.

Lemma utf8_encode_char_3 (c0 c1 c2 : byte) :
  in_range 224 239 (Byte.to_N c0) = true ->
  second_of_3 (Byte.to_N c0) c1 = true ->
  is_continuation c2 = true ->
  scalar ((Byte.to_N c0 - 224) * 4096 + payload c1 * 64 + payload c2) = true
  /\ utf8_encode_char ((Byte.to_N c0 - 224) * 4096 + payload c1 * 64 + payload c2)
     = [c0; c1; c2].
Proof.
  intros H0 H1 H2. split; [scalar_holds|].
  unfold utf8_encode_char. ranges_as_props;
    repeat pick_branch;
    (replace (224 + _ / 4096)%N with (Byte.to_N c0) by div_lia);
    (replace (128 + (_ / 64) mod 64)%N with (Byte.to_N c1) by div_lia);
    (replace (128 + _ mod 64)%N with (Byte.to_N c2) by div_lia);
    now rewrite !byte_of_to_N.
Qed.

Lemma utf8_encode_char_4 (c0 c1 c2 c3 : byte) :
  in_range 240 244 (Byte.to_N c0) = true ->
  second_of_4 (Byte.to_N c0) c1 = true ->
  is_continuation c2 = true ->
  is_continuation c3 = true ->
  scalar ((Byte.to_N c0 - 240) * 262144 + payload c1 * 4096
          + payload c2 * 64 + payload c3) = true
  /\ utf8_encode_char ((Byte.to_N c0 - 240) * 262144 + payload c1 * 4096
                       + payload c2 * 64 + payload c3)
     = [c0; c1; c2; c3].
Proof.
  intros H0 H1 H2 H3. split; [scalar_holds|].
  unfold utf8_encode_char. ranges_as_props;
    repeat pick_branch;
    (replace (240 + _ / 262144)%N with (Byte.to_N c0) by div_lia);
    (replace (128 + (_ / 4096) mod 64)%N with (Byte.to_N c1) by div_lia);
    (replace (128 + (_ / 64) mod 64)%N with (Byte.to_N c2) by div_lia);
    (replace (128 + _ mod 64)%N with (Byte.to_N c3) by div_lia);
    now rewrite !byte_of_to_N.
Qed.

(** Encoding what was decoded gives back the bytes, less those that were
    ignored; nothing is lost of valid UTF-8. *)
Lemma utf8_encode_decoded (mode : errors) (d : bytes) (s : list N) :
  utf8_decode mode d = Some s ->
  exists clean,
    utf8_encode s = Some clean /\ sublist clean d /\ (mode = strict -> clean = d).
Proof.
  remember (length d) as n eqn:Hn. revert d s Hn.
  induction n as [n IH] using lt_wf_ind. intros d s ->.
  assert (Hskip : forall d', (length d' < length d)%nat ->
             forall k, sublist d' k ->
             on_error mode (utf8_decode mode d') = Some s ->
             exists clean, utf8_encode s = Some clean /\ sublist clean k
                           /\ (mode = strict -> clean = d)).
  { intros d' Hlt k Hk Hd. destruct mode; [discriminate|]. cbn [on_error] in Hd.
    destruct (IH _ Hlt d' s eq_refl Hd) as (clean & He & Hsub & _).
    exists clean. repeat split; [exact He| |discriminate].
    now transitivity d'. }
  assert (Hend : forall k,
             on_error mode (Some []) = Some s ->
             exists clean, utf8_encode s = Some clean /\ sublist clean k
                           /\ (mode = strict -> clean = d)).
  { intros k Hd. destruct mode; [discriminate|]. injection Hd as <-.
    exists []. repeat split; [apply sublist_nil_l|discriminate]. }
  assert (Hchar : forall cp enc d',
             scalar cp = true /\ utf8_encode_char cp = enc ->
             d = enc ++ d' -> enc <> [] ->
             cons cp <$> utf8_decode mode d' = Some s ->
             exists clean, utf8_encode s = Some clean /\ sublist clean d
                           /\ (mode = strict -> clean = d)).
  { intros cp enc d' [Hcp Henc] Hd Hne Hdec.
    apply fmap_Some in Hdec as (s' & Hs' & ->).
    assert (Hlt : (length d' < length d)%nat).
    { rewrite Hd, length_app. destruct enc; [contradiction|]. cbn [length]. lia. }
    destruct (IH _ Hlt d' s' eq_refl Hs') as (clean & He & Hsub & Hstrict).
    exists (enc ++ clean). cbn [utf8_encode]. rewrite Hcp, He, Henc, Hd.
    repeat split.
    - now apply sublist_app.
    - intros Hm. now rewrite (Hstrict Hm). }
  clear IH. destruct d as [|c0 d0].
  { intros [= <-]. exists []. now repeat split. }
  cbn [utf8_decode].
  repeat (cbv beta iota zeta;
          match goal with
          | |- context [match ?l with [] => _ | _ :: _ => _ end] =>
              is_var l; destruct l
          | |- context [if ?c then _ else _] => destruct c eqn:?
          end);
    first
      [ apply Hend
      | apply Hskip;
        [cbn [length]; lia | solve [repeat first [reflexivity | apply sublist_cons]]]
      | eapply Hchar;
        [ first [ now apply utf8_encode_char_1 | now apply utf8_encode_char_2
                | now apply utf8_encode_char_3 | now apply utf8_encode_char_4 ]
        | reflexivity | discriminate ] ].
Qed.

(** What [decode('UTF-8', 'ignore')] followed by [encode()] makes of any
    bytes: the bytes less the undecodable ones, which decode strictly. *)
Lemma utf8_sanitized_decodes (d : bytes) :
  exists clean s,
    utf8_decode ignore d ≫= utf8_encode = Some clean
    /\ utf8_decode strict clean = Some s
    /\ sublist clean d.
Proof.
  destruct (utf8_decode_ignore_scalars d) as (s & Hd & Hs).
  destruct (utf8_decode_encode s Hs) as (clean & He & Hc).
  destruct (utf8_encode_decoded ignore d s Hd) as (clean' & He' & Hsub & _).
  rewrite He in He'. injection He' as <-.
  exists clean, s. rewrite Hd. cbn. now repeat split.
Qed.

End PyFacts.

(** ** The boundary scanner *)

Module ScannerFacts.
Import Py PyFacts Capture.

Section Scanner.
Context (E : Env) (self : config).

Lemma opening_tag_starts (tag_name rest : bytes) :
  startswith (opening_tag tag_name ++ rest) (opening_tag tag_name) = true.
Proof. apply startswith_app. Qed.

(** The separators of either convention are not empty and are at least as
    long as what is stripped from them. *)
Lemma json_separators_shape (packet_separator end_separator : bytes) (strip : Z) :
  _get_json_separators E self = (packet_separator, end_separator, strip) ->
  truthy_bytes packet_separator = true /\ truthy_bytes end_separator = true
  /\ 1 <= strip <= len packet_separator /\ strip <= len end_separator.
Proof.
  unfold _get_json_separators.
  destruct (version_ge _ _); intros [= <- <- <-]; unfold len;
    repeat split;
    try (destruct (linesep E); reflexivity);
    cbn; rewrite ?length_app; cbn; rewrite ?length_app; cbn; lia.
Qed.

(** The scanner in JSON mode, at a buffer in which the record starts at
    [body] (at the start of the buffer once a packet has been read, at the
    first brace of the buffer before that) and the separator [sep] it
    settles on first occurs right after [body]. *)
Lemma extract_json_at (packet_separator end_separator : bytes) (strip : Z)
    (lead body sep trailing : bytes) (got_first_packet : bool) :
  _get_json_separators E self = (packet_separator, end_separator, strip) ->
  sep = packet_separator
  \/ (sep = end_separator
      /\ find (lead ++ body ++ sep ++ trailing) packet_separator = -1) ->
  truthy_bytes sep = true ->
  1 <= strip <= len sep ->
  (got_first_packet = true -> lead = []) ->
  (got_first_packet = false -> find (lead ++ body) (b "{") = len lead) ->
  find (lead ++ body ++ sep) sep = len (lead ++ body) ->
  _extract_packet_json_from_data E self (lead ++ body ++ sep ++ trailing)
    got_first_packet
  = (Some (body ++ take (Z.to_nat (len sep - strip)) sep),
     drop (Z.to_nat (len sep - strip + 1)) sep ++ trailing).
Proof.
  intros Hseps Hsep Htruthy Hstrip Hlater Hfirst Hfind.
  pose proof (len_nonneg lead) as Hl. pose proof (len_nonneg body) as Hb.
  rewrite len_app in Hfind.
  assert (Hhit : find (lead ++ body ++ sep ++ trailing) sep = len lead + len body).
  { replace (lead ++ body ++ sep ++ trailing) with ((lead ++ body ++ sep) ++ trailing)
      by (now rewrite <- !app_assoc).
    rewrite find_extend; lia. }
  unfold _extract_packet_json_from_data. rewrite Hseps.
  assert (Hstart : (if got_first_packet then 0
                    else find (lead ++ body ++ sep ++ trailing) (b "{")) = len lead).
  { destruct got_first_packet.
    - now rewrite (Hlater eq_refl).
    - specialize (Hfirst eq_refl). rewrite app_assoc, find_extend; lia. }
  rewrite Hstart.
  replace (negb got_first_packet && (len lead =? -1)) with false
    by (destruct got_first_packet; cbn; [reflexivity|symmetry; apply Z.eqb_neq; lia]).
  assert (Hres :
    (Some (slice (lead ++ body ++ sep ++ trailing) (len lead)
             (len lead + len body + len sep - strip)),
     slice_from (lead ++ body ++ sep ++ trailing)
       (len lead + len body + len sep - strip + 1))
    = (Some (body ++ take (Z.to_nat (len sep - strip)) sep),
       drop (Z.to_nat (len sep - strip + 1)) sep ++ trailing)).
  { unfold slice, slice_from.
    rewrite !clamp_inside by (rewrite ?len_app; pose proof (len_nonneg trailing); lia).
    f_equal.
    - f_equal.
      replace (Z.to_nat (len lead)) with (length lead) by (unfold len; lia).
      rewrite drop_app_length.
      replace (Z.to_nat (len lead + len body + len sep - strip - len lead))
        with (length body + Z.to_nat (len sep - strip))%nat by (unfold len in *; lia).
      rewrite take_app_add. f_equal.
      apply take_app_le. unfold len in *. lia.
    - replace (Z.to_nat (len lead + len body + len sep - strip + 1))
        with (length lead + (length body + Z.to_nat (len sep - strip + 1)))%nat
        by (unfold len in *; lia).
      rewrite !drop_app_add. apply drop_app_le. unfold len in *. lia. }
  destruct Hsep as [->|[-> Hnone]].
  - rewrite Hhit.
    replace (len lead + len body =? -1) with false by (symmetry; apply Z.eqb_neq; lia).
    rewrite Htruthy. exact Hres.
  - rewrite Hnone, Hhit. change (-1 =? -1) with true. cbv iota.
    replace (len lead + len body =? -1) with false by (symmetry; apply Z.eqb_neq; lia).
    cbn [negb]. rewrite Htruthy. exact Hres.
Qed.

Lemma slice_from_step (d : bytes) (i : Z) :
  0 <= i < len d -> exists c, slice_from d i = c :: slice_from d (i + 1).
Proof.
  intros H. unfold slice_from. rewrite !clamp_inside by lia.
  replace (Z.to_nat (i + 1)) with (S (Z.to_nat i)) by lia.
  destruct (drop (Z.to_nat i) d) as [|c t] eqn:Hd.
  - apply (f_equal length) in Hd. rewrite length_drop in Hd.
    unfold len in H. cbn in Hd. lia.
  - exists c. f_equal.
    replace (S (Z.to_nat i)) with (Z.to_nat i + 1)%nat by lia.
    rewrite <- drop_drop, Hd. reflexivity.
Qed.

(** In JSON mode the record and the remainder never make up the buffer:
    the byte that follows the record is dropped. *)
Lemma extract_json_drops_one (data record rest : bytes) :
  _extract_packet_json_from_data E self data true = (Some record, rest) ->
  exists c, data = record ++ c :: rest.
Proof.
  unfold _extract_packet_json_from_data. cbn [negb andb].
  destruct (_get_json_separators E self) as [[psep esep] strip] eqn:Hseps.
  destruct (json_separators_shape _ _ _ Hseps) as (Hp & He & Hs & Hs').
  assert (Hgen : forall sep : bytes,
             find data sep <> -1 -> 1 <= strip <= len sep ->
             exists c, data = slice data 0 (find data sep + len sep - strip)
                              ++ c :: slice_from data (find data sep + len sep - strip + 1)).
  { intros sep Hf Hl. destruct (find_bounds data sep) as [|[H0 H1]]; [contradiction|].
    destruct (slice_from_step data (find data sep + len sep - strip)) as [c Hc]; [lia|].
    exists c. rewrite <- Hc.
    apply slice_split. lia. }
  destruct (find data psep =? -1) eqn:Hfp.
  - destruct (find data esep =? -1) eqn:Hfe; cbn [negb]; [discriminate|].
    rewrite He. intros [= <- <-]. apply Hgen; [|lia]. now apply Z.eqb_neq.
  - rewrite Hp. intros [= <- <-]. apply Hgen; [|lia]. now apply Z.eqb_neq.
Qed.

(** C1 (as amended), tagged-markup mode and JSON mode under both separator
    conventions. In tagged-markup mode a buffer made of one record, whose
    only closing tag is the one that ends it, and of trailing bytes yields
    that record and exactly the trailing bytes. In JSON mode the buffer is
    [lead ++ body ++ separator ++ trailing], where [body] is where the
    record starts: once a first packet has been read
    ([got_first_packet = true]) that is the start of the buffer, so [lead]
    is empty; on the first call ([got_first_packet = false]) it is the
    first brace of the buffer, and [lead], the bytes before that brace
    (the opening bracket of the array and what follows it), is dropped.
    When the separator (the packet separator, or the end-of-array
    separator when no packet separator occurs) first occurs right after
    [body], the scanner yields [body] followed by the separator less its
    last [strip] bytes; the next byte is dropped and the remainder is the
    rest of the separator followed by the trailing bytes. From tshark
    3.0.0 on that leaves part of the separator in the remainder; before
    3.0.0 the remainder is exactly the trailing bytes. *)
Theorem extract_one_record (tag_name lead body trailing : bytes)
    (got_first_packet : bool) :
  (find (opening_tag tag_name ++ body ++ closing_tag tag_name) (closing_tag tag_name)
   = len (opening_tag tag_name ++ body) ->
   _extract_tag_from_data
     ((opening_tag tag_name ++ body ++ closing_tag tag_name) ++ trailing) tag_name
   = (Some (opening_tag tag_name ++ body ++ closing_tag tag_name), trailing))
  /\
  ((got_first_packet = true -> lead = []) ->
   (got_first_packet = false -> find (lead ++ body) (b "{") = len lead) ->
   (version_ge (_get_tshark_version E self) [3; 0; 0]%N = true ->
    (find (lead ++ body ++ linesep E ++ b "  }," ++ linesep E)
       (linesep E ++ b "  }," ++ linesep E)
     = len (lead ++ body) ->
     _extract_packet_json_from_data E self
       (lead ++ body ++ (linesep E ++ b "  }," ++ linesep E) ++ trailing)
       got_first_packet
     = (Some (body ++ linesep E ++ b "  }"), linesep E ++ trailing))
    /\
    (find (lead ++ body ++ (b "}" ++ linesep E ++ b "]") ++ trailing)
       (linesep E ++ b "  }," ++ linesep E) = -1 ->
     find (lead ++ body ++ b "}" ++ linesep E ++ b "]") (b "}" ++ linesep E ++ b "]")
     = len (lead ++ body) ->
     _extract_packet_json_from_data E self
       (lead ++ body ++ (b "}" ++ linesep E ++ b "]") ++ trailing) got_first_packet
     = (Some (body ++ b "}"), drop 1 (linesep E ++ b "]") ++ trailing)))
   /\
   (version_ge (_get_tshark_version E self) [3; 0; 0]%N = false ->
    (find (lead ++ body ++ b "}" ++ linesep E ++ linesep E ++ b "  ,")
       (b "}" ++ linesep E ++ linesep E ++ b "  ,")
     = len (lead ++ body) ->
     _extract_packet_json_from_data E self
       (lead ++ body ++ (b "}" ++ linesep E ++ linesep E ++ b "  ,") ++ trailing)
       got_first_packet
     = (Some (body ++ b "}" ++ linesep E ++ linesep E ++ b "  "), trailing))
    /\
    (find (lead ++ body ++ (b "}" ++ linesep E ++ linesep E ++ b "]") ++ trailing)
       (b "}" ++ linesep E ++ linesep E ++ b "  ,") = -1 ->
     find (lead ++ body ++ b "}" ++ linesep E ++ linesep E ++ b "]")
       (b "}" ++ linesep E ++ linesep E ++ b "]")
     = len (lead ++ body) ->
     _extract_packet_json_from_data E self
       (lead ++ body ++ (b "}" ++ linesep E ++ linesep E ++ b "]") ++ trailing)
       got_first_packet
     = (Some (body ++ b "}" ++ linesep E ++ linesep E), trailing)))).
Proof.
  split.
  - intros Hfind. unfold _extract_tag_from_data.
    pose proof (len_nonneg (opening_tag tag_name ++ body)) as Hn.
    rewrite find_extend by lia. rewrite Hfind.
    replace (len (opening_tag tag_name ++ body) =? -1) with false
      by (symmetry; apply Z.eqb_neq; lia).
    cbn [negb].
    replace (find _ (opening_tag tag_name)) with 0.
    2:{ symmetry. apply find_startswith. rewrite <- !app_assoc.
        apply opening_tag_starts. }
    replace (len (opening_tag tag_name ++ body) + len (closing_tag tag_name))
      with (len (opening_tag tag_name ++ body ++ closing_tag tag_name))
      by (rewrite !len_app; lia).
    now rewrite slice_prefix, slice_from_prefix.
  - intros Hlater Hfirst.
    assert (Hsep : forall v, version_ge (_get_tshark_version E self) [3; 0; 0]%N = v ->
              _get_json_separators E self
              = if v then (linesep E ++ b "  }," ++ linesep E,
                           b "}" ++ linesep E ++ b "]", 1 + len (linesep E))
                else (b "}" ++ linesep E ++ linesep E ++ b "  ,",
                      b "}" ++ linesep E ++ linesep E ++ b "]", 1)).
    { intros v Hv. unfold _get_json_separators. now rewrite Hv. }
    split; intros Hv; specialize (Hsep _ Hv); cbv iota in Hsep;
      destruct (json_separators_shape _ _ _ Hsep) as (Hp & He & Hs & Hs'); split.
    + intros Hfind.
      rewrite (extract_json_at _ _ _ lead body _ trailing got_first_packet Hsep
                 (or_introl eq_refl) Hp Hs Hlater Hfirst Hfind).
      f_equal.
      * do 2 f_equal.
        replace (Z.to_nat _) with (length (linesep E) + 3)%nat
          by (unfold len; rewrite !length_app; cbn; lia).
        now rewrite take_app_add.
      * f_equal.
        replace (Z.to_nat _) with (length (linesep E) + 4)%nat
          by (unfold len; rewrite !length_app; cbn; lia).
        now rewrite drop_app_add.
    + intros Hnone Hfind.
      rewrite (extract_json_at _ _ _ lead body _ trailing got_first_packet Hsep
                 (or_intror (conj eq_refl Hnone)) He ltac:(lia) Hlater Hfirst Hfind).
      f_equal.
      * do 2 f_equal.
        replace (Z.to_nat _) with 1%nat
          by (unfold len; cbn; rewrite !length_app; cbn; lia).
        reflexivity.
      * f_equal.
        replace (Z.to_nat _) with 2%nat
          by (unfold len; cbn; rewrite !length_app; cbn; lia).
        reflexivity.
    + intros Hfind.
      rewrite (extract_json_at _ _ _ lead body _ trailing got_first_packet Hsep
                 (or_introl eq_refl) Hp Hs Hlater Hfirst Hfind).
      f_equal.
      * do 2 f_equal.
        replace (Z.to_nat _)
          with (length (b "}") + (length (linesep E) + (length (linesep E) + 2)))%nat
          by (unfold len; cbn; rewrite !length_app; cbn; lia).
        now rewrite !take_app_add.
      * replace (Z.to_nat _)
          with (length (b "}") + (length (linesep E) + (length (linesep E) + 3)))%nat
          by (unfold len; cbn; rewrite !length_app; cbn; lia).
        now rewrite !drop_app_add.
    + intros Hnone Hfind.
      rewrite (extract_json_at _ _ _ lead body _ trailing got_first_packet Hsep
                 (or_intror (conj eq_refl Hnone)) He ltac:(lia) Hlater Hfirst Hfind).
      f_equal.
      * do 2 f_equal.
        replace (Z.to_nat _)
          with (length (b "}") + (length (linesep E) + (length (linesep E) + 0)))%nat
          by (unfold len; cbn; rewrite !length_app; cbn; lia).
        rewrite !take_app_add. cbn [take]. now rewrite app_nil_r.
      * replace (Z.to_nat _)
          with (length (b "}") + (length (linesep E) + (length (linesep E) + 1)))%nat
          by (unfold len; cbn; rewrite !length_app; cbn; lia).
        now rewrite !drop_app_add.
Qed.

(** A record taken from the buffer leaves a shorter buffer, and the
    buffer never grows. *)
Lemma closing_tag_not_empty (tag_name : bytes) : 0 < len (closing_tag tag_name).
Proof. unfold closing_tag, opening_tag, len. cbn. lia. Qed.

Lemma extract_tag_shrinks (data tag_name : bytes) (record : option bytes)
    (rest : bytes) :
  _extract_tag_from_data data tag_name = (record, rest) ->
  (length rest <= length data)%nat
  /\ (record <> None -> (length rest < length data)%nat).
Proof.
  unfold _extract_tag_from_data.
  destruct (find data (closing_tag tag_name) =? -1) eqn:Hf; cbn [negb].
  - intros [= <- <-]. split; [lia|congruence].
  - intros [= <- <-]. apply Z.eqb_neq in Hf.
    destruct (find_bounds data (closing_tag tag_name)) as [|[H0 H1]]; [contradiction|].
    pose proof (closing_tag_not_empty tag_name).
    rewrite length_slice_from by lia.
    unfold len in *. split; [lia|intros _; lia].
Qed.

Lemma extract_json_shrinks (data : bytes) (got_first_packet : bool)
    (record : option bytes) (rest : bytes) :
  _extract_packet_json_from_data E self data got_first_packet = (record, rest) ->
  (length rest <= length data)%nat
  /\ (record <> None -> (length rest < length data)%nat).
Proof.
  intros H.
  destruct record as [r|].
  - assert (Htrue : exists r', _extract_packet_json_from_data E self data true
                               = (Some r', rest)).
    { revert H. unfold _extract_packet_json_from_data.
      destruct (negb got_first_packet && _); [discriminate|]. cbn [negb andb].
      destruct (_get_json_separators E self) as [[psep esep] strip].
      destruct (if find data psep =? -1 then _ else _) as [tag_end [sep|]];
        [|discriminate].
      destruct (truthy_bytes sep); [|discriminate].
      intros [= <- <-]. eauto. }
    destruct Htrue as [r' Hr'].
    destruct (extract_json_drops_one _ _ _ Hr') as [c ->].
    rewrite length_app. cbn [length]. split; [lia|intros _; lia].
  - assert (rest = data) as ->.
    { revert H. unfold _extract_packet_json_from_data.
      destruct (negb got_first_packet && _); [now intros [= <-]|].
      destruct (_get_json_separators E self) as [[psep esep] strip].
      destruct (if find data psep =? -1 then _ else _) as [tag_end [sep|]];
        [|now intros [= <-]].
      destruct (truthy_bytes sep); [discriminate|now intros [= <-]]. }
    split; [lia|congruence].
Qed.

(** C7. A buffer that holds no closing boundary (no closing tag in
    tagged-markup mode; neither the packet separator nor the end-of-array
    separator in JSON mode, under either convention) yields no record and
    comes back unchanged; scanning what came back gives the same answer. *)
Theorem extract_record_prefix :
  (forall data tag_name : bytes,
      find data (closing_tag tag_name) = -1 ->
      _extract_tag_from_data data tag_name = (None, data)
      /\ _extract_tag_from_data (_extract_tag_from_data data tag_name).2 tag_name
         = _extract_tag_from_data data tag_name)
  /\
  (forall (data : bytes) (got_first_packet : bool),
      find data (_get_json_separators E self).1.1 = -1 ->
      find data (_get_json_separators E self).1.2 = -1 ->
      _extract_packet_json_from_data E self data got_first_packet = (None, data)
      /\ _extract_packet_json_from_data E self
           (_extract_packet_json_from_data E self data got_first_packet).2
           got_first_packet
         = _extract_packet_json_from_data E self data got_first_packet).
Proof.
  split.
  - intros data tag_name Hnone.
    assert (H : _extract_tag_from_data data tag_name = (None, data)).
    { unfold _extract_tag_from_data. now rewrite Hnone. }
    now rewrite !H.
  - intros data got_first_packet Hp He.
    assert (H : _extract_packet_json_from_data E self data got_first_packet
                = (None, data)).
    { unfold _extract_packet_json_from_data.
      destruct (_get_json_separators E self) as [[psep esep] strip].
      cbn in Hp, He. rewrite Hp, He. cbn.
      now destruct (negb got_first_packet && _). }
    now rewrite !H.
Qed.

End Scanner.

(** The buffers of the examples: two JSON records as tshark 3.x lays them
    out, and as tshark 2.x does. *)
Lemma extract_one_record_witness :
  _extract_tag_from_data (b "<packet>A</packet><packet>B") (b "packet")
  = (Some (b "<packet>A</packet>"), b "<packet>B")
  /\ _extract_packet_json_from_data (Example.env [3; 0; 0]%N Example.silent)
       (Example.session true true)
       (b "[" ++ [x0a] ++ b "  {1" ++ [x0a] ++ b "  }," ++ [x0a] ++ b "  {2") false
     = (Some (b "{1" ++ [x0a] ++ b "  }"), [x0a] ++ b "  {2")
  /\ _extract_packet_json_from_data (Example.env [3; 0; 0]%N Example.silent)
       (Example.session true true)
       (b "{1" ++ [x0a] ++ b "  }," ++ [x0a] ++ b "  {2") true
     = (Some (b "{1" ++ [x0a] ++ b "  }"), [x0a] ++ b "  {2")
  /\ _extract_packet_json_from_data (Example.env [3; 0; 0]%N Example.silent)
       (Example.session true true)
       (b "{2" ++ [x0a] ++ b "  }" ++ [x0a] ++ b "]" ++ [x0a]) false
     = (Some (b "{2" ++ [x0a] ++ b "  }"), b "]" ++ [x0a])
  /\ _extract_packet_json_from_data (Example.env [2; 6; 1]%N Example.silent)
       (Example.session true true)
       (b "{1  }" ++ [x0a; x0a] ++ b "  ,{2") true
     = (Some (b "{1  }" ++ [x0a; x0a] ++ b "  "), b "{2")
  /\ _extract_packet_json_from_data (Example.env [2; 6; 1]%N Example.silent)
       (Example.session true true)
       (b "[" ++ [x0a] ++ b "  {2  }" ++ [x0a; x0a] ++ b "]") false
     = (Some (b "{2  }" ++ [x0a; x0a]), []).
Proof.
  split; [|split; [|split; [|split; [|split]]]].
  - exact (proj1 (extract_one_record (Example.env [3; 0; 0]%N Example.silent)
                    (Example.session true true)
                    (b "packet") [] (b "A") (b "<packet>B") true) eq_refl).
  - apply (proj2 (extract_one_record (Example.env [3; 0; 0]%N Example.silent)
                    (Example.session true true)
                    (b "packet") (b "[" ++ [x0a] ++ b "  ") (b "{1") (b "  {2") false));
      [discriminate|reflexivity|reflexivity|reflexivity].
  - apply (proj2 (extract_one_record (Example.env [3; 0; 0]%N Example.silent)
                    (Example.session true true)
                    (b "packet") [] (b "{1") (b "  {2") true));
      [reflexivity|discriminate|reflexivity|reflexivity].
  - apply (proj2 (extract_one_record (Example.env [3; 0; 0]%N Example.silent)
                    (Example.session true true)
                    (b "packet") [] (b "{2" ++ [x0a] ++ b "  ") [x0a] false));
      [discriminate|reflexivity|reflexivity|reflexivity|reflexivity].
  - apply (proj2 (extract_one_record (Example.env [2; 6; 1]%N Example.silent)
                    (Example.session true true)
                    (b "packet") [] (b "{1  ") (b "{2") true));
      [reflexivity|discriminate|reflexivity|reflexivity].
  - apply (proj2 (extract_one_record (Example.env [2; 6; 1]%N Example.silent)
                    (Example.session true true)
                    (b "packet") (b "[" ++ [x0a] ++ b "  ") (b "{2  ") [] false));
      [discriminate|reflexivity|reflexivity|reflexivity|reflexivity].
Defined.

(** C1 as stated fails in JSON mode, under both conventions: the scanner
    does find a record in each of these buffers, but in no way is the
    buffer a record followed by trailing bytes such that the scanner
    returns that record and those trailing bytes. *)
Lemma extract_json_loses_a_byte :
  let new := Example.env [3; 0; 0]%N Example.silent in
  let old := Example.env [2; 6; 1]%N Example.silent in
  let self := Example.session true true in
  let data_new := b "{1" ++ [x0a] ++ b "  }," ++ [x0a] ++ b "  {2" in
  let data_old := b "{1  }" ++ [x0a; x0a] ++ b "  ,{2" in
  _extract_packet_json_from_data new self data_new true
  = (Some (b "{1" ++ [x0a] ++ b "  }"), [x0a] ++ b "  {2")
  /\ _extract_packet_json_from_data old self data_old true
     = (Some (b "{1  }" ++ [x0a; x0a] ++ b "  "), b "{2")
  /\ ~ (exists record trailing,
           data_new = record ++ trailing
           /\ _extract_packet_json_from_data new self data_new true
              = (Some record, trailing))
  /\ ~ (exists record trailing,
           data_old = record ++ trailing
           /\ _extract_packet_json_from_data old self data_old true
              = (Some record, trailing)).
Proof.
  cbv zeta. split; [reflexivity|split; [reflexivity|split]].
  - intros (record & trailing & Hd & He).
    apply extract_json_drops_one in He as [c Hc].
    rewrite Hc in Hd. apply (f_equal length) in Hd.
    rewrite !length_app in Hd. cbn in Hd. lia.
  - intros (record & trailing & Hd & He).
    apply extract_json_drops_one in He as [c Hc].
    rewrite Hc in Hd. apply (f_equal length) in Hd.
    rewrite !length_app in Hd. cbn in Hd. lia.
Qed.

Lemma extract_record_prefix_witness :
  _extract_tag_from_data (b "<packet>A</pack") (b "packet")
  = (None, b "<packet>A</pack")
  /\ _extract_packet_json_from_data (Example.env [3; 0; 0]%N Example.silent)
       (Example.session true true) (b "{1" ++ [x0a] ++ b "  }") true
     = (None, b "{1" ++ [x0a] ++ b "  }").
Proof.
  split.
  - exact (proj1 (proj1 (extract_record_prefix
                    (Example.env [3; 0; 0]%N Example.silent)
                    (Example.session true true))
                    (b "<packet>A</pack") (b "packet") eq_refl)).
  - exact (proj1 (proj2 (extract_record_prefix
                    (Example.env [3; 0; 0]%N Example.silent)
                    (Example.session true true))
                    (b "{1" ++ [x0a] ++ b "  }") true eq_refl eq_refl)).
Defined.

End ScannerFacts.

(** ** The parameter builder *)

Module ParameterFacts.
Import Py Capture.

Section Parameters.
Context (E : Env).

Lemma override_prefs_loop_filter (self : config) (items : list (string * string))
    (params : list string) :
  all_encryption self = true ->
  override_prefs_loop self items params
  = params ++ flat_map preference_option (unreserved items).
Proof.
  intros Hall. revert params.
  induction items as [|[name value] items IH]; intros params; cbn [override_prefs_loop].
  - cbn. now rewrite app_nil_r.
  - rewrite Hall. cbn [andb]. unfold unreserved. cbn [List.filter fst].
    destruct (reserved_preference name); cbn [negb].
    + apply IH.
    + rewrite IH. cbn [flat_map]. now rewrite <- app_assoc.
Qed.

Lemma decode_as_loop_app (items : list (string * string)) (params : list string) :
  decode_as_loop items params = params ++ decode_as_loop items [].
Proof.
  revert params. induction items as [|[c d] items IH]; intros params; cbn.
  - now rewrite app_nil_r.
  - rewrite IH, (IH [_; _]). now rewrite <- app_assoc.
Qed.

Lemma unreserved_idempotent (items : list (string * string)) :
  unreserved (unreserved items) = unreserved items.
Proof.
  unfold unreserved. induction items as [|item items IH]; [reflexivity|].
  cbn [List.filter]. destruct (reserved_preference item.1) eqn:Hr;
    cbn [negb List.filter]; [exact IH|].
  rewrite Hr. cbn [negb]. now rewrite IH.
Qed.

(** Where the options of the encryption pair and of [override_prefs] stand
    in the result of [get_parameters]. *)
Lemma output_block_app (self : config) (params : list string) :
  output_block self params = params ++ output_block self [].
Proof.
  unfold output_block.
  destruct (_output_file self) as [f|]; [destruct (truthy_str f)|];
    (destruct (_decode_as self) as [d|];
     [rewrite decode_as_loop_app; symmetry; rewrite decode_as_loop_app; symmetry|]);
    (destruct (_disable_protocol self) as [q|]; [destruct (truthy_str q)|]);
    cbn [app]; now rewrite <- ?app_assoc.
Qed.

(** Where the options of the encryption pair and of [override_prefs] stand
    in the result of [get_parameters]: what precedes and what follows them
    does not depend on [override_prefs]. *)
Lemma get_parameters_shape (self : config) (packet_count : option Z)
    (params : list string) :
  all_encryption self = true ->
  get_parameters E self packet_count = inr params ->
  exists before after,
    forall prefs,
      get_parameters E (with_override_prefs self prefs) packet_count
      = inr (before ++ encryption_options self
             ++ flat_map preference_option (unreserved (default [] prefs))
             ++ after).
Proof.
  intros Hall. unfold get_parameters.
  destruct (custom_parameters_block self (filter_parameters E self packet_count))
    as [e|before] eqn:Hc; [discriminate|].
  intros _. exists before, (output_block self []). intros prefs.
  change (custom_parameters_block (with_override_prefs self prefs)
            (filter_parameters E (with_override_prefs self prefs) packet_count))
    with (custom_parameters_block self (filter_parameters E self packet_count)).
  rewrite Hc. f_equal.
  change (output_block (with_override_prefs self prefs)) with (output_block self).
  rewrite output_block_app, !app_assoc. f_equal.
  unfold encryption_block.
  change (all_encryption (with_override_prefs self prefs)) with (all_encryption self).
  rewrite Hall.
  change (encryption_options (with_override_prefs self prefs))
    with (encryption_options self).
  unfold override_prefs_block. cbn [_override_prefs with_override_prefs].
  destruct prefs as [items|].
  - rewrite override_prefs_loop_filter by exact Hall. reflexivity.
  - cbn. now rewrite app_nil_r.
Qed.

(** Getting back the session itself. *)
Lemma with_override_prefs_same (self : config) :
  with_override_prefs self (_override_prefs self) = self.
Proof. now destruct self. Qed.

(** C9 (as amended). When both the decryption key and the encryption
    standard are set, [get_parameters] emits the two encryption-derived
    [-o] options and, for [override_prefs], the options of exactly those
    entries that are not named [wlan.enable_decryption] or
    [uat:80211_keys], in their order; the entries so named contribute
    nothing: the argument list is the one obtained with these entries
    removed from [override_prefs]. *)
Theorem encryption_override_wins (self : config) (items : list (string * string))
    (packet_count : option Z) (params : list string) :
  all_encryption self = true ->
  _override_prefs self = Some items ->
  get_parameters E self packet_count = inr params ->
  (exists before after,
      params = before ++ encryption_options self
               ++ flat_map preference_option (unreserved items) ++ after)
  /\ get_parameters E (with_override_prefs self (Some (unreserved items))) packet_count
     = inr params.
Proof.
  intros Hall Hitems Hget.
  destruct (get_parameters_shape self packet_count params Hall Hget)
    as (before & after & Hshape).
  pose proof (Hshape (_override_prefs self)) as Hself.
  rewrite with_override_prefs_same, Hget, Hitems in Hself.
  change (default [] (Some items)) with items in Hself.
  injection Hself as ->. split.
  - now exists before, after.
  - rewrite Hshape. change (default [] (Some (unreserved items))) with (unreserved items).
    now rewrite unreserved_idempotent.
Qed.

End Parameters.

Lemma encryption_override_wins_witness :
  get_parameters (Example.env [3; 0; 0]%N Example.silent)
    (Example.encrypted
       (Some [("wlan.enable_decryption", "FALSE"); ("tcp.desegment", "TRUE");
              ("uat:80211_keys", "none")]%string)
       CustomNone) None
  = inr ["-o"; "wlan.enable_decryption:TRUE"; "-o";
         "uat:80211_keys:" ++ dquote ++ "wpa-pwd" ++ dquote ++ ","
           ++ dquote ++ "secret" ++ dquote;
         "-o"; "tcp.desegment:TRUE"; "-r"; "capture.pcap"]%string
  /\ get_parameters (Example.env [3; 0; 0]%N Example.silent)
       (Example.encrypted (Some [("tcp.desegment", "TRUE")]%string) CustomNone) None
     = inr ["-o"; "wlan.enable_decryption:TRUE"; "-o";
            "uat:80211_keys:" ++ dquote ++ "wpa-pwd" ++ dquote ++ ","
              ++ dquote ++ "secret" ++ dquote;
            "-o"; "tcp.desegment:TRUE"; "-r"; "capture.pcap"]%string.
Proof.
  split; [reflexivity|].
  exact (proj2 (encryption_override_wins (Example.env [3; 0; 0]%N Example.silent)
                  (Example.encrypted
                     (Some [("wlan.enable_decryption", "FALSE");
                            ("tcp.desegment", "TRUE");
                            ("uat:80211_keys", "none")]%string)
                     CustomNone)
                  [("wlan.enable_decryption", "FALSE"); ("tcp.desegment", "TRUE");
                   ("uat:80211_keys", "none")]%string
                  None _ eq_refl eq_refl eq_refl)).
Defined.

(** C9 as stated fails: with a decryption key, an encryption standard and
    [wlan.enable_decryption] in [override_prefs], the argument list still
    sets [wlan.enable_decryption] twice when [custom_parameters] carries
    the option too ([custom_parameters={"-o": ...}]), since custom
    parameters are passed through as they are. *)
Lemma reserved_key_emitted_twice :
  let self :=
    Example.encrypted (Some [("wlan.enable_decryption", "FALSE")]%string)
      (CustomDict [("-o", "wlan.enable_decryption:FALSE")]%string) in
  all_encryption self = true
  /\ get_parameters (Example.env [3; 0; 0]%N Example.silent) self None
     = inr ["-o"; "wlan.enable_decryption:FALSE";
            "-o"; "wlan.enable_decryption:TRUE"; "-o";
            "uat:80211_keys:" ++ dquote ++ "wpa-pwd" ++ dquote ++ ","
              ++ dquote ++ "secret" ++ dquote;
            "-r"; "capture.pcap"]%string
  /\ count_option "wlan.enable_decryption"
       ["-o"; "wlan.enable_decryption:FALSE";
        "-o"; "wlan.enable_decryption:TRUE"; "-o";
        "uat:80211_keys:" ++ dquote ++ "wpa-pwd" ++ dquote ++ ","
          ++ dquote ++ "secret" ++ dquote;
        "-r"; "capture.pcap"]%string = 2%nat.
Proof. cbv zeta. split; [|split]; reflexivity. Qed.

End ParameterFacts.

(** ** The constructor *)

Module ConstructorFacts.
Import Py Capture.

Section Constructor.
Context (E : Env).

(** The constructor starts no process, whatever it is given. *)
Lemma init_spawns_nothing (a : init_args) (s : state E) :
  processes E (__init__ E a s).2 = processes E s
  /\ next_pid E (__init__ E a s).2 = next_pid E s.
Proof.
  unfold __init__, bind, modify, raise, ret, _setup_eventloop.
  cbn.
  destruct (path_exists E _); cbn; [|easy].
  destruct (arg_include_raw a && negb (arg_use_json a)); cbn; [easy|].
  destruct (arg_eventloop_given a); [|destruct (event_loop_available E)]; cbn;
    try easy;
    (destruct (arg_encryption_type a) as [t|]; [|easy];
     destruct (truthy_str t && _); easy).
Qed.

(** C8. Construction starts no process, and it fails, returning no
    session, whenever the source path does not exist, or [include_raw] is
    set without [use_json], or the lower-cased [encryption_type] is not
    one of wep, wpa-pwk, wpa-pwd, wpa-psk. The checks are made in this
    order, and the first that fails decides the error:
    [FileNotFoundError] when the path does not exist;
    [RawMustUseJsonException] when the path exists, [include_raw] is set
    and [use_json] is not; [UnknownEncyptionStandardException] when these
    two checks pass, an event loop is at hand and the encryption standard
    is not a supported one. *)
Theorem init_fails_fast (a : init_args) (s : state E) :
  (processes E (__init__ E a s).2 = processes E s
   /\ next_pid E (__init__ E a s).2 = next_pid E s)
  /\ (path_exists E (file_name (arg_input_file a)) = false
      \/ (arg_include_raw a = true /\ arg_use_json a = false)
      \/ (forall encryption_type,
             arg_encryption_type a = Some encryption_type ->
             str_in (lower encryption_type) ["wep"; "wpa-pwk"; "wpa-pwd"; "wpa-psk"]%string
             = false) ->
      exists e, (__init__ E a s).1 = Raise e)
  /\ (path_exists E (file_name (arg_input_file a)) = false ->
      (__init__ E a s).1
      = Raise (FileNotFoundError
                 ("[Errno 2] No such file or directory: "
                  ++ file_name (arg_input_file a))))
  /\ (path_exists E (file_name (arg_input_file a)) = true ->
      arg_include_raw a = true -> arg_use_json a = false ->
      (__init__ E a s).1
      = Raise (RawMustUseJsonException "use_json must be True if include_raw"))
  /\ (path_exists E (file_name (arg_input_file a)) = true ->
      arg_include_raw a && negb (arg_use_json a) = false ->
      arg_eventloop_given a || event_loop_available E = true ->
      forall encryption_type,
        arg_encryption_type a = Some encryption_type ->
        str_in (lower encryption_type) ["wep"; "wpa-pwk"; "wpa-pwd"; "wpa-psk"]%string
        = false ->
        (__init__ E a s).1
        = Raise (UnknownEncyptionStandardException
                   "Only the following standards are supported: wep, wpa-pwk, wpa-pwd, wpa-psk.")).
Proof.
  split; [apply init_spawns_nothing|].
  unfold __init__, bind, modify, raise, ret, _setup_eventloop.
  split; [|split; [|split]].
  - intros Hbad. cbn.
    destruct (path_exists E _); cbn; [|eauto].
    destruct (arg_include_raw a && negb (arg_use_json a)) eqn:Hraw; cbn; [eauto|].
    destruct Hbad as [Hbad|[[Hr Hj]|Hbad]];
      [discriminate|rewrite Hr, Hj in Hraw; discriminate|].
    destruct (arg_eventloop_given a); [|destruct (event_loop_available E)]; cbn;
      eauto;
      (destruct (arg_encryption_type a) as [t|]; [|eauto];
       unfold SUPPORTED_ENCRYPTION_STANDARDS; rewrite (Hbad t eq_refl), andb_false_r;
       eauto).
  - intros ->. reflexivity.
  - intros -> -> ->. reflexivity.
  - intros -> -> Hloop t -> Hin. cbn.
    destruct (arg_eventloop_given a); [|cbn in Hloop; rewrite Hloop]; cbn;
      unfold SUPPORTED_ENCRYPTION_STANDARDS; rewrite Hin, andb_false_r; reflexivity.
Qed.

(** C10. A falsy [encryption_type] ([None] or the empty string) is
    rejected with [UnknownEncyptionStandardException] whether or not a
    decryption key is given, once the earlier checks of the constructor
    have passed. *)
Theorem falsy_encryption_type_rejected (a : init_args) (s : state E) :
  path_exists E (file_name (arg_input_file a)) = true ->
  arg_include_raw a && negb (arg_use_json a) = false ->
  arg_eventloop_given a || event_loop_available E = true ->
  arg_encryption_type a = None \/ arg_encryption_type a = Some EmptyString ->
  (__init__ E a s).1
  = Raise (UnknownEncyptionStandardException
             "Only the following standards are supported: wep, wpa-pwk, wpa-pwd, wpa-psk.").
Proof.
  intros Hpath Hraw Hloop Henc.
  unfold __init__, bind, modify, raise, ret, _setup_eventloop.
  rewrite Hpath, Hraw. cbn.
  destruct (arg_eventloop_given a); [|cbn in Hloop; rewrite Hloop]; cbn;
    destruct Henc as [-> | ->]; reflexivity.
Qed.

End Constructor.

Lemma init_fails_fast_witness :
  (__init__ Example.host (Example.init_with "missing.pcap" false false (Some "wpa-pwd") None)
     Example.fresh).1
  = Raise (FileNotFoundError "[Errno 2] No such file or directory: missing.pcap")
  /\ (__init__ Example.host (Example.init_with "capture.pcap" true false (Some "wpa-pwd") None)
        Example.fresh).1
     = Raise (RawMustUseJsonException "use_json must be True if include_raw")
  /\ (__init__ Example.host (Example.init_with "capture.pcap" false false (Some "WPA2") None)
        Example.fresh).1
     = Raise (UnknownEncyptionStandardException
                "Only the following standards are supported: wep, wpa-pwk, wpa-pwd, wpa-psk.")
  /\ exists e,
       (__init__ Example.host (Example.init_with "missing.pcap" true false (Some "WPA2") None)
          Example.fresh).1 = Raise e.
Proof.
  cbv zeta. split; [|split; [|split]]; cycle 3.
  - exact (proj1 (proj2 (init_fails_fast Example.host
             (Example.init_with "missing.pcap" true false (Some "WPA2"%string) None)
             Example.fresh)) (or_introl eq_refl)).
  - exact (proj1 (proj2 (proj2 (init_fails_fast Example.host
             (Example.init_with "missing.pcap" false false (Some "wpa-pwd"%string) None)
             Example.fresh))) eq_refl).
  - exact (proj1 (proj2 (proj2 (proj2 (init_fails_fast Example.host
             (Example.init_with "capture.pcap" true false (Some "wpa-pwd"%string) None)
             Example.fresh)))) eq_refl eq_refl eq_refl).
  - exact (proj2 (proj2 (proj2 (proj2 (init_fails_fast Example.host
             (Example.init_with "capture.pcap" false false (Some "WPA2"%string) None)
             Example.fresh)))) eq_refl eq_refl eq_refl _ eq_refl eq_refl).
Defined.

Lemma falsy_encryption_type_rejected_witness :
  (__init__ Example.host (Example.init_with "capture.pcap" false false None None)
     Example.fresh).1
  = Raise (UnknownEncyptionStandardException
             "Only the following standards are supported: wep, wpa-pwk, wpa-pwd, wpa-psk.")
  /\ (__init__ Example.host (Example.init_with "capture.pcap" false false (Some EmptyString) None)
        Example.fresh).1
     = Raise (UnknownEncyptionStandardException
                "Only the following standards are supported: wep, wpa-pwk, wpa-pwd, wpa-psk.").
Proof.
  cbv zeta. split.
  - exact (falsy_encryption_type_rejected Example.host
             (Example.init_with "capture.pcap" false false None None)
             Example.fresh eq_refl eq_refl eq_refl (or_introl eq_refl)).
  - exact (falsy_encryption_type_rejected Example.host
             (Example.init_with "capture.pcap" false false (Some EmptyString) None)
             Example.fresh eq_refl eq_refl eq_refl (or_intror eq_refl)).
Defined.

End ConstructorFacts.

(** ** Process supervision *)

Module SupervisorFacts.
Import Py Capture.

Section Supervisor.
Context (E : Env).

#[local] Abbreviation state := (state E).

Lemma set_processes_same (s : state) : set_processes E (processes E s) s = s.
Proof. now destruct s. Qed.

(** One quiet clean-up: no exception, and only the object of that process
    changes. *)
Lemma cleanup_quiet (process : pid) (s : state) :
  (forall pr, processes E s !! process = Some pr -> cleans_up_quietly E pr = true) ->
  exists r,
    _cleanup_subprocess E process s
    = (Ok r,
       set_processes E
         (match processes E s !! process with
          | Some pr => <[process := cleaned pr]> (processes E s)
          | None => processes E s
          end) s).
Proof.
  intros Hq. unfold _cleanup_subprocess, bind, get, modify, ret, raise.
  destruct (processes E s !! process) as [pr|] eqn:Hp.
  - specialize (Hq pr eq_refl). unfold cleans_up_quietly, cleaned in *.
    destruct (returncode pr) as [code|].
    + apply negb_true_iff in Hq. rewrite Hq. exists None.
      now rewrite insert_id, set_processes_same.
    + destruct (on_kill pr); try rewrite Hq; eauto.
  - exists None. now rewrite set_processes_same.
Qed.

Lemma cleanup_each_quiet (l : list pid) (s : state) :
  NoDup l ->
  (forall p pr, p ∈ l -> processes E s !! p = Some pr ->
                cleans_up_quietly E pr = true) ->
  exists m,
    cleanup_each E l s = (Ok tt, set_processes E m s)
    /\ forall p, m !! p = if decide (p ∈ l) then cleaned <$> processes E s !! p
                          else processes E s !! p.
Proof.
  revert s. induction l as [|q l IH]; intros s Hnd Hq.
  - exists (processes E s). split.
    + cbn. unfold ret. now rewrite set_processes_same.
    + intros p. rewrite decide_False; [reflexivity|]. apply not_elem_of_nil.
  - apply NoDup_cons in Hnd as [Hnotin Hnd].
    destruct (cleanup_quiet q s) as [r Hr].
    { intros pr. apply Hq. apply elem_of_cons. now left. }
    set (m1 := match processes E s !! q with
               | Some pr => <[q := cleaned pr]> (processes E s)
               | None => processes E s
               end) in *.
    assert (Hother : forall p, p <> q -> m1 !! p = processes E s !! p).
    { intros p Hne. unfold m1. destruct (processes E s !! q); [|reflexivity].
      now rewrite lookup_insert_ne. }
    assert (Hself : m1 !! q = cleaned <$> processes E s !! q).
    { unfold m1. destruct (processes E s !! q) eqn:Hl; cbn.
      - now rewrite lookup_insert_eq.
      - exact Hl. }
    destruct (IH (set_processes E m1 s) Hnd) as (m & Hm & Hlook).
    { intros p pr Hin. cbn. rewrite Hother by (intros ->; contradiction).
      apply Hq. apply elem_of_cons. now right. }
    exists m. split.
    + cbn [cleanup_each]. unfold bind. rewrite Hr. exact Hm.
    + intros p. rewrite Hlook. cbn [processes set_processes].
      destruct (decide (p = q)) as [->|Hne].
      * rewrite decide_False by exact Hnotin.
        rewrite decide_True by (apply elem_of_cons; now left). exact Hself.
      * rewrite Hother by exact Hne.
        destruct (decide (p ∈ l)) as [Hin|Hout].
        -- rewrite decide_True by (apply elem_of_cons; now right). reflexivity.
        -- rewrite decide_False; [reflexivity|].
           intros [->|Hin]%elem_of_cons; contradiction.
Qed.

(** One clean-up that raises: the exception is that of the process, a
    crash error with its exit status or the [OSError] of [kill], and the
    session is as before. *)
Lemma cleanup_loud (process : pid) (pr : Capture.process) (s : state) :
  processes E s !! process = Some pr ->
  cleans_up_quietly E pr = false ->
  exists e,
    _cleanup_subprocess E process s = (Raise e, s)
    /\ ((exists code,
            returncode pr = Some code /\ 0 < code
            /\ e = TSharkCrashException
                     ("TShark seems to have crashed (retcode: " ++ str_of_int code
                      ++ "). Try rerunning in debug mode [ capture_obj.set_debug() ] or try updating tshark."))
        \/ (returncode pr = None /\ on_kill pr = OtherOSError
            /\ String.eqb (os_name E) "nt" = false /\ e = OSError)).
Proof.
  intros Hp Hq. unfold _cleanup_subprocess, bind, get, modify, ret, raise.
  rewrite Hp. unfold cleans_up_quietly in Hq.
  destruct (returncode pr) as [code|] eqn:Hrc.
  - apply negb_false_iff in Hq. rewrite Hq. eexists. split; [reflexivity|].
    left. exists code. repeat split. now apply Z.gtb_lt in Hq.
  - destruct (on_kill pr) eqn:Hk; try discriminate. rewrite Hq.
    exists OSError. split.
    + unfold after_kill. rewrite Hk. now rewrite insert_id, set_processes_same.
    + right. now repeat split.
Qed.

Lemma set_processes_twice (m m' : gmap pid Capture.process) (s : state) :
  set_processes E m' (set_processes E m s) = set_processes E m' s.
Proof. now destruct s. Qed.

(** The clean-up of a list of handles one of which does not clean up
    quietly: it raises the exception of the first such handle, after the
    clean-up of the handles before it. *)
Lemma cleanup_each_loud (l : list pid) (s : state) :
  NoDup l ->
  (exists p pr, p ∈ l /\ processes E s !! p = Some pr
                /\ cleans_up_quietly E pr = false) ->
  exists e m p pr,
    cleanup_each E l s = (Raise e, set_processes E m s)
    /\ p ∈ l /\ processes E s !! p = Some pr
    /\ ((exists code,
            returncode pr = Some code /\ 0 < code
            /\ e = TSharkCrashException
                     ("TShark seems to have crashed (retcode: " ++ str_of_int code
                      ++ "). Try rerunning in debug mode [ capture_obj.set_debug() ] or try updating tshark."))
        \/ (returncode pr = None /\ on_kill pr = OtherOSError
            /\ String.eqb (os_name E) "nt" = false /\ e = OSError)).
Proof.
  revert s. induction l as [|q l IH]; intros s Hnd (p & pr & Hin & Hp & Hloud).
  - now apply elem_of_nil in Hin.
  - apply NoDup_cons in Hnd as [Hnotin Hnd]. cbn [cleanup_each]. unfold bind.
    destruct (processes E s !! q) as [prq|] eqn:Hq.
    + destruct (cleans_up_quietly E prq) eqn:Hquiet.
      * destruct (cleanup_quiet q s) as [r ->].
        { intros pr' Hpr'. rewrite Hq in Hpr'. now injection Hpr' as <-. }
        rewrite Hq.
        assert (Hne : p <> q) by (intros ->; congruence).
        apply elem_of_cons in Hin as [->|Hin]; [contradiction|].
        destruct (IH (set_processes E (<[q := cleaned prq]> (processes E s)) s) Hnd)
          as (e & m & p' & pr' & Hrun & Hin' & Hp' & He).
        { exists p, pr. split; [exact Hin|]. split; [|exact Hloud].
          cbn. now rewrite lookup_insert_ne. }
        exists e, m, p', pr'. rewrite Hrun, set_processes_twice.
        split; [reflexivity|]. split; [apply elem_of_cons; now right|].
        split; [|exact He].
        cbn in Hp'. rewrite lookup_insert_ne in Hp'; [exact Hp'|].
        intros <-. contradiction.
      * destruct (cleanup_loud q prq s Hq Hquiet) as (e & -> & He).
        exists e, (processes E s), q, prq. rewrite set_processes_same.
        split; [reflexivity|]. split; [apply elem_of_cons; now left|].
        split; [exact Hq|exact He].
    + destruct (cleanup_quiet q s) as [r ->].
      { intros pr' Hpr'. congruence. }
      rewrite Hq.
      assert (Hne : p <> q) by (intros ->; congruence).
      apply elem_of_cons in Hin as [->|Hin]; [contradiction|].
      destruct (IH (set_processes E (processes E s) s) Hnd)
        as (e & m & p' & pr' & Hrun & Hin' & Hp' & He).
      { exists p, pr. now repeat split. }
      exists e, m, p', pr'. rewrite Hrun, set_processes_twice.
      split; [reflexivity|]. split; [apply elem_of_cons; now right|].
      split; [exact Hp'|exact He].
Qed.

(** C5 (as amended). When the clean-up of no handle of the live set
    raises (each is still running and its [kill] meets nothing but a
    timeout of the wait or [ProcessLookupError], or an [OSError] on
    Windows; or it has exited with a status that is not positive),
    [close_async] returns normally, kills every handle that was still
    running, leaves the other [Process] objects as they were and the live
    set empty, and calling it again changes nothing. When a handle of the
    live set has exited with a positive status, or is still running and
    its [kill] raises another [OSError] off Windows, [close_async] raises
    and does not clear the live set: what it raises is the error of such
    a handle, the first one in the order of the visit, that is
    [TSharkCrashException] with the exit status of that handle, or its
    [OSError]. *)
Theorem close_async_outcome (s : state) :
  ((forall p pr, p ∈ _running_processes E s -> processes E s !! p = Some pr ->
                 cleans_up_quietly E pr = true) ->
   exists s',
     close_async E s = (Ok tt, s')
     /\ _running_processes E s' = ∅
     /\ (forall p, processes E s' !! p
                   = if decide (p ∈ _running_processes E s)
                     then cleaned <$> processes E s !! p
                     else processes E s !! p)
     /\ close_async E s' = (Ok tt, s'))
  /\
  (forall p pr,
      p ∈ _running_processes E s -> processes E s !! p = Some pr ->
      cleans_up_quietly E pr = false ->
      exists e s',
        close_async E s = (Raise e, s')
        /\ _running_processes E s' = _running_processes E s
        /\ exists p' pr',
             p' ∈ _running_processes E s /\ processes E s !! p' = Some pr'
             /\ ((exists code,
                     returncode pr' = Some code /\ 0 < code
                     /\ e = TSharkCrashException
                              ("TShark seems to have crashed (retcode: "
                               ++ str_of_int code
                               ++ "). Try rerunning in debug mode [ capture_obj.set_debug() ] or try updating tshark."))
                 \/ (returncode pr' = None /\ on_kill pr' = OtherOSError
                     /\ String.eqb (os_name E) "nt" = false /\ e = OSError))).
Proof.
  split.
  - intros Hq.
    destruct (cleanup_each_quiet (elements (_running_processes E s)) s)
      as (m & Hm & Hlook).
    { apply NoDup_elements. }
    { intros p pr Hin. apply Hq. now apply elem_of_elements. }
    exists (set_running_processes E ∅ (set_processes E m s)).
    split; [|split; [|split]].
    + unfold close_async, bind, get, modify. now rewrite Hm.
    + reflexivity.
    + intros p. cbn [processes set_processes set_running_processes]. rewrite Hlook.
      destruct (decide (p ∈ elements (_running_processes E s))) as [Hin|Hout].
      * rewrite decide_True by (now apply elem_of_elements). reflexivity.
      * rewrite decide_False; [reflexivity|]. now rewrite <- elem_of_elements.
    + unfold close_async, bind, get, modify.
      cbn [_running_processes set_running_processes]. rewrite elements_empty.
      reflexivity.
  - intros p pr Hin Hp Hloud.
    destruct (cleanup_each_loud (elements (_running_processes E s)) s)
      as (e & m & p' & pr' & Hrun & Hin' & Hp' & He).
    { apply NoDup_elements. }
    { exists p, pr. split; [now apply elem_of_elements|]. now split. }
    exists e, (set_processes E m s).
    split; [unfold close_async, bind, get; now rewrite Hrun|].
    split; [reflexivity|].
    exists p', pr'. split; [now apply elem_of_elements|]. now split.
Qed.

(** C6 (as amended). The crash error raised right after the start of a
    process reports the invocation (the argument list, joined by spaces)
    and not the exit code; the crash error raised during clean-up reports
    the exit code and not the invocation. Neither changes the session. *)
Theorem crash_error_reports :
  (forall (parameters : list string) (process : pid) (process_name : string)
          (s : state) (pr : Capture.process) (code : Z),
      processes E s !! process = Some pr ->
      returncode pr = Some code -> code <> 0 ->
      _created_new_process E parameters process process_name s
      = (Raise (TSharkCrashException
                  (process_name
                   ++ " seems to have crashed. Try updating it. (command ran: '"
                   ++ join " " parameters ++ "')")), s))
  /\
  (forall (process : pid) (s : state) (pr : Capture.process) (code : Z),
      processes E s !! process = Some pr ->
      returncode pr = Some code -> 0 < code ->
      _cleanup_subprocess E process s
      = (Raise (TSharkCrashException
                  ("TShark seems to have crashed (retcode: " ++ str_of_int code
                   ++ "). Try rerunning in debug mode [ capture_obj.set_debug() ] or try updating tshark.")),
         s)).
Proof.
  split.
  - intros parameters process process_name s pr code Hp Hrc Hne.
    unfold _created_new_process, bind, get, raise.
    rewrite Hp. cbn. rewrite Hrc.
    now replace (code =? 0) with false by (symmetry; now apply Z.eqb_neq).
  - intros process s pr code Hp Hrc Hpos.
    unfold _cleanup_subprocess, bind, get, raise.
    rewrite Hp, Hrc.
    now replace (code >? 0) with true by (symmetry; apply Z.gtb_lt; lia).
Qed.

End Supervisor.

Lemma close_async_outcome_witness :
  let s := (_get_tshark_process Example.host (Example.session false true) None
              Example.fresh).2 in
  let E' := Example.crashing 2 in
  let s' := (next E' (Example.session false true) (Example.boot E' 0%nat)).2 in
  (_running_processes Example.host s = {[0%nat]} ∪ ∅
   /\ (close_async Example.host s).1 = Ok tt
   /\ _running_processes Example.host (close_async Example.host s).2 = ∅
   /\ processes Example.host (close_async Example.host s).2 !! 0%nat
      = Some {| stdout := []; returncode := Some (-9); exit_at_eof := Some 0;
                on_kill := Reaped (-9); killed := true |})
  /\ (returncode <$> processes E' s' !! 1%nat = Some (Some 2)
      /\ exists e s'',
           close_async E' s' = (Raise e, s'')
           /\ _running_processes E' s'' = _running_processes E' s').
Proof.
  cbv zeta. split.
  - set (s := (_get_tshark_process Example.host (Example.session false true) None
                 Example.fresh).2).
    assert (Hs : forall p pr,
               p ∈ _running_processes Example.host s ->
               processes Example.host s !! p = Some pr ->
               cleans_up_quietly Example.host pr = true).
    { intros p pr Hin Hl.
      change (_running_processes Example.host s) with ({[0%nat]} ∪ (∅ : gset pid)) in Hin.
      assert (p = 0%nat) as ->.
      { apply elem_of_union in Hin as [Hin|Hin];
          [now apply elem_of_singleton in Hin | now apply elem_of_empty in Hin]. }
      vm_compute in Hl. injection Hl as <-. reflexivity. }
    destruct (proj1 (close_async_outcome Example.host s) Hs) as (s' & Hc & Hr & Hp & _).
    rewrite Hc. cbn [fst snd]. split; [reflexivity|]. split; [reflexivity|].
    split; [exact Hr|].
    rewrite Hp. reflexivity.
  - split; [vm_compute; reflexivity|].
    set (s' := (next (Example.crashing 2) (Example.session false true)
                  (Example.boot (Example.crashing 2) 0%nat)).2).
    destruct (proj2 (close_async_outcome (Example.crashing 2) s') 1%nat
                {| stdout := []; returncode := Some 2; exit_at_eof := Some 2;
                   on_kill := Reaped (-9); killed := false |})
      as (e & s'' & Hc & Hr & _).
    + change (_running_processes (Example.crashing 2) s')
        with ({[1%nat]} ∪ ({[0%nat]} ∪ (∅ : gset pid))).
      apply elem_of_union. left. now apply elem_of_singleton.
    + vm_compute. reflexivity.
    + reflexivity.
    + exists e, s''. split; [exact Hc|exact Hr].
Defined.

(** C5 as stated fails: tshark has exited with status 2 and the session
    has noticed it ([next] raised the crash error). Then [close] raises
    [TSharkCrashException] instead of returning, leaves both handles in
    the live set, and raises again when it is called again. *)
Lemma close_raises_on_crashed_process :
  let E := Example.crashing 2 in
  let self := Example.session false true in
  let s := (next E self (Example.boot E 0%nat)).2 in
  let crash :=
    TSharkCrashException
      "TShark seems to have crashed (retcode: 2). Try rerunning in debug mode [ capture_obj.set_debug() ] or try updating tshark." in
  (next E self (Example.boot E 0%nat)).1 = Raise crash
  /\ _running_processes E s = {[0%nat; 1%nat]}
  /\ (close E s).1 = Raise crash
  /\ _running_processes E (close E s).2 = {[0%nat; 1%nat]}
  /\ (close E (close E s).2).1 = Raise crash.
Proof. cbv zeta. repeat split; vm_compute; reflexivity. Qed.

Lemma crash_error_reports_witness :
  let E := Example.stillborn 2 in
  let parameters := ["tshark"; "-T"; "pdml"; "-r"; "capture.pcap"]%string in
  let s := (new_process E parameters (Example.boot E 0%nat)).2 in
  let E' := Example.crashing 2 in
  let s' := ((p <- new_process E' parameters;; read E' p 64)%monad
               (Example.boot E' 0%nat)).2 in
  _created_new_process E parameters 0%nat "TShark" s
  = (Raise (TSharkCrashException
              "TShark seems to have crashed. Try updating it. (command ran: 'tshark -T pdml -r capture.pcap')"),
     s)
  /\ _cleanup_subprocess E' 0%nat s'
     = (Raise (TSharkCrashException
                 "TShark seems to have crashed (retcode: 2). Try rerunning in debug mode [ capture_obj.set_debug() ] or try updating tshark."),
        s').
Proof.
  cbv zeta. split.
  - exact (proj1 (crash_error_reports (Example.stillborn 2))
             ["tshark"; "-T"; "pdml"; "-r"; "capture.pcap"]%string 0%nat "TShark"%string
             (new_process (Example.stillborn 2)
                ["tshark"; "-T"; "pdml"; "-r"; "capture.pcap"]%string
                (Example.boot (Example.stillborn 2) 0%nat)).2
             (Example.dead 2) 2 eq_refl eq_refl ltac:(lia)).
  - exact (proj2 (crash_error_reports (Example.crashing 2)) 0%nat
             ((p <- new_process (Example.crashing 2)
                      ["tshark"; "-T"; "pdml"; "-r"; "capture.pcap"]%string;;
               read (Example.crashing 2) p 64)%monad
                (Example.boot (Example.crashing 2) 0%nat)).2
             {| stdout := []; returncode := Some 2; exit_at_eof := Some 2;
                on_kill := Reaped (-9); killed := false |}
             2 eq_refl eq_refl ltac:(lia)).
Defined.

(** C6 as stated fails. A process found dead right after its start raises
    the same error whether it exited with status 1 or with status 2: the
    error names the command and no exit code. A process whose crash is
    met during clean-up raises the same error whether it was started for
    PDML or for JSON output: the error names the exit code and no
    command. *)
Lemma crash_errors_tell_half :
  let at_start :=
    Raise (TSharkCrashException
             "TShark seems to have crashed. Try updating it. (command ran: 'tshark -l -n -T pdml -r capture.pcap')") in
  let at_cleanup :=
    Raise (TSharkCrashException
             "TShark seems to have crashed (retcode: 2). Try rerunning in debug mode [ capture_obj.set_debug() ] or try updating tshark.") in
  (_get_tshark_process (Example.stillborn 1) (Example.session false true) None
     (Example.boot (Example.stillborn 1) 0%nat)).1 = at_start
  /\ (_get_tshark_process (Example.stillborn 2) (Example.session false true) None
        (Example.boot (Example.stillborn 2) 0%nat)).1 = at_start
  /\ (Example.start_read_cleanup (Example.crashing 2) (Example.session false true)
        (Example.boot (Example.crashing 2) 0%nat)).1 = at_cleanup
  /\ (Example.start_read_cleanup (Example.crashing 2) (Example.session true true)
        (Example.boot (Example.crashing 2) 0%nat)).1 = at_cleanup.
Proof. cbv zeta. repeat split; vm_compute; reflexivity. Qed.

End SupervisorFacts.

(** ** The iteration protocol *)

Module EngineFacts.
Import Py PyFacts Capture.

Create HintDb frame.

Section Frame.
Context (E : Env).

#[local] Abbreviation M := (M E).
#[local] Abbreviation state := (state E).

Lemma untouched_refl (s : state) : untouched E s s.
Proof. now repeat split. Qed.

Lemma untouched_trans (s1 s2 s3 : state) :
  untouched E s1 s2 -> untouched E s2 s3 -> untouched E s1 s3.
Proof.
  intros (H1 & H2 & H3 & H4) (K1 & K2 & K3 & K4).
  repeat split; congruence.
Qed.

Lemma preserves_ret {A} (a : A) : preserves (ret (E := E) a).
Proof. intros s. apply untouched_refl. Qed.

Lemma preserves_raise {A} (e : exn) : preserves (raise (E := E) (A := A) e).
Proof. intros s. apply untouched_refl. Qed.

Lemma preserves_get : preserves (get (E := E)).
Proof. intros s. apply untouched_refl. Qed.

Lemma preserves_lift {A} (r : exn + A) : preserves (lift (E := E) r).
Proof. destruct r; intros s; apply untouched_refl. Qed.

Lemma preserves_bind {A B} (c : M A) (k : A -> M B) :
  preserves c -> (forall a, preserves (k a)) -> preserves (bind c k).
Proof.
  intros Hc Hk s. unfold bind. specialize (Hc s).
  destruct (c s) as [[a|e|] s1]; cbn [fst snd] in *; [|exact Hc|exact Hc].
  eapply untouched_trans; [exact Hc|apply Hk].
Qed.

Lemma preserves_modify (f : state -> state) :
  (forall s, untouched E s (f s)) -> preserves (modify f).
Proof. intros Hf s. apply Hf. Qed.

Lemma settles_ret {A} (a : A) : settles (ret (E := E) a).
Proof. intros s. split; discriminate. Qed.

Lemma settles_get : settles (get (E := E)).
Proof. intros s. split; discriminate. Qed.

Lemma settles_modify (f : state -> state) : settles (modify f).
Proof. intros s. split; discriminate. Qed.

Lemma settles_raise {A} (e : exn) :
  e <> StopCapture -> settles (raise (E := E) (A := A) e).
Proof. intros He s. split; [discriminate|]. cbn. congruence. Qed.

Lemma settles_bind {A B} (c : M A) (k : A -> M B) :
  settles c -> (forall a, settles (k a)) -> settles (bind c k).
Proof.
  intros Hc Hk s. unfold bind. specialize (Hc s).
  destruct (c s) as [[a|e|] s1]; cbn [fst snd] in *.
  - apply Hk.
  - split; [discriminate|]. intros [= ->]. now apply (proj2 Hc).
  - now destruct (proj1 Hc).
Qed.

Lemma retains_refl (s : state) : retains E s s.
Proof. exists []. cbn. now rewrite !app_nil_r. Qed.

Lemma retains_trans (s1 s2 s3 : state) :
  retains E s1 s2 -> retains E s2 s3 -> retains E s1 s3.
Proof.
  intros (n1 & H1 & H2) (n2 & K1 & K2). exists (n1 ++ n2).
  now rewrite K1, K2, H1, H2, map_app, <- !app_assoc.
Qed.

Lemma untouched_retains (s s' : state) : untouched E s s' -> retains E s s'.
Proof. intros (H1 & _ & _ & H2). exists []. cbn. now rewrite !app_nil_r. Qed.

Lemma keeps_preserved {A} (c : M A) : preserves c -> keeps (retains E) c.
Proof. intros H s. apply untouched_retains, H. Qed.

Lemma keeps_bind {A B} (c : M A) (k : A -> M B) :
  keeps (retains E) c -> (forall a, keeps (retains E) (k a)) ->
  keeps (retains E) (bind c k).
Proof.
  intros Hc Hk s. unfold bind. specialize (Hc s).
  destruct (c s) as [[a|e|] s1]; cbn [fst snd] in *; [|exact Hc|exact Hc].
  eapply retains_trans; [exact Hc|apply Hk].
Qed.

Lemma keeps_try_except {A} (c : M A) (h : exn -> option (M A)) :
  keeps (retains E) c ->
  (forall e k, h e = Some k -> keeps (retains E) k) ->
  keeps (retains E) (try_except c h).
Proof.
  intros Hc Hh s. unfold try_except. specialize (Hc s).
  destruct (c s) as [[a|e|] s1]; cbn [fst snd] in *; [exact Hc| |exact Hc].
  destruct (h e) as [k|] eqn:Hk; [|exact Hc].
  eapply retains_trans; [exact Hc|]. now apply (Hh e k).
Qed.

Lemma keeps_try_finally {A} (c : M A) (f : M unit) :
  keeps (retains E) c -> keeps (retains E) f ->
  keeps (retains E) (try_finally c f).
Proof.
  intros Hc Hf s. unfold try_finally. specialize (Hc s).
  destruct (c s) as [[a|e|] s1]; cbn [fst snd] in *; [| |exact Hc];
    (specialize (Hf s1); destruct (f s1) as [[[]|e'|] s2]; cbn [fst snd] in *;
     eapply retains_trans; eassumption).
Qed.

End Frame.

#[export] Hint Resolve preserves_ret preserves_raise preserves_get preserves_lift
  preserves_modify settles_ret settles_get settles_modify : frame.

(** Decompose a computation along its binds, tests and matches. *)
Ltac frame :=
  repeat first
    [ solve [auto with frame nocore]
    | apply preserves_modify; intros; repeat split; reflexivity
    | apply preserves_bind; [|intros ?]
    | progress cbv zeta
    | match goal with
      | |- preserves (if ?c then _ else _) => destruct c
      | |- preserves (match ?x with _ => _ end) => destruct x
      end ].

Ltac settle :=
  repeat first
    [ solve [auto with frame nocore]
    | apply settles_raise; discriminate
    | apply settles_bind; [|intros ?]
    | progress cbv zeta
    | match goal with
      | |- settles (if ?c then _ else _) => destruct c
      | |- settles (match ?x with _ => _ end) => destruct x
      end ].

Section Steps.
Context (E : Env) (self : config).

#[local] Abbreviation M := (M E).
#[local] Abbreviation state := (state E).

Lemma preserves_read (stream : pid) (n : Z) : preserves (read E stream n).
Proof.
  intros s. unfold read. destruct (processes E s !! stream) as [pr|].
  - destruct (read_chunks n (stdout pr)). now repeat split.
  - apply untouched_refl.
Qed.

Lemma preserves_new_process (parameters : list string) :
  preserves (new_process E parameters).
Proof. intros s. now repeat split. Qed.

Lemma preserves_created_new_process (parameters : list string) (process : pid)
    (process_name : string) :
  preserves (_created_new_process E parameters process process_name).
Proof. unfold _created_new_process. frame. Qed.

#[local] Hint Resolve preserves_read preserves_new_process
  preserves_created_new_process : frame.

Lemma preserves_get_tshark_process (packet_count : option Z) :
  preserves (_get_tshark_process E self packet_count).
Proof. unfold _get_tshark_process. frame. Qed.

Lemma preserves_cleanup_subprocess (process : pid) :
  preserves (_cleanup_subprocess E process).
Proof. unfold _cleanup_subprocess. frame. Qed.

#[local] Hint Resolve preserves_get_tshark_process preserves_cleanup_subprocess : frame.

Lemma preserves_cleanup_each (l : list pid) : preserves (cleanup_each E l).
Proof. induction l; cbn [cleanup_each]; frame. Qed.

#[local] Hint Resolve preserves_cleanup_each : frame.

Lemma preserves_close_async : preserves (close_async E).
Proof. unfold close_async. frame. Qed.

Lemma preserves_psml_struct_loop (steps : nat) (fd : pid) (data : bytes) :
  preserves (psml_struct_loop E steps fd data).
Proof.
  revert data. induction steps as [|steps IH]; intros data; cbn [psml_struct_loop].
  - intros s. apply untouched_refl.
  - apply preserves_bind; [apply preserves_read|]. intros new_data.
    destruct (_extract_tag_from_data (data ++ new_data) (b "structure")) as [tag rest].
    frame.
Qed.

#[local] Hint Resolve preserves_close_async preserves_psml_struct_loop : frame.

Lemma preserves_get_psml_struct (fd : pid) : preserves (_get_psml_struct E self fd).
Proof.
  unfold _get_psml_struct. destruct (_only_summaries self); [|frame].
  intros s. apply preserves_psml_struct_loop.
Qed.

Lemma preserves_get_packet_from_stream (stream : pid) (existing_data : bytes)
    (got_first_packet : bool) (psml_structure : option (PsmlStructure E)) :
  preserves (_get_packet_from_stream E self stream existing_data got_first_packet
               psml_structure).
Proof.
  unfold _get_packet_from_stream.
  destruct (if use_json self then _ else _) as [packet rest].
  frame.
Qed.

#[local] Hint Resolve preserves_get_psml_struct preserves_get_packet_from_stream : frame.

Lemma preserves_sync_finally {A} (tshark_process : pid) (e : exn) :
  preserves (sync_finally E (A := A) tshark_process e).
Proof. unfold sync_finally. frame. Qed.

Lemma untouched_set_packet_generator (g : generator E) (s : state) :
  untouched E s (set_packet_generator E g s).
Proof. now repeat split. Qed.

Lemma preserves_sync_loop (steps : nat) (tshark_process : pid)
    (psml_structure : option (PsmlStructure E)) (data : bytes) (packets_captured : Z) :
  preserves (sync_loop E self steps tshark_process psml_structure data packets_captured).
Proof.
  revert data packets_captured.
  induction steps as [|steps IH]; intros data packets_captured s; cbn [sync_loop].
  - apply untouched_refl.
  - pose proof (preserves_get_packet_from_stream tshark_process data
                  (0 <? packets_captured) psml_structure s) as Hg.
    destruct (_get_packet_from_stream _ _ _ _ _ _ s) as [[[[pkt|] rest]|e|] s1];
      cbn [fst snd] in Hg.
    + destruct (truthy_packet E pkt).
      * eapply untouched_trans; [exact Hg|apply untouched_set_packet_generator].
      * eapply untouched_trans; [exact Hg|apply IH].
    + eapply untouched_trans; [exact Hg|apply IH].
    + destruct e; (eapply untouched_trans; [exact Hg|apply preserves_sync_finally]).
    + exact Hg.
Qed.

#[local] Hint Resolve preserves_sync_loop : frame.

Lemma preserves_packet_generator_send : preserves (_packet_generator_send E self).
Proof.
  unfold _packet_generator_send.
  apply preserves_bind; [apply preserves_get|]. intros s0.
  destruct (_packet_generator E s0).
  - frame. intros s. apply preserves_sync_loop.
  - frame. intros s. apply preserves_sync_loop.
  - frame.
Qed.

(** What starts a process or cleans one up ends, and never by
    [StopCapture]. *)
Lemma settles_get_tshark_process (packet_count : option Z) :
  settles (_get_tshark_process E self packet_count).
Proof.
  unfold _get_tshark_process, _created_new_process. settle.
  - unfold get_parameters, custom_parameters_block.
    destruct (_custom_parameters self) as [|l|d|[|]]; cbn [lift]; settle.
  - intros s. split; discriminate.
Qed.

Lemma settles_cleanup_subprocess (process : pid) :
  settles (_cleanup_subprocess E process).
Proof. unfold _cleanup_subprocess. settle. Qed.

#[local] Hint Resolve settles_cleanup_subprocess : frame.

Lemma settles_cleanup_each (l : list pid) : settles (cleanup_each E l).
Proof. induction l; cbn [cleanup_each]; settle. Qed.

#[local] Hint Resolve settles_cleanup_each : frame.

Lemma settles_close_async : settles (close_async E).
Proof. unfold close_async. settle. Qed.

End Steps.

Section Termination.
Context (E : Env) (self : config).

#[local] Abbreviation state := (state E).

(** A read either meets the end of the stream or takes bytes out of what
    is pending. *)
Lemma read_chunks_pending (n : Z) (chunks : list bytes) :
  0 < n ->
  ((read_chunks n chunks).1 = [] /\ (read_chunks n chunks).2 = [])
  \/ ((read_chunks n chunks).1 <> []
      /\ (pending ((read_chunks n chunks).2) + 2 * length (read_chunks n chunks).1
          <= pending chunks)%nat).
Proof.
  intros Hn. induction chunks as [|chunk chunks IH]; [now left|].
  destruct chunk as [|c chunk].
  - cbn [read_chunks]. destruct IH as [IH|[IH1 IH2]]; [now left|right].
    split; [exact IH1|]. cbn [pending fold_right length] in *. unfold pending in *. lia.
  - cbn [read_chunks]. destruct (len (c :: chunk) <=? n) eqn:Hl; right; cbn [fst snd].
    + split; [discriminate|]. cbn [pending fold_right]. unfold pending. lia.
    + apply Z.leb_gt in Hl. unfold len in Hl. split.
      * intros Ht. apply (f_equal length) in Ht. rewrite length_take in Ht.
        cbn [length] in *. lia.
      * cbn [pending fold_right]. rewrite length_take, length_drop.
        unfold pending. lia.
Qed.

Lemma read_steps (stream : pid) (n : Z) (s : state) :
  0 < n ->
  exists chunk s1,
    read E stream n s = (Ok chunk, s1)
    /\ (forall data, (steps_left E stream data s1 <= steps_left E stream data s)%nat)
    /\ (chunk <> [] ->
        forall data, (steps_left E stream (data ++ chunk) s1
                      < steps_left E stream data s)%nat).
Proof.
  intros Hn. unfold read, steps_left.
  destruct (processes E s !! stream) as [pr|] eqn:Hp.
  - pose proof (read_chunks_pending n (stdout pr) Hn) as Hr.
    destruct (read_chunks n (stdout pr)) as [chunk rest]. cbn [fst snd] in Hr.
    eexists _, _. split; [reflexivity|].
    cbn [processes set_processes]. rewrite lookup_insert_eq. cbn [stdout].
    split.
    + intros data. destruct Hr as [[-> ->]|[_ Hr]]; cbn [pending fold_right]; lia.
    + intros Hne data. destruct Hr as [[-> _]|[_ Hr]]; [contradiction|].
      rewrite length_app. destruct chunk; [contradiction|]. cbn [length] in *. lia.
  - exists [], s. split; [reflexivity|]. rewrite Hp. split; [intros; lia|].
    intros Hne. contradiction.
Qed.

(** [_get_packet_from_stream] ends, and what it returns leaves fewer
    steps to take. *)
Lemma get_packet_from_stream_steps (stream : pid) (data : bytes)
    (got_first_packet : bool) (psml_structure : option (PsmlStructure E))
    (s : state) :
  match _get_packet_from_stream E self stream data got_first_packet psml_structure s with
  | (Ok (_, data'), s1) =>
      (steps_left E stream data' s1 < steps_left E stream data s)%nat
  | (Raise _, _) => True
  | (Diverge, _) => False
  end.
Proof.
  unfold _get_packet_from_stream.
  assert (Hshrink : forall record rest,
             (if use_json self
              then _extract_packet_json_from_data E self data got_first_packet
              else _extract_tag_from_data data (b "packet")) = (record, rest) ->
             (length rest <= length data)%nat
             /\ (record <> None -> (length rest < length data)%nat)).
  { intros record rest. destruct (use_json self).
    - apply ScannerFacts.extract_json_shrinks.
    - apply ScannerFacts.extract_tag_shrinks. }
  destruct (if use_json self then _ else _) as [record rest].
  destruct (Hshrink record rest eq_refl) as [Hle Hlt].
  destruct (truthy_opt_bytes record) eqn:Htruthy.
  - assert (Hless : (steps_left E stream rest s < steps_left E stream data s)%nat).
    { unfold steps_left. destruct record; [|discriminate].
      specialize (Hlt ltac:(discriminate)). lia. }
    destruct (use_json self); [exact Hless|].
    unfold bind, ret, raise, lift.
    destruct (utf8_decode strict (default [] record)).
    + now destruct (packet_from_xml_packet E _ _).
    + destruct (utf8_decode ignore (default [] record) ≫= utf8_encode) as [clean|];
        [|exact I].
      destruct (utf8_decode strict clean); [|exact I].
      now destruct (packet_from_xml_packet E _ _).
  - unfold bind, ret, raise.
    destruct (read_steps stream DEFAULT_BATCH_SIZE s) as (chunk & s1 & -> & H1 & H2);
      [reflexivity|].
    destruct (truthy_bytes chunk) eqn:Hc; cbn [negb]; [|exact I].
    assert (chunk <> []) as Hne by (intros ->; discriminate).
    specialize (H2 Hne rest). unfold steps_left in *. lia.
Qed.

(** A call of the handler is logged, ends, and leaves the processes
    alone. *)
Lemma call_spec (packet_callback : callback E) (pkt : packet E) (s : state) :
  exists raised s',
    call E packet_callback pkt s
    = (match raised with Some e => Raise e | None => Ok tt end, s')
    /\ calls E s' = calls E s ++ [(pkt, raised)]
    /\ processes E s' = processes E s.
Proof.
  unfold call.
  destruct (packet_callback pkt (_packets E s, user E s)) as [raised [pkts u]].
  now exists raised, (set_calls E (calls E s ++ [(pkt, raised)])
                        (set_user E u (set_packets E pkts s))).
Qed.

Lemma steps_left_same (stream : pid) (data : bytes) (s s' : state) :
  processes E s' = processes E s ->
  steps_left E stream data s' = steps_left E stream data s.
Proof. unfold steps_left. now intros ->. Qed.

Lemma psml_struct_loop_total (steps : nat) (fd : pid) (data : bytes) (s : state) :
  (steps_left E fd data s <= steps)%nat ->
  (psml_struct_loop E steps fd data s).1 <> Diverge.
Proof.
  revert data s. induction steps as [|steps IH]; intros data s Hsteps.
  - unfold steps_left in Hsteps. lia.
  - cbn [psml_struct_loop]. unfold bind.
    destruct (read_steps fd SUMMARIES_BATCH_SIZE s) as (chunk & s1 & -> & H1 & H2);
      [reflexivity|].
    destruct (_extract_tag_from_data (data ++ chunk) (b "structure"))
      as [tag rest] eqn:Hext.
    destruct (ScannerFacts.extract_tag_shrinks _ _ _ _ Hext) as [Hle Hlt].
    assert (Hnext : chunk <> [] \/ tag <> None ->
                    (steps_left E fd rest s1 <= steps)%nat).
    { intros Hcase.
      assert (Hd : (steps_left E fd (data ++ chunk) s1 <= steps_left E fd data s)%nat).
      { destruct chunk; [rewrite app_nil_r; apply H1|].
        specialize (H2 ltac:(discriminate) data). lia. }
      destruct Hcase as [Hc|Ht].
      - specialize (H2 Hc data). unfold steps_left in *. lia.
      - specialize (Hlt Ht). unfold steps_left in *. lia. }
    destruct (truthy_opt_bytes tag) eqn:Htag.
    + unfold lift, raise, ret.
      destruct (psml_structure_from_xml E (default [] tag)) as [e|structure];
        [discriminate|].
      destruct (truthy_psml_structure E structure); [discriminate|].
      apply IH, Hnext. right. destruct tag; [discriminate|discriminate].
    + destruct (truthy_bytes chunk) eqn:Hc; cbn [negb]; [|discriminate].
      apply IH, Hnext. left. intros ->. discriminate.
Qed.

Lemma get_psml_struct_total (fd : pid) (s : state) :
  (_get_psml_struct E self fd s).1 <> Diverge.
Proof.
  unfold _get_psml_struct. destruct (_only_summaries self); [|discriminate].
  now apply psml_struct_loop_total.
Qed.

(** *** The log of handler calls *)

Lemma stop_only_last_nil : stop_only_last E [].
Proof. intros i c H. discriminate. Qed.

Lemma stop_only_last_one (c : packet E * option exn) : stop_only_last E [c].
Proof. intros [|i] c' H; [reflexivity|discriminate]. Qed.

Lemma stop_only_last_cons (c : packet E * option exn)
    (l : list (packet E * option exn)) :
  stopped E c = false -> stop_only_last E l -> stop_only_last E (c :: l).
Proof.
  intros Hc Hl [|i] c' Hlook Hstop; cbn in Hlook.
  - injection Hlook as <-. congruence.
  - cbn [length]. f_equal. now apply (Hl i c').
Qed.

Lemma last_stop_cons (c : packet E * option exn)
    (l : list (packet E * option exn)) (pkt : packet E) :
  stopped E c = false ->
  last (c :: l) = Some (pkt, Some StopCapture) ->
  last l = Some (pkt, Some StopCapture).
Proof.
  intros Hc. destruct l as [|c' l]; [|now rewrite last_cons_cons].
  cbn. intros [= ->]. discriminate.
Qed.

(** The loop of [_go_through_packets_from_fd]: what it adds to the log,
    how it ends after a [StopCapture] of the handler, and that it ends. *)
Lemma go_through_loop_spec (fd : pid) (packet_callback : callback E)
    (packet_count : option Z) (psml_struct : option (PsmlStructure E))
    (steps : nat) (data : bytes) (packets_captured : Z) (s : state) :
  exists new,
    calls E (go_through_loop E self steps fd packet_callback packet_count
               psml_struct data packets_captured s).2 = calls E s ++ new
    /\ stop_only_last E new
    /\ (forall pkt, last new = Some (pkt, Some StopCapture) ->
                    (go_through_loop E self steps fd packet_callback packet_count
                       psml_struct data packets_captured s).1 = Ok tt)
    /\ ((steps_left E fd data s <= steps)%nat ->
        (go_through_loop E self steps fd packet_callback packet_count
           psml_struct data packets_captured s).1 <> Diverge).
Proof.
  revert data packets_captured s.
  induction steps as [|steps IH]; intros data packets_captured s.
  { exists []. cbn. rewrite app_nil_r. repeat split.
    - apply stop_only_last_nil.
    - discriminate.
    - unfold steps_left. lia. }
  cbn [go_through_loop].
  pose proof (get_packet_from_stream_steps fd data (0 <? packets_captured)
                psml_struct s) as Hsteps.
  pose proof (preserves_get_packet_from_stream E self fd data
                (0 <? packets_captured) psml_struct s) as (_ & _ & _ & Hcalls).
  destruct (_get_packet_from_stream E self fd data (0 <? packets_captured)
              psml_struct s) as [[[[pkt|] data']|e|] s1];
    cbn [fst snd] in Hcalls; [| | |contradiction].
  - (* a record *)
    assert (Hskip :
      exists new,
        calls E (if count_reached packet_count packets_captured then (Ok tt, s1)
                 else go_through_loop E self steps fd packet_callback packet_count
                        psml_struct data' packets_captured s1).2 = calls E s ++ new
        /\ stop_only_last E new
        /\ (forall p, last new = Some (p, Some StopCapture) ->
                      (if count_reached packet_count packets_captured then (Ok tt, s1)
                       else go_through_loop E self steps fd packet_callback
                              packet_count psml_struct data' packets_captured s1).1
                      = Ok tt)
        /\ ((steps_left E fd data s <= S steps)%nat ->
            (if count_reached packet_count packets_captured then (Ok tt, s1)
             else go_through_loop E self steps fd packet_callback packet_count
                    psml_struct data' packets_captured s1).1 <> Diverge)).
    { destruct (count_reached packet_count packets_captured).
      - exists []. cbn [fst snd]. rewrite app_nil_r.
        repeat split; [exact Hcalls|apply stop_only_last_nil|discriminate].
      - destruct (IH data' packets_captured s1) as (new & H1 & H2 & H3 & H4).
        exists new. rewrite H1, Hcalls. repeat split; [exact H2|exact H3|].
        intros Hle. apply H4. lia. }
    destruct (truthy_packet E pkt); [|exact Hskip]. clear Hskip.
    destruct (call_spec packet_callback pkt s1) as (raised & s2 & -> & Hlog & Hproc).
    destruct raised as [e|].
    + exists [(pkt, Some e)]. rewrite <- Hcalls, <- Hlog.
      destruct e; cbn [fst snd]; repeat split;
        try apply stop_only_last_one; try discriminate;
        cbn; intros p [= <-]; discriminate.
    + destruct (count_reached packet_count (packets_captured + 1)).
      * exists [(pkt, None)]. cbn [fst snd]. rewrite <- Hcalls, <- Hlog.
        repeat split; [apply stop_only_last_one|discriminate].
      * destruct (IH data' (packets_captured + 1) s2) as (new & H1 & H2 & H3 & H4).
        exists ((pkt, None) :: new). rewrite H1, Hlog, Hcalls, <- app_assoc.
        repeat split.
        -- now apply stop_only_last_cons.
        -- intros p Hlast. apply (H3 p). now apply last_stop_cons in Hlast.
        -- intros Hle. apply H4.
           rewrite (steps_left_same fd data' s1 s2 Hproc). lia.
  - (* no record yet *)
    destruct (count_reached packet_count packets_captured).
    + exists []. cbn [fst snd]. rewrite app_nil_r.
      repeat split; [exact Hcalls|apply stop_only_last_nil|discriminate].
    + destruct (IH data' packets_captured s1) as (new & H1 & H2 & H3 & H4).
      exists new. rewrite H1, Hcalls. repeat split; [exact H2|exact H3|].
      intros Hle. apply H4. lia.
  - (* an exception, end of file among them *)
    exists []. rewrite app_nil_r.
    destruct e; cbn [fst snd]; repeat split;
      try exact Hcalls; try apply stop_only_last_nil; discriminate.
Qed.

Lemma go_through_packets_spec (fd : pid) (packet_callback : callback E)
    (packet_count : option Z) (s : state) :
  exists new,
    calls E (_go_through_packets_from_fd E self fd packet_callback packet_count s).2
    = calls E s ++ new
    /\ stop_only_last E new
    /\ (forall pkt, last new = Some (pkt, Some StopCapture) ->
                    (_go_through_packets_from_fd E self fd packet_callback
                       packet_count s).1 = Ok tt)
    /\ (_go_through_packets_from_fd E self fd packet_callback packet_count s).1
       <> Diverge.
Proof.
  unfold _go_through_packets_from_fd, bind.
  pose proof (get_psml_struct_total fd s) as Htotal.
  pose proof (preserves_get_psml_struct E self fd s) as (_ & _ & _ & Hcalls).
  destruct (_get_psml_struct E self fd s) as [[[psml_struct data]|e|] s1];
    cbn [fst snd] in *; [| |contradiction].
  - destruct (go_through_loop_spec fd packet_callback packet_count psml_struct
                (steps_left E fd data s1) data 0 s1) as (new & H1 & H2 & H3 & H4).
    exists new. rewrite H1, Hcalls. repeat split; [exact H2|exact H3|].
    apply H4. lia.
  - exists []. rewrite app_nil_r.
    repeat split; [exact Hcalls|apply stop_only_last_nil|discriminate|discriminate].
Qed.

(** *** A handler that retains the packets *)

(** With a handler that appends each packet to the retained packets, as
    [keep_packet] does, the loop retains exactly the packets it hands to
    the handler. *)
Lemma go_through_loop_retains (fd : pid) (packet_callback : callback E)
    (packet_count : option Z) (psml_struct : option (PsmlStructure E))
    (steps : nat) (data : bytes) (packets_captured : Z) :
  (forall pkt pkts u, (packet_callback pkt (pkts, u)).2.1 = pkts ++ [pkt]) ->
  keeps (retains E)
    (go_through_loop E self steps fd packet_callback packet_count psml_struct
       data packets_captured).
Proof.
  intros Hcb. revert data packets_captured.
  induction steps as [|steps IH]; intros data packets_captured s.
  { apply retains_refl. }
  cbn [go_through_loop].
  pose proof (preserves_get_packet_from_stream E self fd data
                (0 <? packets_captured) psml_struct s) as Hget.
  apply untouched_retains in Hget.
  destruct (_get_packet_from_stream E self fd data (0 <? packets_captured)
              psml_struct s) as [[[[pkt|] data']|e|] s1]; cbn [fst snd] in *.
  - destruct (truthy_packet E pkt).
    2:{ destruct (count_reached packet_count packets_captured); [exact Hget|].
        eapply retains_trans; [exact Hget|apply IH]. }
    unfold call. specialize (Hcb pkt (_packets E s1) (user E s1)).
    destruct (packet_callback pkt (_packets E s1, user E s1)) as [raised [pkts u]].
    cbn [fst snd] in Hcb. subst pkts.
    set (s2 := set_calls E (calls E s1 ++ [(pkt, raised)])
                 (set_user E u (set_packets E (_packets E s1 ++ [pkt]) s1))).
    assert (Hone : retains E s s2).
    { eapply retains_trans; [exact Hget|]. now exists [(pkt, raised)]. }
    destruct raised as [e|].
    + destruct e; exact Hone.
    + destruct (count_reached packet_count (packets_captured + 1)); [exact Hone|].
      eapply retains_trans; [exact Hone|apply IH].
  - destruct (count_reached packet_count packets_captured); [exact Hget|].
    eapply retains_trans; [exact Hget|apply IH].
  - destruct e; exact Hget.
  - exact Hget.
Qed.

(** [load_packets] retains exactly the packets it hands to [keep_packet],
    whatever [keep_packets] is. *)
Lemma load_packets_retains (packet_count : Z) :
  keeps (retains E) (load_packets E self packet_count).
Proof.
  unfold load_packets.
  apply keeps_bind; [apply keeps_preserved, preserves_get|]. intros s0.
  set (handler := keep_packet E packet_count (len (_packets E s0))).
  assert (Hcb : forall pkt pkts u, (handler pkt (pkts, u)).2.1 = pkts ++ [pkt]).
  { intros pkt pkts u. unfold handler, keep_packet.
    now destruct (negb (packet_count =? 0) && _). }
  apply keeps_try_except.
  2:{ intros e k Hk. destruct e; try discriminate. injection Hk as <-.
      apply keeps_preserved, preserves_ret. }
  apply keeps_bind.
  2:{ intros _. apply keeps_preserved, preserves_modify. now repeat split. }
  unfold apply_on_packets, packets_from_tshark.
  apply keeps_bind; [apply keeps_preserved, preserves_get_tshark_process|].
  intros tshark_process.
  apply keeps_try_finally; [|apply keeps_preserved, preserves_close_async].
  apply keeps_try_except.
  2:{ intros e k Hk. destruct e; try discriminate. injection Hk as <-.
      apply keeps_preserved, preserves_ret. }
  unfold _go_through_packets_from_fd.
  apply keeps_bind; [apply keeps_preserved, preserves_get_psml_struct|].
  intros [psml_struct data] s. now apply go_through_loop_retains.
Qed.

(** *** The generator ends every [send] *)

Lemma sync_finally_total {A} (tshark_process : pid) (e : exn) (s : state) :
  (sync_finally E (A := A) tshark_process e s).1 <> Diverge.
Proof.
  unfold sync_finally, bind, get, raise, ret.
  destruct (decide (tshark_process ∈ _running_processes E s)); [|discriminate].
  destruct (settles_cleanup_subprocess E tshark_process s) as [Hc _].
  destruct (_cleanup_subprocess E tshark_process s) as [[r|e'|] s1];
    cbn [fst snd] in *; [discriminate|discriminate|contradiction].
Qed.

Lemma sync_loop_total (steps : nat) (tshark_process : pid)
    (psml_structure : option (PsmlStructure E)) (data : bytes)
    (packets_captured : Z) (s : state) :
  (steps_left E tshark_process data s <= steps)%nat ->
  (sync_loop E self steps tshark_process psml_structure data packets_captured s).1
  <> Diverge.
Proof.
  revert data packets_captured s.
  induction steps as [|steps IH]; intros data packets_captured s Hsteps.
  { unfold steps_left in Hsteps. lia. }
  cbn [sync_loop].
  pose proof (get_packet_from_stream_steps tshark_process data
                (0 <? packets_captured) psml_structure s) as Hless.
  destruct (_get_packet_from_stream E self tshark_process data
              (0 <? packets_captured) psml_structure s)
    as [[[[pkt|] data']|e|] s1]; [| | |contradiction].
  - destruct (truthy_packet E pkt); [discriminate|]. apply IH. lia.
  - apply IH. lia.
  - destruct e; apply sync_finally_total.
Qed.

Lemma packet_generator_send_total (s : state) :
  (_packet_generator_send E self s).1 <> Diverge.
Proof.
  unfold _packet_generator_send, bind, get, modify.
  destruct (_packet_generator E s) as [|tshark_process psml data captured|].
  - destruct (settles_get_tshark_process E self None
                (set_packet_generator E (GenFinished E) s)) as [H1 _].
    destruct (_get_tshark_process E self None _) as [[p1|e|] s1];
      cbn [fst snd] in *; [|discriminate|contradiction].
    pose proof (get_psml_struct_total p1 s1) as H2.
    destruct (_get_psml_struct E self p1 s1) as [[r|e|] s2];
      cbn [fst snd] in *; [|discriminate|contradiction].
    destruct (settles_get_tshark_process E self None s2) as [H3 _].
    destruct (_get_tshark_process E self None s2) as [[p2|e|] s3];
      cbn [fst snd] in *; [|discriminate|contradiction].
    now apply sync_loop_total.
  - now apply sync_loop_total.
  - discriminate.
Qed.

(** [next] returns a packet or raises. *)
Lemma next_total (s : state) : (next E self s).1 <> Diverge.
Proof.
  unfold next. destruct (keep_packets self); cbn [negb];
    [|apply packet_generator_send_total].
  assert (Hnp : forall s', (next_packet E s').1 <> Diverge).
  { intros s'. unfold next_packet, bind, get, modify, raise, ret.
    now destruct (_packets E s' !! _current_packet E s'). }
  unfold bind, get, modify, ret.
  destruct (length (_packets E s) <=? _current_packet E s)%nat; [|apply Hnp].
  pose proof (packet_generator_send_total s) as Hsend.
  destruct (_packet_generator_send E self s) as [[pkt|e|] s1];
    cbn [fst snd] in *; [apply Hnp|discriminate|contradiction].
Qed.

(** [except StopCapture: pass] around a computation. *)
Lemma try_except_stop (c : M E unit) (s s1 : state) (r : result unit) :
  c s = (r, s1) ->
  exists r',
    try_except c (fun e => match e with StopCapture => Some (ret tt) | _ => None end) s
    = (r', s1)
    /\ r' <> Raise StopCapture
    /\ (r <> Diverge -> r' <> Diverge)
    /\ (r = Ok tt -> r' = Ok tt).
Proof.
  intros Hc. unfold try_except. rewrite Hc.
  destruct r as [[]|e|].
  - exists (Ok tt). repeat split; discriminate.
  - destruct e; eexists; (split; [reflexivity|]); repeat split; discriminate.
  - exists Diverge. repeat split; try discriminate. intros H. now destruct H.
Qed.

(** [finally: await self.close_async()] after a computation that ended. *)
Lemma try_finally_close (c : M E unit) (s s1 : state) (r : result unit) :
  c s = (r, s1) -> r <> Diverge -> r <> Raise StopCapture ->
  (try_finally c (close_async E) s).1 <> Raise StopCapture
  /\ (try_finally c (close_async E) s).1 <> Diverge
  /\ calls E (try_finally c (close_async E) s).2 = calls E s1
  /\ (r = Ok tt -> try_finally c (close_async E) s = close_async E s1).
Proof.
  intros Hc Hr1 Hr2. unfold try_finally. rewrite Hc.
  destruct (settles_close_async E s1) as [Hc1 Hc2].
  destruct (preserves_close_async E s1) as (_ & _ & _ & Hcalls).
  destruct (close_async E s1) as [[[]|e|] s2]; cbn [fst snd] in *;
    [| |contradiction];
    (destruct r as [[]|e'|]; [| |contradiction]); cbn [fst snd];
    repeat split; try assumption; try discriminate.
Qed.

(** C4. When the handler raises [StopCapture], it is called on no further
    record (in the log of the calls made by [apply_on_packets], a call
    that raised [StopCapture] is the last one); [apply_on_packets], that
    is [packets_from_tshark] with [close_tshark], ends and does not raise
    [StopCapture]; and the loop over the stream then ends as it does on a
    drained stream, after which the outcome and the session are exactly
    those of [close_async]. *)
Theorem stop_capture_is_absorbed (packet_callback : callback E)
    (packet_count : option Z) (s : state) :
  apply_on_packets E self packet_callback packet_count s
  = packets_from_tshark E self packet_callback packet_count true s
  /\ (apply_on_packets E self packet_callback packet_count s).1 <> Raise StopCapture
  /\ (apply_on_packets E self packet_callback packet_count s).1 <> Diverge
  /\ (forall tshark_process s0 s1,
         _get_tshark_process E self packet_count s = (Ok tshark_process, s0) ->
         _go_through_packets_from_fd E self tshark_process packet_callback
           packet_count s0 = (Ok tt, s1) ->
         apply_on_packets E self packet_callback packet_count s = close_async E s1)
  /\ exists new,
       calls E (apply_on_packets E self packet_callback packet_count s).2
       = calls E s ++ new
       /\ stop_only_last E new
       /\ (forall pkt,
              last new = Some (pkt, Some StopCapture) ->
              exists tshark_process s0 s1,
                _get_tshark_process E self packet_count s = (Ok tshark_process, s0)
                /\ _go_through_packets_from_fd E self tshark_process packet_callback
                     packet_count s0 = (Ok tt, s1)
                /\ apply_on_packets E self packet_callback packet_count s
                   = close_async E s1).
Proof.
  split; [reflexivity|].
  unfold apply_on_packets, packets_from_tshark, bind.
  pose proof (settles_get_tshark_process E self packet_count s) as [Hspawn1 Hspawn2].
  pose proof (preserves_get_tshark_process E self packet_count s)
    as (_ & _ & _ & Hcalls0).
  destruct (_get_tshark_process E self packet_count s) as [[tshark_process|e|] s0];
    cbn [fst snd] in *; [| |contradiction].
  2:{ split; [intros [= ->]; now apply Hspawn2|].
      split; [discriminate|]. split; [discriminate|].
      exists []. rewrite app_nil_r.
      repeat split; [exact Hcalls0|apply stop_only_last_nil|discriminate]. }
  destruct (go_through_packets_spec tshark_process packet_callback packet_count s0)
    as (new & Hlog & Honly & Hstop & Htotal).
  destruct (_go_through_packets_from_fd E self tshark_process packet_callback
              packet_count s0) as [r s1] eqn:Hgo.
  cbn [fst snd] in *.
  destruct (try_except_stop _ _ _ _ Hgo) as (r' & Hexcept & Hr1 & Hr2 & Hr3).
  destruct (try_finally_close _ _ _ _ Hexcept (Hr2 Htotal) Hr1)
    as (Hf1 & Hf2 & Hf3 & Hf4).
  split; [exact Hf1|]. split; [exact Hf2|]. split.
  - intros p s0' s1' [= <- <-] Hgo'. rewrite Hgo in Hgo'.
    injection Hgo' as -> <-. now apply Hf4, Hr3.
  - exists new. rewrite Hf3, Hlog, Hcalls0. repeat split; [exact Honly|].
    intros pkt Hlast. exists tshark_process, s0, s1.
    pose proof (Hstop pkt Hlast) as ->.
    split; [reflexivity|]. split; [exact Hgo|]. now apply Hf4, Hr3.
Qed.

End Termination.

Lemma stop_capture_is_absorbed_witness :
  let E := Example.two_packets in
  let self := Example.session false true in
  let handler := Example.stop_at E (fun n => n) S 1 in
  let out := apply_on_packets E self handler None (Example.boot E 0%nat) in
  calls E out.2 = [(Packet E (b "<packet>A</packet>"), Some StopCapture)]
  /\ out.1 = Ok tt
  /\ _running_processes E out.2 = ∅
  /\ exists s1, out = close_async E s1.
Proof.
  cbv zeta.
  destruct (stop_capture_is_absorbed Example.two_packets (Example.session false true)
              (Example.stop_at Example.two_packets (fun n => n) S 1) None
              (Example.boot Example.two_packets 0%nat))
    as (_ & _ & _ & _ & new & Hlog & _ & Hstop).
  assert (Hcalls :
    calls Example.two_packets
      (apply_on_packets Example.two_packets (Example.session false true)
         (Example.stop_at Example.two_packets (fun n => n) S 1) None
         (Example.boot Example.two_packets 0%nat)).2
    = [(Packet Example.two_packets (b "<packet>A</packet>"), Some StopCapture)])
    by (vm_compute; reflexivity).
  split; [exact Hcalls|]. split; [vm_compute; reflexivity|].
  split; [vm_compute; reflexivity|].
  rewrite Hcalls in Hlog. cbn [calls Example.boot app] in Hlog. subst new.
  destruct (Hstop _ eq_refl) as (tshark_process & s0 & s1 & _ & _ & Hout).
  now exists s1.
Defined.

Section Records.
Context (E : Env) (self : config).

#[local] Abbreviation state := (state E).

(** C3. In tagged-markup mode, when the buffer holds a complete record
    whose bytes are not valid UTF-8, [_get_packet_from_stream] neither
    reads from the stream nor raises an error of its own (no
    [UnicodeDecodeError], no [EOFError]): it drops the undecodable bytes,
    which leaves a subsequence of the record that is valid UTF-8, hands
    that to [packet_from_xml_packet] and
    returns the packet built from it together with the rest of the buffer;
    only an error of the decoder itself comes out as an error. *)
Theorem undecodable_record_is_cleaned (stream : pid) (data record rest : bytes)
    (got_first_packet : bool) (psml_structure : option (PsmlStructure E))
    (s : state) :
  use_json self = false ->
  _extract_tag_from_data data (b "packet") = (Some record, rest) ->
  truthy_bytes record = true ->
  utf8_decode strict record = None ->
  exists clean text,
    utf8_decode ignore record ≫= utf8_encode = Some clean
    /\ sublist clean record
    /\ utf8_decode strict clean = Some text
    /\ _get_packet_from_stream E self stream data got_first_packet psml_structure s
       = (match packet_from_xml_packet E clean psml_structure with
          | inr pkt => Ok (Some (Packet E pkt), rest)
          | inl e => Raise e
          end, s).
Proof.
  intros Hjson Hextract Htruthy Hbad.
  destruct (utf8_sanitized_decodes record) as (clean & text & Hclean & Htext & Hsub).
  exists clean, text. split; [exact Hclean|]. split; [exact Hsub|].
  split; [exact Htext|].
  unfold _get_packet_from_stream. rewrite Hjson, Hextract.
  cbn [truthy_opt_bytes]. rewrite Htruthy.
  change (default [] (Some record)) with record.
  rewrite Hbad, Hclean, Htext. unfold bind, ret, lift.
  now destruct (packet_from_xml_packet E clean psml_structure).
Qed.

End Records.

Lemma undecodable_record_is_cleaned_witness :
  let data := b "<packet>" ++ [xff; xc3] ++ b "A</packet><packet>" in
  utf8_decode strict (b "<packet>" ++ [xff; xc3] ++ b "A</packet>") = None
  /\ _get_packet_from_stream Example.host (Example.session false true) 0%nat
       data true None Example.fresh
     = (Ok (Some (Packet Example.host (b "<packet>A</packet>")), b "<packet>"),
        Example.fresh).
Proof.
  cbv zeta. split; [reflexivity|].
  destruct (undecodable_record_is_cleaned Example.host (Example.session false true)
              0%nat (b "<packet>" ++ [xff; xc3] ++ b "A</packet><packet>")
              (b "<packet>" ++ [xff; xc3] ++ b "A</packet>") (b "<packet>")
              true None Example.fresh eq_refl eq_refl eq_refl eq_refl)
    as (clean & text & Hclean & _ & _ & Hrun).
  rewrite Hrun. injection Hclean as <-. reflexivity.
Defined.

Section Pull.
Context (E : Env) (self : config).

#[local] Abbreviation state := (state E).

(** C2 (as amended). In a session built with [keep_packets=False], [next]
    and [reset] leave the retained packets as they are and [clear] empties
    them, so they are empty after every sequence of [next], [clear] and
    [reset] on a session in which they were empty; and indexed access
    raises [NotImplementedError] without touching the session.
    ([load_packets] is left out: it appends what it reads to [_packets]
    whatever [keep_packets] is.) *)
Theorem unkept_packets_stay_empty :
  keep_packets self = false ->
  (forall s : state,
      _packets E (next E self s).2 = _packets E s
      /\ _packets E (reset E s).2 = _packets E s
      /\ _packets E (clear E s).2 = [])
  /\ (forall (ops : list operation) (s : state),
         _packets E s = [] ->
         Forall (fun op => forall n, op <> OpLoadPackets n) ops ->
         _packets E (run_operations E self ops s) = [])
  /\ (forall (packet_index : Z) (s : state),
         __getitem__ E self packet_index s
         = (Raise (NotImplementedError "Cannot use getitem if packet are not kept"), s)).
Proof.
  intros Hkeep.
  assert (Hstep : forall s : state,
             _packets E (next E self s).2 = _packets E s
             /\ _packets E (reset E s).2 = _packets E s
             /\ _packets E (clear E s).2 = []).
  { intros s. split; [|split; reflexivity].
    unfold next. rewrite Hkeep. cbn [negb].
    apply (preserves_packet_generator_send E self s). }
  split; [exact Hstep|]. split.
  - intros ops. induction ops as [|op ops IH]; intros s Hs Hops; [exact Hs|].
    apply Forall_cons in Hops as [Hop Hops]. cbn [run_operations fold_left].
    apply IH; [|exact Hops].
    destruct (Hstep s) as (Hnext & Hreset & Hclear).
    destruct op as [|n| |]; cbn [run_operation].
    + now rewrite Hnext.
    + now destruct (Hop n).
    + exact Hclear.
    + now rewrite Hreset.
  - intros packet_index s. unfold __getitem__. now rewrite Hkeep.
Qed.

End Pull.

Lemma unkept_packets_stay_empty_witness :
  let E := Example.two_packets in
  let self := Example.session false false in
  let s := run_operations E self [OpNext; OpReset; OpNext; OpClear; OpNext]
             (Example.boot E 0%nat) in
  _packets E s = []
  /\ (__getitem__ E self 0 s).1
     = Raise (NotImplementedError "Cannot use getitem if packet are not kept").
Proof.
  cbv zeta. split.
  - apply (proj1 (proj2 (unkept_packets_stay_empty Example.two_packets
                           (Example.session false false) eq_refl))).
    + reflexivity.
    + repeat constructor; discriminate.
  - now rewrite (proj2 (proj2 (unkept_packets_stay_empty Example.two_packets
                                 (Example.session false false) eq_refl))).
Defined.

(** C2 as stated fails: the session is built with [keep_packets=False],
    and after [load_packets()] it retains the two packets of the
    capture. *)
Lemma load_packets_retains_packets :
  let E := Example.two_packets in
  let self := Example.session false false in
  (__init__ E (Example.args false false) (Example.boot E 0%nat)).1 = Ok self
  /\ keep_packets self = false
  /\ _packets E (run_operations E self [OpLoadPackets 0] (Example.boot E 0%nat))
     = [Packet E (b "<packet>A</packet>"); Packet E (b "<packet>B</packet>")].
Proof. cbv zeta. repeat split; vm_compute; reflexivity. Qed.

End EngineFacts.

(** ** What the scanner cuts out of a growing buffer *)

Module ExtractionFacts.
Import Py PyFacts Capture Vocabulary.
Import ScannerFacts ParameterFacts SupervisorFacts EngineFacts.
#[local] Open Scope monad_scope.

Lemma slice_app_inside (d t : bytes) (lo hi : Z) :
  0 <= lo <= len d -> 0 <= hi <= len d ->
  slice (d ++ t) lo hi = slice d lo hi.
Proof.
  intros Hlo Hhi. unfold slice. pose proof (len_nonneg t).
  rewrite !clamp_inside by (rewrite ?len_app; lia).
  rewrite drop_app_le by (unfold len in *; lia).
  apply take_app_le. rewrite length_drop. unfold len in *. lia.
Qed.

Lemma slice_from_app_inside (d t : bytes) (i : Z) :
  0 <= i <= len d -> slice_from (d ++ t) i = slice_from d i ++ t.
Proof.
  intros Hi. unfold slice_from. pose proof (len_nonneg t).
  rewrite !clamp_inside by (rewrite ?len_app; lia).
  apply drop_app_le. unfold len in *. lia.
Qed.

(** A slice between two positions of the object, as the list between them. *)
Lemma slice_inside (d : bytes) (lo hi : Z) :
  0 <= lo <= hi -> hi <= len d ->
  slice d lo hi = take (Z.to_nat (hi - lo)) (drop (Z.to_nat lo) d).
Proof. intros Hlo Hhi. unfold slice. now rewrite !clamp_inside by lia. Qed.

(** Where [find] answers [i], the object is what precedes [i], then [sub],
    then the rest. *)
Lemma find_from_split (sub d : bytes) (i0 : Z) :
  find_from sub d i0 <> -1 -> 0 <= i0 ->
  exists before after,
    d = before ++ sub ++ after /\ find_from sub d i0 = i0 + len before.
Proof.
  revert i0. induction d as [|c d IH]; intros i0 Hf Hi; cbn [find_from] in *.
  - destruct (startswith [] sub) eqn:Hs; [|congruence].
    destruct sub; [|discriminate]. exists [], []. split; [reflexivity|]. unfold len. cbn. lia.
  - destruct (startswith (c :: d) sub) eqn:Hs.
    + destruct (startswith_inv _ _ Hs) as [t Ht]. exists [], t.
      split; [exact Ht|]. unfold len. cbn. lia.
    + destruct (IH (i0 + 1) Hf ltac:(lia)) as (before & after & -> & Hpos).
      exists (c :: before), after. split; [reflexivity|].
      rewrite Hpos. unfold len. cbn [length]. lia.
Qed.

Lemma find_split (d sub : bytes) :
  find d sub <> -1 ->
  exists before after, d = before ++ sub ++ after /\ find d sub = len before.
Proof.
  intros Hf. destruct (find_from_split sub d 0 Hf ltac:(lia)) as (x & y & H1 & H2).
  exists x, y. split; [exact H1|]. unfold find. lia.
Qed.

Section Scanner.
Context (E : Env) (self : config).

(** The closing tag ends with [>]. *)
Lemma closing_tag_ends (tag_name : bytes) :
  exists front, closing_tag tag_name = front ++ b ">".
Proof.
  unfold closing_tag, opening_tag, replace1.
  rewrite !flat_map_app. eexists. rewrite app_assoc. reflexivity.
Qed.

(** X1. In tagged-markup mode, when the buffer holds an opening tag and
    [_extract_tag_from_data] finds a record in it, the same call on the
    buffer with any bytes appended returns the same record, and as
    remainder the old remainder followed by the appended bytes: a record,
    once found, does not depend on what is read after it. *)
Theorem extract_tag_stable (data more tag_name record rest : bytes) :
  find data (opening_tag tag_name) <> -1 ->
  _extract_tag_from_data data tag_name = (Some record, rest) ->
  _extract_tag_from_data (data ++ more) tag_name = (Some record, rest ++ more).
Proof.
  intros Hopen. unfold _extract_tag_from_data.
  destruct (find data (closing_tag tag_name) =? -1) eqn:Hclose; cbn [negb];
    [discriminate|].
  apply Z.eqb_neq in Hclose. intros [= <- <-].
  rewrite !find_extend by assumption.
  replace (find data (closing_tag tag_name) =? -1) with false
    by (symmetry; now apply Z.eqb_neq).
  cbn [negb].
  destruct (find_bounds data (closing_tag tag_name)) as [|[H0 H1]]; [contradiction|].
  destruct (find_bounds data (opening_tag tag_name)) as [|[H2 H3]]; [contradiction|].
  pose proof (len_nonneg (opening_tag tag_name)).
  pose proof (len_nonneg (closing_tag tag_name)).
  now rewrite slice_app_inside, slice_from_app_inside by lia.
Qed.

(** X2. In JSON mode, when the buffer holds the packet separator (and, if
    no packet has been read yet, a brace that opens the first record), the
    record [_extract_packet_json_from_data] returns is the same with any
    bytes appended to the buffer, and the remainder is the old remainder
    followed by the appended bytes. *)
Theorem extract_json_stable (data more record rest : bytes) (got_first_packet : bool) :
  find data (_get_json_separators E self).1.1 <> -1 ->
  (got_first_packet = false -> find data (b "{") <> -1) ->
  _extract_packet_json_from_data E self data got_first_packet = (Some record, rest) ->
  _extract_packet_json_from_data E self (data ++ more) got_first_packet
  = (Some record, rest ++ more).
Proof.
  intros Hsep Hbrace. unfold _extract_packet_json_from_data.
  destruct (_get_json_separators E self) as [[psep esep] strip] eqn:Hseps.
  destruct (json_separators_shape E self _ _ _ Hseps) as (Hp & _ & Hs & _).
  cbn [fst snd] in Hsep.
  assert (Hstart : exists tag_start,
             (if got_first_packet then 0 else find data (b "{")) = tag_start
             /\ (if got_first_packet then 0 else find (data ++ more) (b "{")) = tag_start
             /\ 0 <= tag_start <= len data).
  { pose proof (len_nonneg data). destruct got_first_packet.
    - exists 0. repeat split; lia.
    - specialize (Hbrace eq_refl). exists (find data (b "{")).
      rewrite find_extend by assumption. repeat split.
      all: destruct (find_bounds data (b "{")) as [|[H0 H1]]; [contradiction|].
      all: unfold len in *; cbn in *; lia. }
  destruct Hstart as (tag_start & -> & -> & Hrange).
  replace (negb got_first_packet && (tag_start =? -1)) with false.
  2:{ symmetry. apply andb_false_iff. right. apply Z.eqb_neq. lia. }
  rewrite find_extend by assumption.
  replace (find data psep =? -1) with false by (symmetry; now apply Z.eqb_neq).
  rewrite Hp. intros [= <- <-].
  destruct (find_bounds data psep) as [|[H0 H1]]; [contradiction|].
  now rewrite slice_app_inside, slice_from_app_inside by lia.
Qed.

(** X3. When the buffer holds a closing tag, [_extract_tag_from_data] cuts
    the buffer right after the first closing tag: the remainder is exactly
    the bytes that follow it. If the first opening tag does not start
    after that closing tag, the record is the bytes from the opening tag to the end
    of the closing tag, and the bytes before the opening tag are
    dropped. *)
Theorem extract_tag_contiguous (data tag_name : bytes) :
  find data (closing_tag tag_name) <> -1 ->
  exists before after,
    data = before ++ closing_tag tag_name ++ after
    /\ len before = find data (closing_tag tag_name)
    /\ (_extract_tag_from_data data tag_name).2 = after
    /\ (0 <= find data (opening_tag tag_name) <= len before ->
        exists junk inner,
          before = junk ++ inner
          /\ len junk = find data (opening_tag tag_name)
          /\ (_extract_tag_from_data data tag_name).1
             = Some (inner ++ closing_tag tag_name)).
Proof.
  intros Hclose.
  destruct (find_split _ _ Hclose) as (before & after & Hdata & Hpos).
  exists before, after. split; [exact Hdata|]. split; [now rewrite Hpos|].
  unfold _extract_tag_from_data.
  replace (find data (closing_tag tag_name) =? -1) with false
    by (symmetry; now apply Z.eqb_neq).
  cbn [negb fst snd]. rewrite Hpos.
  pose proof (len_nonneg before) as Hb.
  pose proof (len_nonneg (closing_tag tag_name)) as Hc.
  pose proof (len_nonneg after) as Ha.
  assert (Hlen : len data = len before + len (closing_tag tag_name) + len after).
  { rewrite Hdata, !len_app. lia. }
  split.
  - rewrite Hdata at 1. rewrite app_assoc.
    replace (len before + len (closing_tag tag_name))
      with (len (before ++ closing_tag tag_name)) by (rewrite len_app; lia).
    apply slice_from_prefix.
  - intros Hopen. set (p := find data (opening_tag tag_name)) in *.
    exists (take (Z.to_nat p) before), (drop (Z.to_nat p) before).
    split; [now rewrite take_drop|]. split.
    + unfold len in *. rewrite length_take. lia.
    + f_equal. rewrite slice_inside by lia.
      rewrite Hdata at 1. rewrite drop_app_le by (unfold len in *; lia).
      rewrite app_assoc.
      replace (Z.to_nat (len before + len (closing_tag tag_name) - p))
        with (length (drop (Z.to_nat p) before ++ closing_tag tag_name)).
      2:{ rewrite length_app, length_drop. unfold len in *. lia. }
      apply take_app_length.
Qed.

(** X4. When the buffer holds a closing tag but no opening tag,
    [_extract_tag_from_data] does not return [None]: [bytes.find] gives -1
    for the start of the slice, so the record is the single byte [>] when
    the closing tag ends the buffer and the empty byte string otherwise;
    the remainder is what follows the closing tag. *)
Theorem extract_tag_without_opening (data tag_name : bytes) :
  find data (closing_tag tag_name) <> -1 ->
  find data (opening_tag tag_name) = -1 ->
  exists before after,
    data = before ++ closing_tag tag_name ++ after
    /\ len before = find data (closing_tag tag_name)
    /\ _extract_tag_from_data data tag_name
       = (Some (match after with [] => b ">" | _ :: _ => [] end), after).
Proof.
  intros Hclose Hopen.
  destruct (find_split _ _ Hclose) as (before & after & Hdata & Hpos).
  exists before, after. split; [exact Hdata|]. split; [now rewrite Hpos|].
  unfold _extract_tag_from_data.
  replace (find data (closing_tag tag_name) =? -1) with false
    by (symmetry; now apply Z.eqb_neq).
  cbn [negb]. rewrite Hopen, Hpos.
  pose proof (len_nonneg before) as Hb.
  pose proof (closing_tag_not_empty tag_name) as Hc.
  pose proof (len_nonneg after) as Ha.
  assert (Hlen : len data = len before + len (closing_tag tag_name) + len after).
  { rewrite Hdata, !len_app. lia. }
  f_equal.
  - f_equal. unfold slice.
    replace (clamp (len data) (-1)) with (len data - 1)
      by (unfold clamp; cbn; lia).
    rewrite clamp_inside by lia.
    destruct after as [|c after].
    + destruct (closing_tag_ends tag_name) as [front Hfront].
      replace (Z.to_nat (len before + len (closing_tag tag_name) - (len data - 1)))
        with 1%nat by (unfold len in *; cbn in *; lia).
      assert (Hsplit : data = (before ++ front) ++ b ">").
      { now rewrite Hdata, Hfront, app_nil_r, !app_assoc. }
      replace (Z.to_nat (len data - 1)) with (length (before ++ front)).
      2:{ rewrite Hsplit. unfold len. rewrite !length_app. cbn. lia. }
      rewrite Hsplit at 1. now rewrite drop_app_length.
    + replace (Z.to_nat (len before + len (closing_tag tag_name) - (len data - 1)))
        with 0%nat by (unfold len in *; cbn in *; lia).
      reflexivity.
  - rewrite Hdata at 1. rewrite app_assoc.
    replace (len before + len (closing_tag tag_name))
      with (len (before ++ closing_tag tag_name)) by (rewrite len_app; lia).
    apply slice_from_prefix.
Qed.

End Scanner.

Lemma extract_tag_stable_witness :
  _extract_tag_from_data (b "<?xml?><packet>A</packet><pac" ++ b "ket>B</packet>")
    (b "packet")
  = (Some (b "<packet>A</packet>"), b "<pac" ++ b "ket>B</packet>").
Proof.
  apply (extract_tag_stable (b "<?xml?><packet>A</packet><pac") (b "ket>B</packet>")
           (b "packet") (b "<packet>A</packet>") (b "<pac")).
  - vm_compute. discriminate.
  - vm_compute. reflexivity.
Defined.

Lemma extract_json_stable_witness :
  let data := b "[" ++ [x0a] ++ b "  {1" ++ [x0a] ++ b "  }," ++ [x0a] in
  _extract_packet_json_from_data Example.two_json_packets (Example.session true true)
    (data ++ b "  {2") false
  = (Some (b "{1" ++ [x0a] ++ b "  }"), [x0a] ++ b "  {2").
Proof.
  cbv zeta.
  apply (extract_json_stable Example.two_json_packets (Example.session true true)
           (b "[" ++ [x0a] ++ b "  {1" ++ [x0a] ++ b "  }," ++ [x0a]) (b "  {2")
           (b "{1" ++ [x0a] ++ b "  }") [x0a] false).
  - vm_compute. discriminate.
  - intros _. vm_compute. discriminate.
  - vm_compute. reflexivity.
Defined.

Lemma extract_tag_contiguous_witness :
  let data := b "<?xml?><packet>A</packet><pac" in
  exists before after junk inner,
    data = before ++ closing_tag (b "packet") ++ after
    /\ (_extract_tag_from_data data (b "packet")).2 = after
    /\ before = junk ++ inner
    /\ len junk = 7
    /\ (_extract_tag_from_data data (b "packet")).1
       = Some (inner ++ closing_tag (b "packet")).
Proof.
  cbv zeta.
  destruct (extract_tag_contiguous (b "<?xml?><packet>A</packet><pac") (b "packet"))
    as (before & after & Hdata & Hlen & Hrest & Hrecord).
  - vm_compute. discriminate.
  - destruct Hrecord as (junk & inner & Hbefore & Hjunk & Hrec).
    + rewrite Hlen. vm_compute. split; discriminate.
    + exists before, after, junk, inner. repeat split; assumption.
Defined.

Lemma extract_tag_without_opening_witness :
  exists before after,
    b "ket>A</packet>" = before ++ closing_tag (b "packet") ++ after
    /\ len before = find (b "ket>A</packet>") (closing_tag (b "packet"))
    /\ _extract_tag_from_data (b "ket>A</packet>") (b "packet")
       = (Some (match after with [] => b ">" | _ :: _ => [] end), after).
Proof.
  apply (extract_tag_without_opening (b "ket>A</packet>") (b "packet")).
  - vm_compute. discriminate.
  - vm_compute. reflexivity.
Defined.

End ExtractionFacts.

(** ** The command line of tshark *)

Module CommandFacts.
Import Py PyFacts Capture Vocabulary.
Import ScannerFacts ParameterFacts SupervisorFacts EngineFacts.
Import ExtractionFacts.
#[local] Open Scope monad_scope.

Section Parameters.
Context (E : Env) (self : config).

Lemma output_block_ends (params : list string) :
  exists middle, output_block self params
                 = params ++ middle ++ ["-r"%string; input_filename self].
Proof.
  unfold output_block.
  set (p1 := match _output_file self with
             | Some f => if truthy_str f then params ++ ["-w"%string; f] else params
             | None => params
             end).
  assert (H1 : exists m1, p1 = params ++ m1).
  { unfold p1. destruct (_output_file self) as [f|]; [destruct (truthy_str f)|];
      [eauto| |]; (exists []; now rewrite app_nil_r). }
  destruct H1 as [m1 ->].
  set (p2 := match _decode_as self with
             | Some items => decode_as_loop items (params ++ m1)
             | None => params ++ m1
             end).
  assert (H2 : exists m2, p2 = params ++ m2).
  { unfold p2. destruct (_decode_as self) as [items|]; [|eauto].
    rewrite decode_as_loop_app, <- app_assoc. eauto. }
  destruct H2 as [m2 ->].
  destruct (_disable_protocol self) as [q|]; [destruct (truthy_str q)|].
  - exists (m2 ++ ["--disable-protocol"%string; strip q]). now rewrite <- !app_assoc.
  - exists m2. now rewrite <- !app_assoc.
  - exists m2. now rewrite <- !app_assoc.
Qed.

Lemma get_parameters_ends (packet_count : option Z) (params : list string) :
  get_parameters E self packet_count = inr params ->
  exists front, params = front ++ ["-r"%string; input_filename self].
Proof.
  unfold get_parameters.
  destruct (custom_parameters_block self _) as [e|p]; [discriminate|].
  intros [= <-].
  destruct (output_block_ends (override_prefs_block self (encryption_block self p)))
    as [middle ->].
  eexists. now rewrite app_assoc.
Qed.

(** X5. Whenever [_get_tshark_process] returns, it has started exactly one
    process, under a fresh handle that it returns and adds to the running
    set, leaving every other handle as it was; the command line of that
    process is the tshark path, [-l], [-n], [-T] and the output type
    ([json], else [psml] with [only_summaries], else [pdml]), followed by
    parameters that end with [-r] and the input file name; and in JSON
    mode tshark supports JSON. *)
Theorem tshark_command_line (packet_count : option Z) (s s' : state E) (p : pid) :
  _get_tshark_process E self packet_count s = (Ok p, s') ->
  exists middle,
    processes E s' !! p
    = Some (create_subprocess_exec E
              ([_get_tshark_path E self; "-l"; "-n"; "-T";
                if use_json self then "json"
                else if _only_summaries self then "psml" else "pdml"]%string
               ++ middle ++ ["-r"%string; input_filename self]))
    /\ p = next_pid E s /\ next_pid E s' = S p
    /\ _running_processes E s' = {[p]} ∪ _running_processes E s
    /\ (forall q, q <> p -> processes E s' !! q = processes E s !! q)
    /\ (use_json self = true ->
        tshark_supports_json E (_get_tshark_version E self) = true).
Proof.
  unfold _get_tshark_process, bind.
  set (output_type := (if use_json self then "json"
                       else if _only_summaries self then "psml" else "pdml")%string).
  assert (Htype :
    (if use_json self
     then if negb (tshark_supports_json E (_get_tshark_version E self))
          then raise (TSharkVersionException "JSON only supported on Wireshark >= 2.2.0")
          else ret "json"%string
     else ret (if _only_summaries self then "psml" else "pdml")%string) s
    = (Ok output_type, s)
    /\ (use_json self = true ->
        tshark_supports_json E (_get_tshark_version E self) = true)
    \/ exists e,
      (if use_json self
       then if negb (tshark_supports_json E (_get_tshark_version E self))
            then raise (TSharkVersionException "JSON only supported on Wireshark >= 2.2.0")
            else ret "json"%string
       else ret (if _only_summaries self then "psml" else "pdml")%string) s
      = (Raise e, s)).
  { unfold output_type. destruct (use_json self).
    - destruct (tshark_supports_json E _); cbn [negb]; [left|right; eauto].
      split; reflexivity.
    - left. split; [reflexivity|discriminate]. }
  destruct Htype as [[-> Hjson]|[e ->]]; [|discriminate].
  destruct (get_parameters E self packet_count) as [e|params] eqn:Hparams;
    cbn [lift]; [discriminate|].
  destruct (get_parameters_ends _ _ Hparams) as [front ->].
  unfold raise, ret, new_process, _created_new_process, bind, get, modify.
  cbn [processes set_processes set_next_pid next_pid].
  rewrite lookup_insert_eq. cbn [mbind option_bind].
  intros Hrun. exists front.
  assert (Hdone :
    (Ok (next_pid E s),
     set_running_processes E ({[next_pid E s]} ∪ _running_processes E s)
       (set_next_pid E (S (next_pid E s))
          (set_processes E
             (<[next_pid E s :=
                  create_subprocess_exec E
                    ([_get_tshark_path E self; "-l"; "-n"; "-T"; output_type]%string
                     ++ front ++ ["-r"%string; input_filename self])]>
                (processes E s)) s)))
    = (Ok p, s')).
  { destruct (returncode (create_subprocess_exec E _)) as [code|];
      [destruct (negb (code =? 0))|]; cbn in Hrun; try discriminate; exact Hrun. }
  injection Hdone as <- <-.
  cbn. rewrite lookup_insert_eq. repeat split; try reflexivity; [|exact Hjson].
  intros q Hq. now rewrite lookup_insert_ne.
Qed.

(** X6. [get_parameters] fails in one case only: [custom_parameters] is
    truthy and neither a list nor a dict, and the error is the
    [Exception] with the message [Custom parameters type not supported.].
    In that case (and, in JSON mode, with a tshark that supports JSON)
    [apply_on_packets] raises that error and leaves the session as it
    was: no process is started. *)
Theorem unsupported_custom_parameters (packet_count : option Z) :
  (forall e, get_parameters E self packet_count = inl e ->
             _custom_parameters self = CustomOther true
             /\ e = Exception "Custom parameters type not supported.")
  /\ (_custom_parameters self = CustomOther true ->
      (use_json self = true ->
       tshark_supports_json E (_get_tshark_version E self) = true) ->
      get_parameters E self packet_count
      = inl (Exception "Custom parameters type not supported.")
      /\ forall (packet_callback : callback E) (s : state E),
           apply_on_packets E self packet_callback packet_count s
           = (Raise (Exception "Custom parameters type not supported."), s)).
Proof.
  split.
  - intros e. unfold get_parameters, custom_parameters_block.
    destruct (_custom_parameters self) as [|l|d|[|]]; try discriminate.
    now intros [= <-].
  - intros Hcustom Hjson.
    assert (Hget : get_parameters E self packet_count
                   = inl (Exception "Custom parameters type not supported.")).
    { unfold get_parameters, custom_parameters_block. now rewrite Hcustom. }
    split; [exact Hget|]. intros packet_callback s.
    unfold apply_on_packets, packets_from_tshark, _get_tshark_process, bind.
    rewrite Hget. cbn [lift].
    destruct (use_json self); [rewrite Hjson by reflexivity|]; reflexivity.
Qed.

Lemma override_prefs_loop_all (items : list (string * string)) (params : list string) :
  all_encryption self = false ->
  override_prefs_loop self items params = params ++ flat_map preference_option items.
Proof.
  intros Hall. revert params.
  induction items as [|[name value] items IH]; intros params; cbn [override_prefs_loop].
  - cbn. now rewrite app_nil_r.
  - rewrite Hall. cbn [andb]. rewrite IH. cbn [flat_map]. now rewrite <- app_assoc.
Qed.

(** X7. When the decryption key or the encryption type is falsy,
    [get_parameters] passes on every entry of [override_prefs], reserved
    names included, as [-o name:value] in the order of the dict, right
    after the filter and custom parameters and right before the output
    file, [decode_as], [disable_protocol] and [-r] options; no encryption
    option is emitted. *)
Theorem override_prefs_pass_without_key (packet_count : option Z)
    (params : list string) :
  all_encryption self = false ->
  get_parameters E self packet_count = inr params ->
  exists before,
    custom_parameters_block self (filter_parameters E self packet_count) = inr before
    /\ params = before
                ++ flat_map preference_option (default [] (_override_prefs self))
                ++ output_block self [].
Proof.
  intros Hall. unfold get_parameters.
  destruct (custom_parameters_block self _) as [e|before]; [discriminate|].
  intros [= <-]. exists before. split; [reflexivity|].
  rewrite output_block_app. unfold encryption_block, override_prefs_block.
  rewrite Hall. rewrite app_assoc. f_equal.
  destruct (_override_prefs self) as [items|]; cbn [default].
  - now rewrite override_prefs_loop_all.
  - cbn. now rewrite app_nil_r.
Qed.

(** The loop of [_go_through_packets_from_fd] tests the truth of
    [packet_count]: 0 bounds nothing. *)
Lemma go_through_loop_count_zero (steps : nat) (fd : pid) (packet_callback : callback E)
    (psml_struct : option (PsmlStructure E)) (data : bytes) (packets_captured : Z)
    (s : state E) :
  go_through_loop E self steps fd packet_callback (Some 0) psml_struct data
    packets_captured s
  = go_through_loop E self steps fd packet_callback None psml_struct data
      packets_captured s.
Proof.
  revert data packets_captured s.
  induction steps as [|steps IH]; intros data packets_captured s; [reflexivity|].
  cbn [go_through_loop].
  destruct (_get_packet_from_stream E self fd data (0 <? packets_captured) psml_struct s)
    as [[[[pkt|] data']|e|] s1]; try reflexivity.
  - change (count_reached (Some 0) ?n) with false.
    change (count_reached None ?n) with false. cbv iota.
    destruct (truthy_packet E pkt); [|apply IH].
    destruct (call E packet_callback pkt s1) as [[[]|e|] s2]; try reflexivity.
    apply IH.
  - change (count_reached (Some 0) ?n) with false.
    change (count_reached None ?n) with false. cbv iota. apply IH.
Qed.

(** X8. A [packet_count] of 0 is treated as no [packet_count]:
    [get_parameters] emits no [-c] option for it, and [apply_on_packets]
    with [packet_count=0] behaves exactly as with [packet_count=None],
    reading to the end of the stream instead of stopping after zero
    packets. *)
Theorem packet_count_zero_is_none (packet_callback : callback E) (s : state E) :
  get_parameters E self (Some 0) = get_parameters E self None
  /\ apply_on_packets E self packet_callback (Some 0) s
     = apply_on_packets E self packet_callback None s.
Proof.
  assert (Hget : get_parameters E self (Some 0) = get_parameters E self None)
    by reflexivity.
  split; [exact Hget|].
  unfold apply_on_packets, packets_from_tshark, bind.
  change (_get_tshark_process E self (Some 0) s)
    with (_get_tshark_process E self None s).
  destruct (_get_tshark_process E self None s) as [[p|e|] s0]; try reflexivity.
  unfold try_finally, try_except, _go_through_packets_from_fd, bind.
  destruct (_get_psml_struct E self p s0) as [[[psml data]|e|] s1]; try reflexivity.
  now rewrite go_through_loop_count_zero.
Qed.

End Parameters.

Lemma tshark_command_line_witness :
  let E := Example.two_packets in
  let self := Example.session false true in
  let s' := (_get_tshark_process E self None (Example.boot E 0%nat)).2 in
  exists middle,
    processes E s' !! 0%nat
    = Some (create_subprocess_exec E
              (["tshark"; "-l"; "-n"; "-T"; "pdml"]%string
               ++ middle ++ ["-r"; "capture.pcap"]%string))
    /\ next_pid E s' = 1%nat
    /\ _running_processes E s' = {[0%nat]} ∪ ∅.
Proof.
  cbv zeta.
  destruct (tshark_command_line Example.two_packets (Example.session false true) None
              (Example.boot Example.two_packets 0%nat)
              (_get_tshark_process Example.two_packets (Example.session false true) None
                 (Example.boot Example.two_packets 0%nat)).2 0%nat)
    as (middle & Hprocess & _ & Hnext & Hrunning & _).
  - vm_compute. reflexivity.
  - exists middle. split; [exact Hprocess|]. split; [exact Hnext|exact Hrunning].
Defined.

Lemma unsupported_custom_parameters_witness :
  let self := Example.encrypted None (CustomOther true) in
  apply_on_packets Example.host self (fun _ x => (None, x)) None Example.fresh
  = (Raise (Exception "Custom parameters type not supported."), Example.fresh).
Proof.
  cbv zeta.
  apply (proj2 (unsupported_custom_parameters Example.host
                  (Example.encrypted None (CustomOther true)) None)).
  - reflexivity.
  - discriminate.
Defined.

Lemma override_prefs_pass_without_key_witness :
  let prefs := [("wlan.enable_decryption", "TRUE"); ("tcp.desegment", "FALSE")]%string in
  let self := Example.plain false (Some prefs) in
  exists before,
    custom_parameters_block self (filter_parameters Example.host self None) = inr before
    /\ ["-o"; "wlan.enable_decryption:TRUE"; "-o"; "tcp.desegment:FALSE";
        "-r"; "capture.pcap"]%string
       = before ++ flat_map preference_option prefs ++ output_block self [].
Proof.
  cbv zeta.
  apply (override_prefs_pass_without_key Example.host
           (Example.plain false
              (Some [("wlan.enable_decryption", "TRUE"); ("tcp.desegment", "FALSE")]%string))
           None).
  - reflexivity.
  - vm_compute. reflexivity.
Defined.

End CommandFacts.

(** ** The cursor and indexed access *)

Module CursorFacts.
Import Py PyFacts Capture Vocabulary.
Import ScannerFacts ParameterFacts SupervisorFacts EngineFacts.
Import ExtractionFacts CommandFacts.
#[local] Open Scope monad_scope.

Section Pull.
Context (E : Env) (self : config).

#[local] Abbreviation state := (state E).

Lemma set_current_packet_same (s : state) :
  set_current_packet E (_current_packet E s) s = s.
Proof. now destruct s. Qed.

(** [next] on a session that keeps its packets. *)
Lemma next_spec (s : state) :
  keep_packets self = true ->
  cursor_in_range E s ->
  match next E self s with
  | (Ok pkt, s') =>
      _current_packet E s' = S (_current_packet E s)
      /\ _packets E s' !! _current_packet E s = Some pkt
      /\ user E s' = user E s /\ calls E s' = calls E s
      /\ ((_packets E s' = _packets E s /\ s' = set_current_packet E (S (_current_packet E s)) s)
          \/ (_current_packet E s = length (_packets E s)
              /\ _packets E s' = _packets E s ++ [pkt]
              /\ exists s1, _packet_generator_send E self s = (Ok pkt, s1)))
  | (Raise e, s') =>
      untouched E s s'
      /\ _current_packet E s = length (_packets E s)
      /\ _packet_generator_send E self s = (Raise e, s')
  | (Diverge, _) => False
  end.
Proof.
  intros Hkeep Hin. pose proof (next_total E self s) as Htotal. revert Htotal.
  unfold next. rewrite Hkeep. cbn [negb]. unfold bind, get, modify, ret.
  destruct (length (_packets E s) <=? _current_packet E s)%nat eqn:Hend.
  - apply Nat.leb_le in Hend. unfold cursor_in_range in Hin.
    assert (Hat : _current_packet E s = length (_packets E s)) by lia.
    pose proof (preserves_packet_generator_send E self s) as (Hp & Hc & Hu & Hl).
    destruct (_packet_generator_send E self s) as [[pkt|e|] s1]; cbn [fst snd] in *.
    + intros _. unfold next_packet, bind, get, modify, ret, raise.
      cbn [_packets set_packets _current_packet].
      rewrite Hp, Hc, Hat, lookup_app_r by lia.
      rewrite Nat.sub_diag. cbn.
      split; [reflexivity|]. split; [now apply list_lookup_middle|].
      split; [exact Hu|]. split; [exact Hl|]. right.
      split; [reflexivity|]. split; [reflexivity|]. now exists s1.
    + intros _. repeat split; assumption.
    + intros H. now apply H.
  - intros _. apply Nat.leb_gt in Hend.
    unfold next_packet, bind, get, modify, ret, raise.
    destruct (_packets E s !! _current_packet E s) as [pkt|] eqn:Hl.
    + cbn. split; [reflexivity|]. split; [exact Hl|]. split; [reflexivity|].
      split; [reflexivity|]. now left.
    + apply lookup_ge_None in Hl. lia.
Qed.

(** X9. In a session that keeps its packets, with the cursor within the
    retained packets or just past them: when [next] returns a packet, that
    packet is the retained packet at the old cursor position and the
    cursor has moved by one; if the cursor was inside the list nothing
    else changed, and if it was at the end the packet was appended to the
    list. When [next] raises, the cursor was at the end, and the retained
    packets and the cursor are unchanged. *)
Theorem next_returns_what_it_stores (s : state) :
  keep_packets self = true ->
  cursor_in_range E s ->
  (forall pkt s', next E self s = (Ok pkt, s') ->
      _packets E s' !! _current_packet E s = Some pkt
      /\ _current_packet E s' = S (_current_packet E s)
      /\ ((_current_packet E s < length (_packets E s))%nat ->
          s' = set_current_packet E (S (_current_packet E s)) s)
      /\ (_current_packet E s = length (_packets E s) ->
          _packets E s' = _packets E s ++ [pkt]))
  /\ (forall e s', next E self s = (Raise e, s') ->
         _packets E s' = _packets E s /\ _current_packet E s' = _current_packet E s
         /\ _current_packet E s = length (_packets E s)).
Proof.
  intros Hkeep Hin. pose proof (next_spec s Hkeep Hin) as Hspec.
  split.
  - intros pkt s' Hnext. rewrite Hnext in Hspec.
    destruct Hspec as (Hc & Hl & _ & _ & Hcase).
    split; [exact Hl|]. split; [exact Hc|].
    destruct Hcase as [[Hp ->]|(Hat & Hp & _)].
    + split; [reflexivity|]. intros Hat.
      apply lookup_lt_Some in Hl. cbn in Hl. lia.
    + split; [lia|]. intros _. exact Hp.
  - intros e s' Hnext. rewrite Hnext in Hspec.
    destruct Hspec as ((Hp & Hc & _) & Hat & _). now repeat split.
Qed.

(** While the cursor is inside the retained packets, [next] replays
    them. *)
Lemma next_n_replays (n : nat) (s : state) :
  keep_packets self = true ->
  (_current_packet E s + n <= length (_packets E s))%nat ->
  next_n E self n s
  = (map Ok (take n (drop (_current_packet E s) (_packets E s))),
     set_current_packet E (_current_packet E s + n)%nat s).
Proof.
  intros Hkeep. revert s. induction n as [|n IH]; intros s Hn.
  - cbn. now rewrite Nat.add_0_r, set_current_packet_same.
  - cbn [next_n].
    destruct (_packets E s !! _current_packet E s) as [pkt|] eqn:Hl.
    2:{ apply lookup_ge_None in Hl. lia. }
    assert (Hnext : next E self s
                    = (Ok pkt, set_current_packet E (S (_current_packet E s)) s)).
    { unfold next. rewrite Hkeep. cbn [negb]. unfold bind, get, modify, ret.
      replace (length (_packets E s) <=? _current_packet E s)%nat with false
        by (symmetry; apply Nat.leb_gt; lia).
      unfold next_packet, bind, get, modify, ret. now rewrite Hl. }
    rewrite Hnext. cbn [fst snd].
    rewrite IH by (cbn [_current_packet _packets set_current_packet]; lia).
    cbn [_current_packet _packets set_current_packet].
    f_equal.
    + rewrite (drop_S _ pkt _ Hl). reflexivity.
    + unfold set_current_packet. cbn. f_equal. lia.
Qed.

(** X10. In a session that keeps its packets, after [reset] the first [n]
    calls of [next] ([n] at most the number of retained packets) return
    the first [n] retained packets in order, without reading from tshark,
    and change nothing but the cursor, which ends at [n]. *)
Theorem reset_then_next_replays (n : nat) (s : state) :
  keep_packets self = true ->
  (n <= length (_packets E s))%nat ->
  next_n E self n (reset E s).2
  = (map Ok (take n (_packets E s)), set_current_packet E n s).
Proof.
  intros Hkeep Hn. unfold reset, modify. cbn [snd].
  rewrite next_n_replays
    by first [assumption | cbn [_current_packet _packets set_current_packet]; lia].
  cbn [_current_packet _packets set_current_packet]. now rewrite drop_0.
Qed.

(** X11. In a session that keeps its packets, indexed access with an index
    below the number of retained packets reads nothing and changes
    nothing: a non-negative index returns the retained packet at that
    position, a negative index down to [-len] counts from the end, and an
    index below [-len] raises [IndexError]. *)
Theorem getitem_retained (packet_index : Z) (s : state) :
  keep_packets self = true ->
  packet_index < len (_packets E s) ->
  (0 <= packet_index ->
   exists pkt, _packets E s !! Z.to_nat packet_index = Some pkt
               /\ __getitem__ E self packet_index s = (Ok pkt, s))
  /\ (- len (_packets E s) <= packet_index < 0 ->
      exists pkt, _packets E s !! Z.to_nat (len (_packets E s) + packet_index) = Some pkt
                  /\ __getitem__ E self packet_index s = (Ok pkt, s))
  /\ (packet_index < - len (_packets E s) ->
      __getitem__ E self packet_index s = (Raise IndexError, s)).
Proof.
  intros Hkeep Hlt. unfold __getitem__. rewrite Hkeep. cbn [negb].
  replace (Z.to_nat (packet_index - Z.of_nat (_current_packet E s)) + 2)%nat
    with (S (Z.to_nat (packet_index - Z.of_nat (_current_packet E s)) + 1)) by lia.
  cbn [getitem_loop]. unfold bind, get, ret, raise.
  replace (len (_packets E s) <=? packet_index) with false
    by (symmetry; apply Z.leb_gt; lia).
  unfold list_index. split; [|split].
  - intros H0. replace (packet_index <? 0) with false by (symmetry; apply Z.ltb_ge; lia).
    destruct (_packets E s !! Z.to_nat packet_index) as [pkt|] eqn:Hl; [eauto|].
    apply lookup_ge_None in Hl. unfold len in *. lia.
  - intros H0. replace (packet_index <? 0) with true by (symmetry; apply Z.ltb_lt; lia).
    replace (len (_packets E s) + packet_index <? 0) with false
      by (symmetry; apply Z.ltb_ge; lia).
    destruct (_packets E s !! Z.to_nat (len (_packets E s) + packet_index))
      as [pkt|] eqn:Hl; [eauto|].
    apply lookup_ge_None in Hl. unfold len in *. lia.
  - intros H0. pose proof (len_nonneg (_packets E s)).
    replace (packet_index <? 0) with true by (symmetry; apply Z.ltb_lt; lia).
    now replace (len (_packets E s) + packet_index <? 0) with true
      by (symmetry; apply Z.ltb_lt; lia).
Qed.

(** The loop of [__getitem__] on an index that is not retained yet. *)
Lemma getitem_loop_spec (steps : nat) (packet_index : Z) (s : state) :
  keep_packets self = true ->
  0 <= packet_index ->
  cursor_in_range E s ->
  len (_packets E s) <= packet_index + 1 ->
  (Z.to_nat (packet_index + 1 - Z.of_nat (_current_packet E s)) + 1 <= steps)%nat ->
  match getitem_loop E self steps packet_index s with
  | (Ok pkt, s') =>
      len (_packets E s') = packet_index + 1
      /\ _packets E s' !! Z.to_nat packet_index = Some pkt
      /\ (exists new, _packets E s' = _packets E s ++ new)
      /\ (len (_packets E s) <= packet_index ->
          _current_packet E s' = length (_packets E s'))
      /\ (len (_packets E s) = packet_index + 1 -> s' = s)
  | (Raise e, s') =>
      (exists new, _packets E s' = _packets E s ++ new)
      /\ len (_packets E s') <= packet_index
      /\ cursor_in_range E s'
      /\ e <> StopIteration
  | (Diverge, _) => False
  end.
Proof.
  intros Hkeep Hindex. revert s.
  induction steps as [|steps IH]; intros s Hin Hlen Hsteps; [lia|].
  cbn [getitem_loop]. unfold bind at 1. unfold get at 1. cbv beta iota.
  pose proof (len_nonneg (_packets E s)) as Hnn.
  destruct (len (_packets E s) <=? packet_index) eqn:Hmore.
  - apply Z.leb_le in Hmore.
    pose proof (next_spec s Hkeep Hin) as Hnext.
    unfold bind, try_except, ret, raise.
    destruct (next E self s) as [[pkt|e|] s1]; [| |contradiction].
    + destruct Hnext as (Hc & Hl & _ & _ & Hcase).
      assert (Hp1 : exists new, _packets E s1 = _packets E s ++ new).
      { destruct Hcase as [[-> _]|(_ & -> & _)]; [exists []; now rewrite app_nil_r|eauto]. }
      assert (Hin1 : cursor_in_range E s1).
      { unfold cursor_in_range in *. rewrite Hc.
        destruct Hcase as [[Hsame _]|(Hat & -> & _)].
        - apply lookup_lt_Some in Hl. lia.
        - rewrite length_app. cbn. lia. }
      assert (Hlen1 : len (_packets E s1) <= packet_index + 1).
      { destruct Hcase as [[-> _]|(_ & -> & _)]; [lia|].
        rewrite len_app. unfold len in *. cbn. lia. }
      unfold cursor_in_range in Hin.
      specialize (IH s1 Hin1 Hlen1 ltac:(unfold len in *; lia)).
      destruct (getitem_loop E self steps packet_index s1) as [[pkt'|e|] s2];
        [| |contradiction].
      * destruct IH as (H1 & H2 & [new2 H3] & H4 & H5).
        destruct Hp1 as [new1 Hp1].
        split; [exact H1|]. split; [exact H2|]. split.
        { exists (new1 ++ new2). now rewrite H3, Hp1, <- app_assoc. }
        split; [|intros; lia].
        intros _. destruct (Z.eq_dec (len (_packets E s1)) (packet_index + 1)) as [Heq|Hne].
        -- rewrite (H5 Heq).
           destruct Hcase as [[Hsame _]|(Hat & Hgrow & _)].
           ++ rewrite Hsame in Heq. lia.
           ++ rewrite Hc, Hat, Hgrow, length_app. cbn. lia.
        -- apply H4. lia.
      * destruct IH as ([new2 H3] & H4 & H5 & H6).
        destruct Hp1 as [new1 Hp1].
        split; [|now repeat split].
        exists (new1 ++ new2). now rewrite H3, Hp1, <- app_assoc.
    + destruct Hnext as ((Hp & Hc & _) & Hat & _).
      assert (Hres : exists new, _packets E s1 = _packets E s ++ new).
      { exists []. now rewrite app_nil_r. }
      assert (Hin1 : cursor_in_range E s1).
      { unfold cursor_in_range in *. rewrite Hp, Hc. lia. }
      destruct e; cbn; (split; [exact Hres|]); rewrite ?Hp;
        (split; [lia|]); (split; [exact Hin1|]); discriminate.
  - apply Z.leb_gt in Hmore. unfold list_index, ret, raise.
    replace (packet_index <? 0) with false by (symmetry; apply Z.ltb_ge; lia).
    destruct (_packets E s !! Z.to_nat packet_index) as [pkt|] eqn:Hl.
    + split; [lia|]. split; [exact Hl|]. split; [exists []; now rewrite app_nil_r|].
      split; [lia|reflexivity].
    + apply lookup_ge_None in Hl. unfold len in *. lia.
Qed.

(** X12. In a session that keeps its packets, with the cursor in range,
    indexed access at an index not yet retained terminates; when it
    returns a packet, the retained packets are the old ones followed by
    new ones, exactly [packet_index + 1] in all, the packet returned is
    the last of them, and the cursor is left at the end of the list; when
    it raises, the error is not [StopIteration], the old packets are
    still a prefix of the retained ones, and fewer than
    [packet_index + 1] packets are retained. *)
Theorem getitem_reads_ahead (packet_index : Z) (s : state) :
  keep_packets self = true ->
  cursor_in_range E s ->
  len (_packets E s) <= packet_index ->
  (__getitem__ E self packet_index s).1 <> Diverge
  /\ (forall pkt s', __getitem__ E self packet_index s = (Ok pkt, s') ->
         len (_packets E s') = packet_index + 1
         /\ _packets E s' !! Z.to_nat packet_index = Some pkt
         /\ (exists new, _packets E s' = _packets E s ++ new)
         /\ _current_packet E s' = length (_packets E s'))
  /\ (forall e s', __getitem__ E self packet_index s = (Raise e, s') ->
         e <> StopIteration
         /\ (exists new, _packets E s' = _packets E s ++ new)
         /\ len (_packets E s') <= packet_index).
Proof.
  intros Hkeep Hin Hlen.
  pose proof (getitem_loop_spec
                (Z.to_nat (packet_index - Z.of_nat (_current_packet E s)) + 2)
                packet_index s Hkeep ltac:(unfold len in *; lia) Hin
                ltac:(lia) ltac:(unfold cursor_in_range, len in *; lia)) as Hspec.
  unfold __getitem__. rewrite Hkeep. cbn [negb].
  destruct (getitem_loop E self _ packet_index s) as [[pkt|e|] s1];
    [| |contradiction].
  - destruct Hspec as (H1 & H2 & H3 & H4 & _).
    split; [discriminate|]. split; [|discriminate].
    intros pkt' s' [= <- <-]. repeat split; try assumption. now apply H4.
  - destruct Hspec as (H1 & H2 & H3 & H4).
    split; [discriminate|]. split; [discriminate|].
    intros e' s' [= <- <-]. now repeat split.
Qed.

(** The loop of [__getitem__] once the generator is finished. *)
Lemma getitem_loop_finished (steps : nat) (packet_index : Z) (s : state) :
  keep_packets self = true ->
  cursor_in_range E s ->
  _packet_generator E s = GenFinished E ->
  len (_packets E s) <= packet_index ->
  (length (_packets E s) - _current_packet E s + 1 <= steps)%nat ->
  getitem_loop E self steps packet_index s
  = (Raise (KeyError ("Packet of index " ++ str_of_int packet_index
                      ++ " does not exist in capture")),
     set_current_packet E (length (_packets E s)) s).
Proof.
  intros Hkeep. revert s. induction steps as [|steps IH];
    intros s Hin Hgen Hlen Hsteps; [lia|].
  cbn [getitem_loop]. unfold bind at 1. unfold get at 1. cbv beta iota.
  replace (len (_packets E s) <=? packet_index) with true
    by (symmetry; apply Z.leb_le; lia).
  unfold cursor_in_range in Hin.
  destruct (decide (_current_packet E s = length (_packets E s))) as [Hat|Hne].
  - assert (Hnext : next E self s = (Raise StopIteration, s)).
    { unfold next. rewrite Hkeep. cbn [negb]. unfold bind, get.
      replace (length (_packets E s) <=? _current_packet E s)%nat with true
        by (symmetry; apply Nat.leb_le; lia).
      unfold _packet_generator_send, bind, get. now rewrite Hgen. }
    unfold bind, try_except. rewrite Hnext. cbn.
    now rewrite <- Hat, set_current_packet_same.
  - destruct (_packets E s !! _current_packet E s) as [pkt|] eqn:Hl.
    2:{ apply lookup_ge_None in Hl. lia. }
    assert (Hnext : next E self s
                    = (Ok pkt, set_current_packet E (S (_current_packet E s)) s)).
    { unfold next. rewrite Hkeep. cbn [negb]. unfold bind, get, modify, ret.
      replace (length (_packets E s) <=? _current_packet E s)%nat with false
        by (symmetry; apply Nat.leb_gt; lia).
      unfold next_packet, bind, get, modify, ret. now rewrite Hl. }
    unfold bind, try_except, ret. rewrite Hnext.
    rewrite IH; cbn [_packets _current_packet _packet_generator set_current_packet];
      try assumption; [reflexivity| |lia].
    unfold cursor_in_range. cbn. lia.
Qed.

(** X13. In a session that keeps its packets and whose generator has
    finished, indexed access at an index not retained raises [KeyError]
    with the message [Packet of index <i> does not exist in capture], and
    its only effect is to leave the cursor at the end of the retained
    packets. *)
Theorem getitem_past_the_end (packet_index : Z) (s : state) :
  keep_packets self = true ->
  cursor_in_range E s ->
  _packet_generator E s = GenFinished E ->
  len (_packets E s) <= packet_index ->
  __getitem__ E self packet_index s
  = (Raise (KeyError ("Packet of index " ++ str_of_int packet_index
                      ++ " does not exist in capture")),
     set_current_packet E (length (_packets E s)) s).
Proof.
  intros Hkeep Hin Hgen Hlen. unfold __getitem__. rewrite Hkeep. cbn [negb].
  apply getitem_loop_finished; try assumption.
  unfold cursor_in_range, len in *. lia.
Qed.

End Pull.

Lemma next_returns_what_it_stores_witness :
  let E := Example.two_packets in
  let self := Example.session false true in
  let s' := (next E self (Example.boot E 0%nat)).2 in
  _packets E s' !! 0%nat = Some (Packet E (b "<packet>A</packet>"))
  /\ _current_packet E s' = 1%nat
  /\ _packets E s' = [] ++ [Packet E (b "<packet>A</packet>")].
Proof.
  cbv zeta.
  destruct (proj1 (next_returns_what_it_stores Example.two_packets
                     (Example.session false true)
                     (Example.boot Example.two_packets 0%nat) eq_refl (le_n 0))
              (Packet Example.two_packets (b "<packet>A</packet>"))
              (next Example.two_packets (Example.session false true)
                 (Example.boot Example.two_packets 0%nat)).2)
    as (Hat & Hcursor & _ & Hend).
  - vm_compute. reflexivity.
  - split; [exact Hat|]. split; [exact Hcursor|]. now apply Hend.
Defined.

Lemma reset_then_next_replays_witness :
  let E := Example.two_packets in
  let self := Example.session false true in
  let s := (load_packets E self 0 (Example.boot E 0%nat)).2 in
  next_n E self 2 (reset E s).2
  = (map Ok (take 2 (_packets E s)), set_current_packet E 2 s).
Proof.
  cbv zeta.
  apply (reset_then_next_replays Example.two_packets (Example.session false true) 2).
  - reflexivity.
  - vm_compute. lia.
Defined.

Lemma getitem_retained_witness :
  let E := Example.two_packets in
  let self := Example.session false true in
  let s := (load_packets E self 0 (Example.boot E 0%nat)).2 in
  (exists pkt, _packets E s !! 1%nat = Some pkt
               /\ __getitem__ E self 1 s = (Ok pkt, s))
  /\ (exists pkt, _packets E s !! 0%nat = Some pkt
                  /\ __getitem__ E self (-2) s = (Ok pkt, s))
  /\ __getitem__ E self (-3) s = (Raise IndexError, s).
Proof.
  cbv zeta.
  pose (s := (load_packets Example.two_packets (Example.session false true) 0
                (Example.boot Example.two_packets 0%nat)).2).
  assert (Hlen : len (_packets Example.two_packets s) = 2) by (vm_compute; reflexivity).
  split; [|split].
  - apply (proj1 (getitem_retained Example.two_packets (Example.session false true)
                    1 s eq_refl ltac:(rewrite Hlen; lia))). lia.
  - change 0%nat with (Z.to_nat (2 + -2)). rewrite <- Hlen.
    apply (proj1 (proj2 (getitem_retained Example.two_packets
                           (Example.session false true) (-2) s eq_refl
                           ltac:(rewrite Hlen; lia)))).
    rewrite Hlen. lia.
  - apply (proj2 (proj2 (getitem_retained Example.two_packets
                           (Example.session false true) (-3) s eq_refl
                           ltac:(rewrite Hlen; lia)))).
    rewrite Hlen. lia.
Defined.

Lemma getitem_reads_ahead_witness :
  let E := Example.two_packets in
  let self := Example.session false true in
  let s' := (__getitem__ E self 1 (Example.boot E 0%nat)).2 in
  len (_packets E s') = 1 + 1
  /\ _packets E s' !! Z.to_nat 1 = Some (Packet E (b "<packet>B</packet>"))
  /\ _current_packet E s' = length (_packets E s').
Proof.
  cbv zeta.
  destruct (getitem_reads_ahead Example.two_packets (Example.session false true) 1
              (Example.boot Example.two_packets 0%nat) eq_refl (le_n 0))
    as (_ & Hok & _).
  - vm_compute. discriminate.
  - destruct (Hok (Packet Example.two_packets (b "<packet>B</packet>"))
                (__getitem__ Example.two_packets (Example.session false true) 1
                   (Example.boot Example.two_packets 0%nat)).2)
      as (Hlen & Hat & _ & Hcursor).
    + vm_compute. reflexivity.
    + split; [exact Hlen|]. split; [exact Hat|exact Hcursor].
Defined.

Lemma getitem_past_the_end_witness :
  let E := Example.two_packets in
  let self := Example.session false true in
  let s := (next_n E self 3 (Example.boot E 0%nat)).2 in
  __getitem__ E self 5 s
  = (Raise (KeyError "Packet of index 5 does not exist in capture"),
     set_current_packet E (length (_packets E s)) s).
Proof.
  cbv zeta.
  apply (getitem_past_the_end Example.two_packets (Example.session false true) 5).
  - reflexivity.
  - vm_compute. lia.
  - vm_compute. reflexivity.
  - vm_compute. discriminate.
Defined.

End CursorFacts.

(** ** What an operation leaves alone *)

Module ViewFacts.
Import Py PyFacts Capture Vocabulary.
Import ScannerFacts ParameterFacts SupervisorFacts EngineFacts.
Import ExtractionFacts CommandFacts CursorFacts.
#[local] Open Scope monad_scope.

Create HintDb views.

Section Views.
Context (E : Env) {V : Type} (view : state E -> V).

#[local] Abbreviation M := (M E).
#[local] Abbreviation state := (state E).

Lemma same_refl (s : state) : same view s s.
Proof. reflexivity. Qed.

Lemma same_trans (s1 s2 s3 : state) :
  same view s1 s2 -> same view s2 s3 -> same view s1 s3.
Proof. unfold same. congruence. Qed.

Lemma same_ret {A} (a : A) : keeps (same view) (ret (E := E) a).
Proof. intros s. reflexivity. Qed.

Lemma same_raise {A} (e : exn) : keeps (same view) (raise (E := E) (A := A) e).
Proof. intros s. reflexivity. Qed.

Lemma same_get : keeps (same view) (get (E := E)).
Proof. intros s. reflexivity. Qed.

Lemma same_lift {A} (r : exn + A) : keeps (same view) (lift (E := E) r).
Proof. destruct r; intros s; reflexivity. Qed.

Lemma same_modify (f : state -> state) :
  (forall s, view (f s) = view s) -> keeps (same view) (modify f).
Proof. intros Hf s. apply Hf. Qed.

Lemma same_bind {A B} (c : M A) (k : A -> M B) :
  keeps (same view) c -> (forall a, keeps (same view) (k a)) ->
  keeps (same view) (bind c k).
Proof.
  intros Hc Hk s. unfold bind. specialize (Hc s).
  destruct (c s) as [[a|e|] s1]; cbn [fst snd] in *; [|exact Hc|exact Hc].
  eapply same_trans; [exact Hc|apply Hk].
Qed.

Lemma same_try_except {A} (c : M A) (h : exn -> option (M A)) :
  keeps (same view) c ->
  (forall e k, h e = Some k -> keeps (same view) k) ->
  keeps (same view) (try_except c h).
Proof.
  intros Hc Hh s. unfold try_except. specialize (Hc s).
  destruct (c s) as [[a|e|] s1]; cbn [fst snd] in *; [exact Hc| |exact Hc].
  destruct (h e) as [k|] eqn:Hk; [|exact Hc].
  eapply same_trans; [exact Hc|]. now apply (Hh e k).
Qed.

Lemma same_try_finally {A} (c : M A) (f : M unit) :
  keeps (same view) c -> keeps (same view) f ->
  keeps (same view) (try_finally c f).
Proof.
  intros Hc Hf s. unfold try_finally. specialize (Hc s).
  destruct (c s) as [[a|e|] s1]; cbn [fst snd] in *; [| |exact Hc];
    (specialize (Hf s1); destruct (f s1) as [[[]|e'|] s2]; cbn [fst snd] in *;
     eapply same_trans; eassumption).
Qed.

End Views.

#[export] Hint Resolve same_ret same_raise same_get same_lift : views.

Ltac views :=
  repeat first
    [ solve [auto with views nocore]
    | apply same_modify; solve [auto]
    | apply same_bind; [|intros ?]
    | progress cbv zeta
    | match goal with
      | |- keeps _ (if ?c then _ else _) => destruct c
      | |- keeps _ (match ?x with _ => _ end) => destruct x
      end ].

Section Pieces.
Context (E : Env) (self : config) {V : Type} (view : state E -> V).
Context (apart : pid -> Prop).

#[local] Abbreviation M := (M E).
#[local] Abbreviation state := (state E).

(** What the view must not show, for each family of operations: first,
    the objects of the processes that are [apart] from what it shows. *)
Hypothesis view_processes :
  forall fd pr s, apart fd ->
                  view (set_processes E (<[fd := pr]> (processes E s)) s) = view s.

Lemma same_read (stream : pid) (n : Z) :
  apart stream -> keeps (same view) (read E stream n).
Proof.
  intros Hfd s. unfold read. destruct (processes E s !! stream) as [pr|]; [|reflexivity].
  destruct (read_chunks n (stdout pr)). now apply view_processes.
Qed.

Lemma same_cleanup_subprocess (process : pid) :
  apart process -> keeps (same view) (_cleanup_subprocess E process).
Proof.
  intros Hfd s. unfold _cleanup_subprocess, bind, get, modify, ret, raise.
  destruct (processes E s !! process) as [pr|]; [|reflexivity].
  destruct (returncode pr) as [code|]; [now destruct (code >? 0)|].
  destruct (on_kill pr); try (now apply view_processes).
  destruct (String.eqb (os_name E) "nt"); now apply view_processes.
Qed.

Lemma same_cleanup_each (l : list pid) :
  Forall apart l -> keeps (same view) (cleanup_each E l).
Proof.
  induction 1 as [|p l Hp Hl IH]; cbn [cleanup_each]; [apply same_ret|].
  apply same_bind; [now apply same_cleanup_subprocess|]. intros _. exact IH.
Qed.

Lemma same_psml_struct_loop (steps : nat) (fd : pid) (data : bytes) :
  apart fd -> keeps (same view) (psml_struct_loop E steps fd data).
Proof.
  intros Hfd. revert data.
  induction steps as [|steps IH]; intros data; cbn [psml_struct_loop].
  - intros s. reflexivity.
  - apply same_bind; [now apply same_read|]. intros new_data.
    destruct (_extract_tag_from_data (data ++ new_data) (b "structure")) as [tag rest].
    views.
Qed.

Lemma same_get_psml_struct (fd : pid) :
  apart fd -> keeps (same view) (_get_psml_struct E self fd).
Proof.
  intros Hfd. unfold _get_psml_struct. destruct (_only_summaries self); [|views].
  intros s. now apply same_psml_struct_loop.
Qed.

Lemma same_get_packet_from_stream (stream : pid) (existing_data : bytes)
    (got_first_packet : bool) (psml_structure : option (PsmlStructure E)) :
  apart stream ->
  keeps (same view)
    (_get_packet_from_stream E self stream existing_data got_first_packet
       psml_structure).
Proof.
  intros Hfd. pose proof (same_read stream DEFAULT_BATCH_SIZE Hfd) as Hread.
  unfold _get_packet_from_stream.
  destruct (if use_json self then _ else _) as [packet rest].
  views.
Qed.

Lemma same_sync_finally {A} (tshark_process : pid) (e : exn) :
  apart tshark_process ->
  keeps (same view) (sync_finally E (A := A) tshark_process e).
Proof.
  intros Hfd. pose proof (same_cleanup_subprocess tshark_process Hfd) as Hclean.
  unfold sync_finally. views.
Qed.

(** The loop of the generator changes the generator object when it
    yields, and only then. *)
Lemma sync_loop_view (steps : nat) (tshark_process : pid)
    (psml_structure : option (PsmlStructure E)) (data : bytes)
    (packets_captured : Z) (s : state) :
  apart tshark_process ->
  match sync_loop E self steps tshark_process psml_structure data packets_captured s with
  | (Ok pkt, s') =>
      exists s1 data' n,
        same view s s1
        /\ s' = set_packet_generator E
                  (GenSuspended E tshark_process psml_structure data' n) s1
  | (_, s') => same view s s'
  end.
Proof.
  intros Hfd. revert data packets_captured s.
  induction steps as [|steps IH]; intros data packets_captured s; cbn [sync_loop].
  - reflexivity.
  - pose proof (same_get_packet_from_stream tshark_process data
                  (0 <? packets_captured) psml_structure Hfd s) as Hg.
    destruct (_get_packet_from_stream _ _ _ _ _ _ s) as [[[[pkt|] rest]|e|] s1];
      cbn [fst snd] in Hg.
    + destruct (truthy_packet E pkt); [now exists s1, rest, (packets_captured + 1)|].
      specialize (IH rest packets_captured s1).
      destruct (sync_loop E self steps _ _ rest packets_captured s1) as [[p|e|] s2].
      * destruct IH as (s3 & d & n & H1 & H2). exists s3, d, n.
        split; [eapply same_trans; eassumption|exact H2].
      * eapply same_trans; eassumption.
      * eapply same_trans; eassumption.
    + specialize (IH rest packets_captured s1).
      destruct (sync_loop E self steps _ _ rest packets_captured s1) as [[p|e|] s2].
      * destruct IH as (s3 & d & n & H1 & H2). exists s3, d, n.
        split; [eapply same_trans; eassumption|exact H2].
      * eapply same_trans; eassumption.
      * eapply same_trans; eassumption.
    + assert (Hf : forall e', match sync_finally E (A := packet E) tshark_process e' s1 with
                              | (Ok _, _) => False
                              | (_, s') => same view s s'
                              end).
      { intros e'.
        pose proof (same_sync_finally (A := packet E) tshark_process e' Hfd s1) as H.
        revert H. unfold sync_finally, bind, get, raise, ret.
        destruct (decide _); [|intros H; eapply same_trans; eassumption].
        destruct (_cleanup_subprocess E tshark_process s1) as [[r|e2|] s2];
          cbn [fst snd]; intros H; eapply same_trans; eassumption. }
      destruct e;
        match goal with
        | |- context [sync_finally E ?p ?e' s1] =>
            specialize (Hf e');
            destruct (sync_finally E p e' s1) as [[q|e2|] s2];
            [contradiction|exact Hf|exact Hf]
        end.
    + exact Hg.
Qed.

(** Next, the bookkeeping of the processes, and the objects of all of
    them. *)
Hypothesis apart_all : forall fd, apart fd.

Hypothesis view_handles :
  forall s, (forall r, view (set_running_processes E r s) = view s)
            /\ (forall n, view (set_next_pid E n s) = view s).

Lemma same_new_process (parameters : list string) :
  keeps (same view) (new_process E parameters).
Proof.
  intros s. unfold new_process, same. cbn [snd].
  rewrite (proj2 (view_handles _)). now apply view_processes.
Qed.

Lemma same_created_new_process (parameters : list string) (process : pid)
    (process_name : string) :
  keeps (same view) (_created_new_process E parameters process process_name).
Proof.
  unfold _created_new_process. views.
  all: apply same_modify; intros s; apply (proj1 (view_handles s)).
Qed.

#[local] Hint Resolve same_new_process same_created_new_process : views.

Lemma same_get_tshark_process (packet_count : option Z) :
  keeps (same view) (_get_tshark_process E self packet_count).
Proof. unfold _get_tshark_process. views. Qed.

Lemma same_close_async : keeps (same view) (close_async E).
Proof.
  unfold close_async.
  apply same_bind; [apply same_get|]. intros s0.
  apply same_bind.
  - apply same_cleanup_each. apply Forall_forall. intros p _. apply apart_all.
  - intros _. apply same_modify. intros s. apply (proj1 (view_handles s)).
Qed.

(** Last, what a packet handler may change. *)
Hypothesis view_handler :
  forall s, (forall c, view (set_calls E c s) = view s)
            /\ (forall u, view (set_user E u s) = view s)
            /\ (forall p, view (set_packets E p s) = view s).

Lemma same_call (packet_callback : callback E) (pkt : packet E) :
  keeps (same view) (call E packet_callback pkt).
Proof.
  intros s. unfold call, same.
  destruct (packet_callback pkt (_packets E s, user E s)) as [raised [pkts u]].
  cbn [snd].
  rewrite (proj1 (view_handler _)), (proj1 (proj2 (view_handler _))).
  apply (proj2 (proj2 (view_handler _))).
Qed.

Lemma same_go_through_loop (steps : nat) (fd : pid) (packet_callback : callback E)
    (packet_count : option Z) (psml_struct : option (PsmlStructure E))
    (data : bytes) (packets_captured : Z) :
  keeps (same view)
    (go_through_loop E self steps fd packet_callback packet_count psml_struct
       data packets_captured).
Proof.
  revert data packets_captured.
  induction steps as [|steps IH]; intros data packets_captured s;
    cbn [go_through_loop]; [reflexivity|].
  pose proof (same_get_packet_from_stream fd data (0 <? packets_captured)
                psml_struct (apart_all fd) s) as Hg.
  destruct (_get_packet_from_stream E self fd data (0 <? packets_captured)
              psml_struct s) as [[[[pkt|] data']|e|] s1]; cbn [fst snd] in Hg.
  - destruct (truthy_packet E pkt).
    2:{ destruct (count_reached packet_count packets_captured); [exact Hg|].
        eapply same_trans; [exact Hg|apply IH]. }
    pose proof (same_call packet_callback pkt s1) as Hc.
    destruct (call E packet_callback pkt s1) as [[[]|e|] s2]; cbn [fst snd] in Hc.
    + destruct (count_reached packet_count (packets_captured + 1)).
      * eapply same_trans; eassumption.
      * eapply same_trans; [eapply same_trans; eassumption|apply IH].
    + destruct e; eapply same_trans; eassumption.
    + eapply same_trans; eassumption.
  - destruct (count_reached packet_count packets_captured); [exact Hg|].
    eapply same_trans; [exact Hg|apply IH].
  - destruct e; exact Hg.
  - exact Hg.
Qed.

Lemma same_apply_on_packets (packet_callback : callback E) (packet_count : option Z) :
  keeps (same view) (apply_on_packets E self packet_callback packet_count).
Proof.
  unfold apply_on_packets, packets_from_tshark.
  apply same_bind; [apply same_get_tshark_process|]. intros tshark_process.
  apply same_try_finally; [|apply same_close_async].
  apply same_try_except.
  2:{ intros e k Hk. destruct e; try discriminate. injection Hk as <-.
      apply same_ret. }
  unfold _go_through_packets_from_fd.
  apply same_bind; [apply same_get_psml_struct, apart_all|].
  intros [psml_struct data] s. apply same_go_through_loop.
Qed.

End Pieces.

End ViewFacts.

(** ** Bounds on what an operation does *)

Module BoundFacts.
Import Py PyFacts Capture Vocabulary.
Import ScannerFacts ParameterFacts SupervisorFacts EngineFacts.
Import ExtractionFacts CommandFacts CursorFacts ViewFacts.
#[local] Open Scope monad_scope.

Section Bounds.
Context (E : Env) (self : config).

#[local] Abbreviation state := (state E).

(** With a count bound the loop makes no more calls of the handler than
    the bound leaves. *)
Lemma go_through_loop_count (n : Z) (steps : nat) (fd : pid)
    (packet_callback : callback E) (psml_struct : option (PsmlStructure E))
    (data : bytes) (packets_captured : Z) (s : state) :
  n <> 0 ->
  packets_captured < n ->
  exists new,
    calls E (go_through_loop E self steps fd packet_callback (Some n) psml_struct
               data packets_captured s).2 = calls E s ++ new
    /\ Z.of_nat (length new) <= n - packets_captured.
Proof.
  intros Hn. revert data packets_captured s.
  induction steps as [|steps IH]; intros data packets_captured s Hlt.
  { exists []. cbn. rewrite app_nil_r. split; [reflexivity|lia]. }
  cbn [go_through_loop].
  pose proof (preserves_get_packet_from_stream E self fd data
                (0 <? packets_captured) psml_struct s) as (_ & _ & _ & Hcalls).
  assert (Hnot : count_reached (Some n) packets_captured = false).
  { unfold count_reached. cbn. apply andb_false_iff. right. apply Z.leb_gt. lia. }
  destruct (_get_packet_from_stream E self fd data (0 <? packets_captured)
              psml_struct s) as [[[[pkt|] data']|e|] s1]; cbn [fst snd] in Hcalls.
  - rewrite Hnot. destruct (truthy_packet E pkt).
    2:{ destruct (IH data' packets_captured s1 Hlt) as (new & H1 & H2).
        exists new. now rewrite H1, Hcalls. }
    destruct (call_spec E packet_callback pkt s1) as (raised & s2 & -> & Hlog & _).
    destruct raised as [e|].
    + exists [(pkt, Some e)]. rewrite <- Hcalls, <- Hlog.
      split; [now destruct e|]. cbn [length]. lia.
    + destruct (count_reached (Some n) (packets_captured + 1)) eqn:Hreached.
      * exists [(pkt, None)]. cbn [fst snd]. rewrite <- Hcalls, <- Hlog.
        split; [reflexivity|]. cbn [length]. lia.
      * assert (Hlt' : packets_captured + 1 < n).
        { unfold count_reached in Hreached. cbn in Hreached.
          apply andb_false_iff in Hreached as [H|H].
          - apply negb_false_iff, Z.eqb_eq in H. lia.
          - apply Z.leb_gt in H. lia. }
        destruct (IH data' (packets_captured + 1) s2 Hlt') as (new & H1 & H2).
        exists ((pkt, None) :: new). rewrite H1, Hlog, Hcalls, <- app_assoc.
        split; [reflexivity|]. cbn [length]. lia.
  - rewrite Hnot. destruct (IH data' packets_captured s1 Hlt) as (new & H1 & H2).
    exists new. now rewrite H1, Hcalls.
  - exists []. rewrite app_nil_r. split; [|cbn; lia]. now destruct e.
  - exists []. rewrite app_nil_r. split; [exact Hcalls|cbn; lia].
Qed.

(** X14. [apply_on_packets] with a positive [packet_count] [n] calls the
    handler at most [n] times, whatever the stream holds and whatever the
    handler does. *)
Theorem handler_calls_bounded (packet_callback : callback E) (n : Z) (s : state) :
  0 < n ->
  exists new,
    calls E (apply_on_packets E self packet_callback (Some n) s).2 = calls E s ++ new
    /\ Z.of_nat (length new) <= n.
Proof.
  intros Hn. unfold apply_on_packets, packets_from_tshark, bind.
  pose proof (preserves_get_tshark_process E self (Some n) s) as (_ & _ & _ & Hc0).
  destruct (_get_tshark_process E self (Some n) s) as [[p|e|] s0]; cbn [fst snd] in Hc0.
  2,3: exists []; rewrite app_nil_r; split; [exact Hc0|cbn; lia].
  assert (Hloop : exists new,
             calls E (_go_through_packets_from_fd E self p packet_callback (Some n) s0).2
             = calls E s ++ new /\ Z.of_nat (length new) <= n).
  { unfold _go_through_packets_from_fd, bind.
    pose proof (preserves_get_psml_struct E self p s0) as (_ & _ & _ & Hc1).
    destruct (_get_psml_struct E self p s0) as [[[psml data]|e|] s1]; cbn [fst snd] in Hc1.
    - destruct (go_through_loop_count n (steps_left E p data s1) p packet_callback
                  psml data 0 s1 ltac:(lia) Hn) as (new & H1 & H2).
      exists new. rewrite H1, Hc1, Hc0. split; [reflexivity|lia].
    - exists []. rewrite app_nil_r. split; [cbn [fst snd]; congruence|cbn; lia].
    - exists []. rewrite app_nil_r. split; [cbn [fst snd]; congruence|cbn; lia]. }
  destruct Hloop as (new & H1 & H2). exists new. split; [|exact H2]. rewrite <- H1.
  unfold try_finally, try_except.
  destruct (_go_through_packets_from_fd E self p packet_callback (Some n) s0)
    as [[[]|e|] s1]; cbn [fst snd].
  - pose proof (preserves_close_async E s1) as (_ & _ & _ & Hc).
    destruct (close_async E s1) as [[[]|e|] s2]; cbn [fst snd] in *; exact Hc.
  - pose proof (preserves_close_async E s1) as (_ & _ & _ & Hc).
    destruct e; cbn [ret];
      destruct (close_async E s1) as [[[]|e'|] s2]; cbn [fst snd] in *; exact Hc.
  - reflexivity.
Qed.

(** The loop under the handler of [load_packets]. *)
Lemma go_through_loop_keep (n init : Z) (steps : nat) (fd : pid)
    (psml_struct : option (PsmlStructure E)) (data : bytes) (packets_captured : Z)
    (s : state) :
  n <> 0 ->
  len (_packets E s) - init < Z.max n 1 ->
  exists new,
    _packets E (go_through_loop E self steps fd (keep_packet E n init) None
                  psml_struct data packets_captured s).2 = _packets E s ++ new
    /\ len (_packets E s ++ new) - init <= Z.max n 1.
Proof.
  intros Hn. revert data packets_captured s.
  induction steps as [|steps IH]; intros data packets_captured s Hlt.
  { exists []. cbn. rewrite app_nil_r. split; [reflexivity|lia]. }
  cbn [go_through_loop].
  pose proof (preserves_get_packet_from_stream E self fd data
                (0 <? packets_captured) psml_struct s) as (Hp & _).
  change (count_reached None ?x) with false. cbv iota.
  destruct (_get_packet_from_stream E self fd data (0 <? packets_captured)
              psml_struct s) as [[[[pkt|] data']|e|] s1]; cbn [fst snd] in Hp.
  - destruct (truthy_packet E pkt).
    2:{ destruct (IH data' packets_captured s1) as (new & H1 & H2); [now rewrite Hp|].
        exists new. now rewrite H1, Hp in *. }
    destruct (negb (n =? 0) && (n <=? len (_packets E s1 ++ [pkt]) - init)) eqn:Hstop.
    + assert (Hcall : exists s2,
                 call E (keep_packet E n init) pkt s1 = (Raise StopCapture, s2)
                 /\ _packets E s2 = _packets E s1 ++ [pkt]).
      { unfold call, keep_packet. rewrite Hstop. eexists. split; reflexivity. }
      destruct Hcall as (s2 & -> & Hp2).
      exists [pkt]. cbn [fst snd]. rewrite Hp2, Hp. split; [reflexivity|].
      rewrite len_app. unfold len in *. cbn [length]. lia.
    + assert (Hcall : exists s2,
                 call E (keep_packet E n init) pkt s1 = (Ok tt, s2)
                 /\ _packets E s2 = _packets E s1 ++ [pkt]).
      { unfold call, keep_packet. rewrite Hstop. eexists. split; reflexivity. }
      destruct Hcall as (s2 & -> & Hp2). rewrite Hp in Hp2.
      destruct (IH data' (packets_captured + 1) s2) as (new & H1 & H2).
      { rewrite Hp2. apply andb_false_iff in Hstop as [H|H].
        - apply negb_false_iff, Z.eqb_eq in H. contradiction.
        - apply Z.leb_gt in H. rewrite Hp in H. lia. }
      exists (pkt :: new). rewrite H1, Hp2, <- app_assoc. split; [reflexivity|].
      rewrite Hp2, <- app_assoc in H2. exact H2.
  - destruct (IH data' packets_captured s1) as (new & H1 & H2); [now rewrite Hp|].
    exists new. now rewrite H1, Hp in *.
  - exists []. rewrite app_nil_r. split; [now destruct e|lia].
  - exists []. rewrite app_nil_r. split; [exact Hp|lia].
Qed.

(** X15. [load_packets(n)] with [n] other than 0 only appends to the retained
    packets, at most [n] of them when [n] is positive and at most one when
    [n] is negative, and it leaves the cursor where it was. *)
Theorem load_packets_bounded (n : Z) (s : state) :
  n <> 0 ->
  exists new,
    _packets E (load_packets E self n s).2 = _packets E s ++ new
    /\ len new <= Z.max n 1
    /\ _current_packet E (load_packets E self n s).2 = _current_packet E s.
Proof.
  intros Hn.
  assert (Hcursor : _current_packet E (load_packets E self n s).2 = _current_packet E s).
  { assert (H : keeps (same (_current_packet E)) (load_packets E self n)).
    { unfold load_packets. apply same_bind; [apply same_get|]. intros s0.
      apply same_try_except.
      2:{ intros e k Hk. destruct e; try discriminate. injection Hk as <-.
          apply same_ret. }
      apply same_bind; [|intros _; now apply same_modify].
      apply (same_apply_on_packets E self _ (fun _ => True));
        [reflexivity|easy|now split|now repeat split]. }
    apply H. }
  assert (Hgrow : exists new,
             _packets E (load_packets E self n s).2 = _packets E s ++ new
             /\ len (_packets E s ++ new) - len (_packets E s) <= Z.max n 1).
  { unfold load_packets, bind, get, try_except, apply_on_packets, packets_from_tshark,
      bind, modify.
    pose proof (preserves_get_tshark_process E self None s) as (Hp0 & _).
    destruct (_get_tshark_process E self None s) as [[p|e|] s0]; cbn [fst snd] in Hp0.
    2:{ exists []. rewrite app_nil_r. split; [now destruct e|lia]. }
    2:{ exists []. rewrite app_nil_r. split; [exact Hp0|lia]. }
    assert (Hloop : exists new,
               _packets E (_go_through_packets_from_fd E self p
                             (keep_packet E n (len (_packets E s))) None s0).2
               = _packets E s ++ new
               /\ len (_packets E s ++ new) - len (_packets E s) <= Z.max n 1).
    { unfold _go_through_packets_from_fd, bind.
      pose proof (preserves_get_psml_struct E self p s0) as (Hp1 & _).
      destruct (_get_psml_struct E self p s0) as [[[psml data]|e|] s1];
        cbn [fst snd] in Hp1.
      - destruct (go_through_loop_keep n (len (_packets E s)) (steps_left E p data s1)
                    p psml data 0 s1 Hn) as (new & H1 & H2).
        { rewrite Hp1, Hp0. lia. }
        exists new. rewrite H1, Hp1, Hp0 in *. now split.
      - exists []. rewrite app_nil_r. split; [cbn [fst snd]; congruence|lia].
      - exists []. rewrite app_nil_r. split; [cbn [fst snd]; congruence|lia]. }
    destruct Hloop as (new & H1 & H2). exists new. split; [|exact H2]. rewrite <- H1.
    unfold try_finally, try_except.
    destruct (_go_through_packets_from_fd E self p _ None s0) as [[[]|e|] s1];
      cbn [fst snd].
    - pose proof (preserves_close_async E s1) as (Hc & _).
      destruct (close_async E s1) as [[[]|e|] s2]; cbn [fst snd] in *;
        [exact Hc|now destruct e|exact Hc].
    - pose proof (preserves_close_async E s1) as (Hc & _).
      destruct e; cbn [ret];
        destruct (close_async E s1) as [[[]|e'|] s2]; cbn [fst snd] in *;
        try exact Hc; now destruct e'.
    - reflexivity. }
  destruct Hgrow as (new & H1 & H2). exists new. split; [exact H1|].
  split; [|exact Hcursor]. rewrite len_app in H2. lia.
Qed.

(** X16. The cursor never runs past the end of the retained packets: if it
    is within the retained packets or just past them, it still is after
    [next], [next_packet], [clear], [reset], [close], [load_packets] and
    [__getitem__], whether they return or raise. *)
Theorem cursor_stays_in_range (s : state) :
  cursor_in_range E s ->
  cursor_in_range E (next E self s).2
  /\ cursor_in_range E (next_packet E s).2
  /\ cursor_in_range E (clear E s).2
  /\ cursor_in_range E (reset E s).2
  /\ cursor_in_range E (close E s).2
  /\ (forall n, cursor_in_range E (load_packets E self n s).2)
  /\ (forall i, cursor_in_range E (__getitem__ E self i s).2).
Proof.
  intros Hin. unfold cursor_in_range in *.
  assert (Hnext : forall s0 : state,
             (_current_packet E s0 <= length (_packets E s0))%nat ->
             (_current_packet E (next E self s0).2
              <= length (_packets E (next E self s0).2))%nat).
  { intros s0 H0. destruct (keep_packets self) eqn:Hkeep.
    - pose proof (next_spec E self s0 Hkeep H0) as Hspec.
      destruct (next E self s0) as [[pkt|e|] s1]; cbn [fst snd]; [| |contradiction].
      + destruct Hspec as (Hc & Hl & _). apply lookup_lt_Some in Hl. lia.
      + destruct Hspec as ((Hp & Hc & _) & _). rewrite Hp, Hc. exact H0.
    - unfold next. rewrite Hkeep. cbn [negb].
      destruct (preserves_packet_generator_send E self s0) as (Hp & Hc & _).
      now rewrite Hp, Hc. }
  split; [now apply Hnext|]. split.
  { unfold next_packet, bind, get, modify, ret, raise.
    destruct (_packets E s !! _current_packet E s) as [pkt|] eqn:Hl; cbn; [|exact Hin].
    apply lookup_lt_Some in Hl. lia. }
  split; [cbn; lia|]. split; [cbn; lia|]. split.
  { destruct (preserves_close_async E s) as (Hp & Hc & _). unfold close.
    now rewrite Hp, Hc. }
  split.
  - intros n. pose proof (load_packets_retains E self n s) as (new & _ & Hp).
    assert (Hc : keeps (same (_current_packet E)) (load_packets E self n)).
    { unfold load_packets. apply same_bind; [apply same_get|]. intros s0.
      apply same_try_except.
      2:{ intros e k Hk. destruct e; try discriminate. injection Hk as <-.
          apply same_ret. }
      apply same_bind; [|intros _; now apply same_modify].
      apply (same_apply_on_packets E self _ (fun _ => True));
        [reflexivity|easy|now split|now repeat split]. }
    rewrite Hp, (Hc s), length_app. lia.
  - intros i. unfold __getitem__. destruct (keep_packets self); cbn [negb]; [|exact Hin].
    assert (Hloop : forall steps (s0 : state) r s',
               (_current_packet E s0 <= length (_packets E s0))%nat ->
               getitem_loop E self steps i s0 = (r, s') ->
               (_current_packet E s' <= length (_packets E s'))%nat).
    { induction steps as [|steps IH]; intros s0 r s' H0; [now intros [= <- <-]|].
      cbn [getitem_loop]. unfold bind at 1. unfold get at 1. cbv beta iota.
      destruct (len (_packets E s0) <=? i).
      - unfold bind, try_except, ret, raise. specialize (Hnext s0 H0).
        destruct (next E self s0) as [[pkt|e|] s1]; cbn [fst snd] in *.
        + now apply IH.
        + destruct e; now intros [= <- <-].
        + now intros [= <- <-].
      - destruct (list_index (_packets E s0) i); now intros [= <- <-]. }
    destruct (getitem_loop E self _ i s) as [r s'] eqn:Hrun.
    now apply (Hloop _ _ _ _ Hin Hrun).
Qed.

(** X17. [apply_on_packets] itself never writes the pull side of the
    session: none of its own steps (starting tshark, reading and decoding
    its output, cleaning up) changes the [loaded] flag, the cursor or the
    generator of [next]. So with a handler that does nothing but raise or
    update the caller's data and the retained packets, which are the
    handlers of the model (one that calls back into the session is
    outside it), these three are after the call as they were before it,
    however the call ends. *)
Theorem push_leaves_pull_alone (packet_callback : callback E)
    (packet_count : option Z) (s : state) :
  let s' := (apply_on_packets E self packet_callback packet_count s).2 in
  loaded E s' = loaded E s
  /\ _current_packet E s' = _current_packet E s
  /\ _packet_generator E s' = _packet_generator E s.
Proof.
  cbv zeta.
  assert (H : keeps (same (iteration E))
                (apply_on_packets E self packet_callback packet_count)).
  { apply (same_apply_on_packets E self _ (fun _ => True));
        [reflexivity|easy|now split|now repeat split]. }
  specialize (H s). unfold same, iteration in H. now injection H as -> -> ->.
Qed.

End Bounds.

Lemma handler_calls_bounded_witness :
  let E := Example.two_packets in
  let self := Example.session false true in
  exists new,
    calls E (apply_on_packets E self (fun _ x => (None, x)) (Some 1)
               (Example.boot E 0%nat)).2
    = calls E (Example.boot E 0%nat) ++ new
    /\ Z.of_nat (length new) <= 1.
Proof.
  cbv zeta.
  apply (handler_calls_bounded Example.two_packets (Example.session false true)
           (fun _ x => (None, x)) 1 (Example.boot Example.two_packets 0%nat)).
  lia.
Defined.

Lemma load_packets_bounded_witness :
  let E := Example.two_packets in
  let self := Example.session false true in
  exists new,
    _packets E (load_packets E self 1 (Example.boot E 0%nat)).2
    = _packets E (Example.boot E 0%nat) ++ new
    /\ len new <= Z.max 1 1
    /\ _current_packet E (load_packets E self 1 (Example.boot E 0%nat)).2
       = _current_packet E (Example.boot E 0%nat).
Proof.
  cbv zeta.
  apply (load_packets_bounded Example.two_packets (Example.session false true) 1
           (Example.boot Example.two_packets 0%nat)).
  lia.
Defined.

Lemma cursor_stays_in_range_witness :
  let E := Example.two_packets in
  let self := Example.session false true in
  cursor_in_range E (next E self (Example.boot E 0%nat)).2
  /\ forall i, cursor_in_range E (__getitem__ E self i (Example.boot E 0%nat)).2.
Proof.
  cbv zeta.
  destruct (cursor_stays_in_range Example.two_packets (Example.session false true)
              (Example.boot Example.two_packets 0%nat) (le_n 0))
    as (Hnext & _ & _ & _ & _ & _ & Hgetitem).
  split; [exact Hnext|exact Hgetitem].
Defined.

End BoundFacts.

(** ** Errors of the handler *)

Module HandlerFacts.
Import Py PyFacts Capture Vocabulary.
Import ScannerFacts ParameterFacts SupervisorFacts EngineFacts.
Import ExtractionFacts CommandFacts CursorFacts ViewFacts BoundFacts.
#[local] Open Scope monad_scope.

Section Handler.
Context (E : Env) (self : config).

#[local] Abbreviation state := (state E).

Lemma raises_only_last_nil : raises_only_last E [].
Proof. intros i pkt e H. discriminate. Qed.

Lemma raises_only_last_one (c : packet E * option exn) : raises_only_last E [c].
Proof. intros [|i] pkt e H; [reflexivity|discriminate]. Qed.

Lemma raises_only_last_cons (pkt : packet E) (l : list (packet E * option exn)) :
  raises_only_last E l -> raises_only_last E ((pkt, None) :: l).
Proof.
  intros Hl [|i] pkt' e Hlook; cbn in Hlook; [discriminate|].
  cbn [length]. f_equal. now apply (Hl i pkt' e).
Qed.

Lemma last_raise_cons (pkt pkt' : packet E) (e : exn)
    (l : list (packet E * option exn)) :
  last ((pkt, None) :: l) = Some (pkt', Some e) -> last l = Some (pkt', Some e).
Proof.
  destruct l as [|c l]; [|now rewrite last_cons_cons].
  cbn. discriminate.
Qed.

(** The loop of [_go_through_packets_from_fd] under a handler that raises:
    the call that raised is the last one, and what it raised, if not
    [StopCapture], is what the loop raises. *)
Lemma go_through_loop_raise (fd : pid) (packet_callback : callback E)
    (packet_count : option Z) (psml_struct : option (PsmlStructure E))
    (steps : nat) (data : bytes) (packets_captured : Z) (s : state) :
  exists new,
    calls E (go_through_loop E self steps fd packet_callback packet_count
               psml_struct data packets_captured s).2 = calls E s ++ new
    /\ raises_only_last E new
    /\ (forall pkt e, last new = Some (pkt, Some e) -> e <> StopCapture ->
                      (go_through_loop E self steps fd packet_callback packet_count
                         psml_struct data packets_captured s).1 = Raise e).
Proof.
  revert data packets_captured s.
  induction steps as [|steps IH]; intros data packets_captured s.
  { exists []. cbn. rewrite app_nil_r. repeat split.
    - apply raises_only_last_nil.
    - discriminate. }
  cbn [go_through_loop].
  pose proof (preserves_get_packet_from_stream E self fd data
                (0 <? packets_captured) psml_struct s) as (_ & _ & _ & Hcalls).
  destruct (_get_packet_from_stream E self fd data (0 <? packets_captured)
              psml_struct s) as [[[[pkt|] data']|e|] s1];
    cbn [fst snd] in Hcalls.
  - assert (Hskip :
      exists new,
        calls E (if count_reached packet_count packets_captured then (Ok tt, s1)
                 else go_through_loop E self steps fd packet_callback packet_count
                        psml_struct data' packets_captured s1).2 = calls E s ++ new
        /\ raises_only_last E new
        /\ (forall p e, last new = Some (p, Some e) -> e <> StopCapture ->
                        (if count_reached packet_count packets_captured then (Ok tt, s1)
                         else go_through_loop E self steps fd packet_callback
                                packet_count psml_struct data' packets_captured s1).1
                        = Raise e)).
    { destruct (count_reached packet_count packets_captured).
      - exists []. cbn [fst snd]. rewrite app_nil_r.
        repeat split; [exact Hcalls|apply raises_only_last_nil|discriminate].
      - destruct (IH data' packets_captured s1) as (new & H1 & H2 & H3).
        exists new. rewrite H1, Hcalls. repeat split; [exact H2|exact H3]. }
    destruct (truthy_packet E pkt); [|exact Hskip]. clear Hskip.
    destruct (call_spec E packet_callback pkt s1) as (raised & s2 & -> & Hlog & Hproc).
    destruct raised as [e|].
    + exists [(pkt, Some e)]. rewrite <- Hcalls, <- Hlog.
      split; [now destruct e|]. split; [apply raises_only_last_one|].
      cbn. intros p e' [= <- <-] Hne. now destruct e.
    + destruct (count_reached packet_count (packets_captured + 1)).
      * exists [(pkt, None)]. cbn [fst snd]. rewrite <- Hcalls, <- Hlog.
        repeat split; [apply raises_only_last_one|discriminate].
      * destruct (IH data' (packets_captured + 1) s2) as (new & H1 & H2 & H3).
        exists ((pkt, None) :: new). rewrite H1, Hlog, Hcalls, <- app_assoc.
        repeat split.
        -- now apply raises_only_last_cons.
        -- intros p e Hlast. apply (H3 p). now apply last_raise_cons in Hlast.
  - destruct (count_reached packet_count packets_captured).
    + exists []. cbn [fst snd]. rewrite app_nil_r.
      repeat split; [exact Hcalls|apply raises_only_last_nil|discriminate].
    + destruct (IH data' packets_captured s1) as (new & H1 & H2 & H3).
      exists new. rewrite H1, Hcalls. repeat split; [exact H2|exact H3].
  - exists []. rewrite app_nil_r.
    destruct e; cbn [fst snd]; repeat split;
      try exact Hcalls; try apply raises_only_last_nil; discriminate.
  - exists []. rewrite app_nil_r. cbn [fst snd].
    repeat split; [exact Hcalls|apply raises_only_last_nil|discriminate].
Qed.

(** X18. In the calls [apply_on_packets] makes of the handler, a call that
    raises, whatever it raises, is the last one: the handler is never
    called again. When the error is not [StopCapture], the clean-up of
    the processes still runs, and [apply_on_packets] raises the error of
    the handler, unless the clean-up raises itself, in which case the
    error of the clean-up comes out instead. *)
Theorem handler_error_comes_out (packet_callback : callback E)
    (packet_count : option Z) (s : state) :
  exists new,
    calls E (apply_on_packets E self packet_callback packet_count s).2
    = calls E s ++ new
    /\ raises_only_last E new
    /\ (forall pkt e,
           last new = Some (pkt, Some e) -> e <> StopCapture ->
           exists s1,
             (apply_on_packets E self packet_callback packet_count s).2
             = (close_async E s1).2
             /\ (apply_on_packets E self packet_callback packet_count s).1
                = match (close_async E s1).1 with
                  | Ok _ => Raise e
                  | r => r
                  end).
Proof.
  unfold apply_on_packets, packets_from_tshark, bind.
  pose proof (preserves_get_tshark_process E self packet_count s)
    as (_ & _ & _ & Hcalls0).
  destruct (_get_tshark_process E self packet_count s) as [[tshark_process|e|] s0];
    cbn [fst snd] in *.
  2,3: exists []; rewrite app_nil_r;
       (repeat split; [exact Hcalls0|apply raises_only_last_nil|discriminate]).
  assert (Hgo : exists new,
    calls E (_go_through_packets_from_fd E self tshark_process packet_callback
               packet_count s0).2 = calls E s0 ++ new
    /\ raises_only_last E new
    /\ (forall pkt e, last new = Some (pkt, Some e) -> e <> StopCapture ->
                      (_go_through_packets_from_fd E self tshark_process
                         packet_callback packet_count s0).1 = Raise e)).
  { unfold _go_through_packets_from_fd, bind.
    pose proof (preserves_get_psml_struct E self tshark_process s0)
      as (_ & _ & _ & Hcalls).
    destruct (_get_psml_struct E self tshark_process s0)
      as [[[psml_struct data]|e|] s1]; cbn [fst snd] in *.
    - destruct (go_through_loop_raise tshark_process packet_callback packet_count
                  psml_struct (steps_left E tshark_process data s1) data 0 s1)
        as (new & H1 & H2 & H3).
      exists new. rewrite H1, Hcalls. repeat split; [exact H2|exact H3].
    - exists []. rewrite app_nil_r.
      repeat split; [exact Hcalls|apply raises_only_last_nil|discriminate].
    - exists []. rewrite app_nil_r.
      repeat split; [exact Hcalls|apply raises_only_last_nil|discriminate]. }
  destruct Hgo as (new & Hlog & Honly & Hraise).
  exists new.
  destruct (_go_through_packets_from_fd E self tshark_process packet_callback
              packet_count s0) as [r s1] eqn:Hrun.
  cbn [fst snd] in *.
  assert (Hclose : calls E (close_async E s1).2 = calls E s1).
  { now pose proof (preserves_close_async E s1) as (_ & _ & _ & H). }
  split; [|split; [exact Honly|]].
  - unfold try_finally, try_except. rewrite Hrun.
    destruct r as [[]|e|]; cbn [fst snd].
    + destruct (close_async E s1) as [[[]|e'|] s2]; cbn [fst snd] in *;
        now rewrite Hclose, Hlog, Hcalls0.
    + destruct e; cbn [ret fst snd];
        (destruct (close_async E s1) as [[[]|e'|] s2]; cbn [fst snd] in *;
         now rewrite Hclose, Hlog, Hcalls0).
    + cbn [fst snd]. now rewrite Hlog, Hcalls0.
  - intros pkt e Hlast Hne. exists s1.
    specialize (Hraise pkt e Hlast Hne). subst r.
    unfold try_finally, try_except. rewrite Hrun.
    destruct e; try contradiction; cbn [fst snd];
      (destruct (close_async E s1) as [[[]|e'|] s2]; cbn [fst snd]; split; reflexivity).
Qed.

End Handler.

Lemma handler_error_comes_out_witness :
  let E := Example.two_records in
  let self := Example.session false true in
  let handler : callback E := fun _ x => (Some (Exception "no more"), x) in
  let out := apply_on_packets E self handler None (Example.boot E 0%nat) in
  calls E out.2 = [(Packet E (b "<packet>A</packet>"), Some (Exception "no more"))]
  /\ exists s1,
       out.2 = (close_async E s1).2
       /\ out.1 = match (close_async E s1).1 with
                  | Ok _ => Raise (Exception "no more")
                  | r => r
                  end.
Proof.
  cbv zeta.
  destruct (handler_error_comes_out Example.two_records (Example.session false true)
              (fun _ x => (Some (Exception "no more"), x)) None
              (Example.boot Example.two_records 0%nat))
    as (new & Hlog & _ & Hraise).
  assert (Hcalls :
    calls Example.two_records
      (apply_on_packets Example.two_records (Example.session false true)
         (fun _ x => (Some (Exception "no more"), x)) None
         (Example.boot Example.two_records 0%nat)).2
    = [(Packet Example.two_records (b "<packet>A</packet>"),
        Some (Exception "no more"))])
    by (vm_compute; reflexivity).
  split; [exact Hcalls|].
  rewrite Hcalls in Hlog. cbn [calls Example.boot app] in Hlog. subst new.
  apply (Hraise _ _ eq_refl). discriminate.
Defined.

End HandlerFacts.

(** ** The output of tshark as a stream of records *)

Module StreamFacts.
Import Py PyFacts Capture Vocabulary.
Import ScannerFacts ParameterFacts SupervisorFacts EngineFacts.
Import ExtractionFacts CommandFacts CursorFacts ViewFacts BoundFacts HandlerFacts.
#[local] Open Scope monad_scope.

Section Stream.
Context (E : Env) (self : config).

#[local] Abbreviation state := (state E).

Lemma read_chunks_concat (n : Z) (chunks : list bytes) :
  0 < n ->
  (read_chunks n chunks).1 ++ concat (read_chunks n chunks).2 = concat chunks
  /\ ((read_chunks n chunks).1 = [] -> concat chunks = []).
Proof.
  intros Hn. induction chunks as [|chunk chunks IH]; [now split|].
  destruct chunk as [|c chunk]; [exact IH|].
  cbn [read_chunks]. destruct (len (c :: chunk) <=? n) eqn:Hl; cbn [fst snd].
  - split; [reflexivity|discriminate].
  - split.
    + cbn [concat]. now rewrite app_assoc, take_drop.
    + apply Z.leb_gt in Hl. unfold len in Hl. cbn [length] in Hl.
      replace (Z.to_nat n) with (S (Z.to_nat n - 1)) by lia. discriminate.
Qed.

(** One read from the pipe of [fd]. *)
Lemma read_feeds (fd : pid) (pr : process) (n : Z) (data stream : bytes) (s : state) :
  0 < n -> feeds E fd pr data stream s ->
  (exists chunk pr',
      chunk <> []
      /\ read E fd n s = (Ok chunk, set_processes E (<[fd := pr']> (processes E s)) s)
      /\ feeds E fd pr (data ++ chunk) stream
           (set_processes E (<[fd := pr']> (processes E s)) s))
  \/ (data = stream
      /\ read E fd n s
         = (Ok [], set_processes E (<[fd := drained pr]> (processes E s)) s)).
Proof.
  intros Hn (chunks & Hpr & Hstream). unfold read. rewrite Hpr.
  destruct (read_chunks_concat n chunks Hn) as [Hcat Hnil].
  cbn [stdout reading returncode exit_at_eof on_kill killed].
  destruct (read_chunks n chunks) as [chunk rest] eqn:Hread. cbn [fst snd] in *.
  destruct chunk as [|c chunk].
  - right. rewrite (Hnil eq_refl), app_nil_r in Hstream. split; [exact Hstream|].
    assert (rest = []) as ->.
    { clear -Hread Hn. revert Hread. induction chunks as [|[|c chunk] chunks IH];
        cbn [read_chunks]; [now intros [= <-]|exact IH|].
      destruct (len (c :: chunk) <=? n); [discriminate|].
      replace (Z.to_nat n) with (S (Z.to_nat n - 1)) by lia. discriminate. }
    reflexivity.
  - left. exists (c :: chunk). eexists. split; [discriminate|]. split; [reflexivity|].
    exists rest. cbn [processes set_processes]. rewrite lookup_insert_eq.
    split; [unfold reading; cbn; now destruct (returncode pr)|].
    now rewrite <- app_assoc, Hcat.
Qed.

(** The record at the head of a stream is the first one the scanner finds
    in any part of the stream that holds a closing tag. *)
Lemma complete_record_spec (tag_name stretch : bytes) :
  complete_record tag_name stretch = true ->
  0 <= find stretch (opening_tag tag_name)
  /\ find stretch (opening_tag tag_name) + len (opening_tag tag_name)
     <= find stretch (closing_tag tag_name)
  /\ find stretch (closing_tag tag_name) + len (closing_tag tag_name) = len stretch.
Proof.
  unfold complete_record. intros H.
  apply andb_true_iff in H as [H H3]. apply andb_true_iff in H as [H1 H2].
  apply Z.leb_le in H1, H2. apply Z.eqb_eq in H3. now repeat split.
Qed.

Lemma extract_head_record (tag_name stretch rest data more : bytes) :
  complete_record tag_name stretch = true ->
  data ++ more = stretch ++ rest ->
  find data (closing_tag tag_name) <> -1 ->
  exists data', data = stretch ++ data'
                /\ _extract_tag_from_data data tag_name
                   = (Some (record_of tag_name stretch), data').
Proof.
  intros Hrec Hsplit Hfound.
  destruct (complete_record_spec _ _ Hrec) as (Hopen & Hclose & Hend).
  pose proof (len_nonneg (opening_tag tag_name)) as Ho.
  pose proof (len_nonneg (closing_tag tag_name)) as Hc.
  assert (Hpos : find data (closing_tag tag_name) = find stretch (closing_tag tag_name)).
  { rewrite <- (find_extend data _ more Hfound), Hsplit. apply find_extend. lia. }
  destruct (find_bounds data (closing_tag tag_name)) as [|[H0 H1]]; [contradiction|].
  assert (Hlen : (length stretch <= length data)%nat) by (unfold len in *; lia).
  assert (Hdata : data = stretch ++ drop (length stretch) data).
  { rewrite <- (take_drop (length stretch) data) at 1. f_equal.
    apply (f_equal (take (length stretch))) in Hsplit.
    rewrite take_app_le in Hsplit by exact Hlen.
    now rewrite take_app_length in Hsplit. }
  exists (drop (length stretch) data). split; [exact Hdata|].
  unfold _extract_tag_from_data. rewrite Hpos.
  replace (find stretch (closing_tag tag_name) =? -1) with false
    by (symmetry; apply Z.eqb_neq; lia).
  cbn [negb]. rewrite Hend.
  replace (find data (opening_tag tag_name)) with (find stretch (opening_tag tag_name)).
  2:{ rewrite Hdata. symmetry. apply find_extend. lia. }
  rewrite Hdata at 1 2. f_equal.
  - f_equal. rewrite slice_app_inside by lia.
    unfold record_of, slice, slice_from. rewrite !clamp_inside by lia.
    apply take_ge. rewrite length_drop. unfold len. lia.
  - apply slice_from_prefix.
Qed.

Lemma complete_record_not_empty (tag_name stretch : bytes) :
  complete_record tag_name stretch = true ->
  truthy_bytes (record_of tag_name stretch) = true.
Proof.
  intros H. destruct (complete_record_spec _ _ H) as (Hopen & Hclose & Hend).
  pose proof (closing_tag_not_empty tag_name) as Hpos.
  pose proof (len_nonneg (opening_tag tag_name)) as Ho.
  assert (Hl : (0 < length (record_of tag_name stretch))%nat).
  { unfold record_of. rewrite length_slice_from by lia. unfold len in *. lia. }
  destruct (record_of tag_name stretch); [cbn in Hl; lia|reflexivity].
Qed.

(** A stream that begins with a complete record holds a closing tag. *)
Lemma complete_record_found (tag_name stretch rest : bytes) :
  complete_record tag_name stretch = true ->
  find (stretch ++ rest) (closing_tag tag_name) <> -1.
Proof.
  intros H. destruct (complete_record_spec _ _ H) as (Hopen & Hclose & _).
  pose proof (len_nonneg (opening_tag tag_name)) as Ho.
  rewrite find_extend; lia.
Qed.

(** What [_get_packet_from_stream] makes of a record in tagged-markup
    mode. *)
Lemma get_packet_of_record (stream : pid) (data record rest : bytes)
    (got_first_packet : bool) (psml_structure : option (PsmlStructure E))
    (s : state) :
  use_json self = false ->
  _extract_tag_from_data data (b "packet") = (Some record, rest) ->
  truthy_bytes record = true ->
  _get_packet_from_stream E self stream data got_first_packet psml_structure s
  = (match packet_from_xml_packet E (sanitized record) psml_structure with
     | inr pkt => Ok (Some (Packet E pkt), rest)
     | inl e => Raise e
     end, s).
Proof.
  intros Hjson Hextract Htruthy.
  unfold _get_packet_from_stream. rewrite Hjson, Hextract.
  cbn [truthy_opt_bytes]. rewrite Htruthy.
  change (default [] (Some record)) with record.
  unfold sanitized, bind, ret, raise, lift.
  destruct (utf8_decode strict record) as [text|] eqn:Hvalid.
  - now destruct (packet_from_xml_packet E record psml_structure).
  - destruct (utf8_sanitized_decodes record) as (clean & text & Hclean & Htext & _).
    rewrite Hclean, Htext. change (default record (Some clean)) with clean.
    now destruct (packet_from_xml_packet E clean psml_structure).
Qed.

(** Without a closing tag in the buffer, [_get_packet_from_stream] reads. *)
Lemma get_packet_reads (fd : pid) (data : bytes)
    (got_first_packet : bool) (psml_structure : option (PsmlStructure E))
    (s : state) :
  use_json self = false ->
  find data (closing_tag (b "packet")) = -1 ->
  _get_packet_from_stream E self fd data got_first_packet psml_structure s
  = match read E fd DEFAULT_BATCH_SIZE s with
    | (Ok new_data, s1) =>
        if truthy_bytes new_data then (Ok (None, data ++ new_data), s1)
        else (Raise EOFError, s1)
    | (Raise e, s1) => (Raise e, s1)
    | (Diverge, s1) => (Diverge, s1)
    end.
Proof.
  intros Hjson Hnone. unfold _get_packet_from_stream. rewrite Hjson.
  unfold _extract_tag_from_data. rewrite Hnone.
  change (-1 =? -1) with true. cbn [negb truthy_opt_bytes].
  unfold bind, ret, raise.
  destruct (read E fd DEFAULT_BATCH_SIZE s) as [[chunk|e|] s1]; try reflexivity.
  now destruct (truthy_bytes chunk).
Qed.

(** One turn of a read loop in tagged-markup mode, over a stream that
    begins with a complete record. *)
Lemma get_packet_at_record (fd : pid) (pr : process) (data record rest : bytes)
    (got_first_packet : bool) (psml_structure : option (PsmlStructure E))
    (s : state) (pkt : XmlPacket E) :
  use_json self = false ->
  complete_record (b "packet") record = true ->
  packet_from_xml_packet E (sanitized (record_of (b "packet") record)) psml_structure
  = inr pkt ->
  feeds E fd pr data (record ++ rest) s ->
  (exists data',
      _get_packet_from_stream E self fd data got_first_packet psml_structure s
      = (Ok (Some (Packet E pkt), data'), s)
      /\ feeds E fd pr data' rest s)
  \/ (exists data' pr',
         _get_packet_from_stream E self fd data got_first_packet psml_structure s
         = (Ok (None, data'), set_processes E (<[fd := pr']> (processes E s)) s)
         /\ feeds E fd pr data' (record ++ rest)
              (set_processes E (<[fd := pr']> (processes E s)) s)).
Proof.
  intros Hjson Hrec Hpkt Hfeeds.
  destruct (Z.eq_dec (find data (closing_tag (b "packet"))) (-1)) as [Hnone|Hfound].
  - right. rewrite get_packet_reads by assumption.
    destruct (read_feeds fd pr DEFAULT_BATCH_SIZE data _ s eq_refl Hfeeds)
      as [(chunk & pr' & Hne & -> & Hfeeds1)|[Hdata _]].
    + destruct chunk as [|c chunk]; [contradiction|]. cbn [truthy_bytes]. eauto.
    + exfalso. rewrite Hdata in Hnone.
      now apply (complete_record_found _ _ rest Hrec).
  - left. destruct Hfeeds as (chunks & Hpr & Hstream).
    destruct (extract_head_record _ _ _ _ _ Hrec Hstream Hfound) as (data' & Hdata & Hext).
    exists data'. split.
    + rewrite (get_packet_of_record fd data (record_of (b "packet") record) data'
                 got_first_packet psml_structure s Hjson Hext
                 (complete_record_not_empty _ _ Hrec)).
      now rewrite Hpkt.
    + exists chunks. split; [exact Hpr|].
      rewrite Hdata, <- app_assoc in Hstream. now apply app_inv_head in Hstream.
Qed.

(** One turn of a read loop over what follows the last record. *)
Lemma get_packet_at_tail (fd : pid) (pr : process) (data tail : bytes)
    (got_first_packet : bool) (psml_structure : option (PsmlStructure E))
    (s : state) :
  use_json self = false ->
  find tail (closing_tag (b "packet")) = -1 ->
  feeds E fd pr data tail s ->
  _get_packet_from_stream E self fd data got_first_packet psml_structure s
  = (Raise EOFError, set_processes E (<[fd := drained pr]> (processes E s)) s)
  \/ (exists data' pr',
         _get_packet_from_stream E self fd data got_first_packet psml_structure s
         = (Ok (None, data'), set_processes E (<[fd := pr']> (processes E s)) s)
         /\ feeds E fd pr data' tail
              (set_processes E (<[fd := pr']> (processes E s)) s)).
Proof.
  intros Hjson Htail Hfeeds.
  assert (Hnone : find data (closing_tag (b "packet")) = -1).
  { destruct Hfeeds as (chunks & _ & Hstream).
    destruct (Z.eq_dec (find data (closing_tag (b "packet"))) (-1)) as [H|H]; [exact H|].
    rewrite <- Hstream, find_extend in Htail by exact H. contradiction. }
  rewrite get_packet_reads by assumption.
  destruct (read_feeds fd pr DEFAULT_BATCH_SIZE data _ s eq_refl Hfeeds)
    as [(chunk & pr' & Hne & -> & Hfeeds1)|[_ ->]].
  - right. destruct chunk as [|c chunk]; [contradiction|]. cbn [truthy_bytes]. eauto.
  - now left.
Qed.

End Stream.

End StreamFacts.

(** ** Delivery to the handler *)

Module DeliveryFacts.
Import Py PyFacts Capture Vocabulary.
Import ScannerFacts ParameterFacts SupervisorFacts EngineFacts.
Import ExtractionFacts CommandFacts CursorFacts ViewFacts BoundFacts HandlerFacts StreamFacts.
#[local] Open Scope monad_scope.

Section Delivery.
Context (E : Env) (self : config).

#[local] Abbreviation state := (state E).

Lemma feeds_same_processes (fd : pid) (pr : process) (data stream : bytes)
    (s s' : state) :
  processes E s' = processes E s ->
  feeds E fd pr data stream s -> feeds E fd pr data stream s'.
Proof. intros Hp (chunks & H1 & H2). exists chunks. now rewrite Hp. Qed.

(** A handler that never raises. *)
Lemma call_returns (packet_callback : callback E) (pkt : packet E) (s : state) :
  (forall p x, (packet_callback p x).1 = None) ->
  exists s', call E packet_callback pkt s = (Ok tt, s')
             /\ calls E s' = calls E s ++ [(pkt, None)]
             /\ processes E s' = processes E s.
Proof.
  intros Hquiet.
  destruct (call_spec E packet_callback pkt s) as (raised & s' & Hcall & Hlog & Hproc).
  assert (raised = None) as ->.
  { revert Hcall. unfold call. specialize (Hquiet pkt (_packets E s, user E s)).
    destruct (packet_callback pkt (_packets E s, user E s)) as [r [pkts u]].
    cbn in Hquiet. subst r. destruct raised; [discriminate|reflexivity]. }
  now exists s'.
Qed.

(** The loop of [_go_through_packets_from_fd] over a stream of complete
    records: the handler is called on the packet of each record, in the
    order of the stream, whatever the chunks the stream arrives in. *)
Lemma go_through_loop_delivers (fd : pid) (pr : process)
    (packet_callback : callback E) (psml_struct : option (PsmlStructure E))
    (tail : bytes) (steps : nat) :
  use_json self = false ->
  (forall p x, (packet_callback p x).1 = None) ->
  find tail (closing_tag (b "packet")) = -1 ->
  forall (records : list bytes) (pkts : list (XmlPacket E))
         (data : bytes) (packets_captured : Z) (s : state),
    Forall2 (decodes E psml_struct) records pkts ->
    feeds E fd pr data (concat records ++ tail) s ->
    (steps_left E fd data s <= steps)%nat ->
    exists s',
      go_through_loop E self steps fd packet_callback None psml_struct data
        packets_captured s = (Ok tt, s')
      /\ calls E s' = calls E s ++ map (fun pkt => (Packet E pkt, None)) pkts
      /\ processes E s' = <[fd := drained pr]> (processes E s).
Proof.
  intros Hjson Hquiet Htail.
  induction steps as [|steps IH];
    intros records pkts data packets_captured s Hrecords Hfeeds Hsteps.
  { unfold steps_left in Hsteps. lia. }
  cbn [go_through_loop].
  pose proof (get_packet_from_stream_steps E self fd data (0 <? packets_captured)
                psml_struct s) as Hless.
  change (count_reached None ?x) with false. cbv iota.
  destruct Hrecords as [|record pkt records pkts (Hrec & Hpkt & Htruthy) Hrecords].
  - cbn [concat app] in Hfeeds.
    destruct (get_packet_at_tail E self fd pr data tail (0 <? packets_captured)
                psml_struct s Hjson Htail Hfeeds) as [Hrun|(data' & pr' & Hrun & Hfeeds')];
      rewrite Hrun in *.
    + eexists. split; [reflexivity|]. split; [cbn; now rewrite app_nil_r|reflexivity].
    + destruct (IH [] [] data' packets_captured _ (List.Forall2_nil _) Hfeeds' ltac:(lia))
        as (s' & Hloop & Hcalls & Hproc).
      exists s'. split; [exact Hloop|]. split; [exact Hcalls|].
      rewrite Hproc. cbn [processes set_processes]. apply insert_insert_eq.
  - cbn [concat] in Hfeeds. rewrite <- app_assoc in Hfeeds.
    destruct (get_packet_at_record E self fd pr data record _ (0 <? packets_captured)
                psml_struct s pkt Hjson Hrec Hpkt Hfeeds)
      as [(data' & Hrun & Hfeeds')|(data' & pr' & Hrun & Hfeeds')];
      rewrite Hrun in *.
    + cbn [truthy_packet]. rewrite Htruthy.
      destruct (call_returns packet_callback (Packet E pkt) s Hquiet)
        as (s2 & -> & Hlog & Hproc).
      destruct (IH records pkts data' (packets_captured + 1) s2 Hrecords
                  (feeds_same_processes _ _ _ _ _ _ Hproc Hfeeds'))
        as (s' & Hloop & Hcalls & Hproc').
      { rewrite (steps_left_same E fd data' s s2 Hproc). lia. }
      exists s'. split; [exact Hloop|]. split.
      * rewrite Hcalls, Hlog, <- app_assoc. reflexivity.
      * now rewrite Hproc', Hproc.
    + destruct (IH (record :: records) (pkt :: pkts) data' packets_captured
                  (set_processes E (<[fd:=pr']> (processes E s)) s)
                  (List.Forall2_cons _ _ (conj Hrec (conj Hpkt Htruthy)) Hrecords))
        as (s' & Hloop & Hcalls & Hproc).
      { cbn [concat]. now rewrite <- app_assoc. }
      { lia. }
      exists s'. split; [exact Hloop|]. split; [exact Hcalls|].
      rewrite Hproc. cbn [processes set_processes]. apply insert_insert_eq.
Qed.

End Delivery.

End DeliveryFacts.

(** ** Push-all over a stream of records *)

Module PushFacts.
Import Py PyFacts Capture Vocabulary.
Import ScannerFacts ParameterFacts SupervisorFacts EngineFacts.
Import ExtractionFacts CommandFacts CursorFacts ViewFacts BoundFacts HandlerFacts StreamFacts DeliveryFacts.
#[local] Open Scope monad_scope.

Section Delivery.
Context (E : Env) (self : config).

#[local] Abbreviation state := (state E).

Lemma get_tshark_process_started (packet_count : option Z) (params : list string)
    (s : state) :
  (use_json self = true -> tshark_supports_json E (_get_tshark_version E self) = true) ->
  get_parameters E self packet_count = inr params ->
  returncode (create_subprocess_exec E (command_line E self params)) = None
  \/ returncode (create_subprocess_exec E (command_line E self params)) = Some 0 ->
  _get_tshark_process E self packet_count s
  = (Ok (next_pid E s),
     started E (create_subprocess_exec E (command_line E self params)) s).
Proof.
  intros Hjson Hparams Hrc.
  unfold _get_tshark_process, bind, command_line in *.
  set (output_type := (if use_json self then "json"
                       else if _only_summaries self then "psml" else "pdml")%string)
    in *.
  assert (Htype :
    (if use_json self
     then if negb (tshark_supports_json E (_get_tshark_version E self))
          then raise (TSharkVersionException "JSON only supported on Wireshark >= 2.2.0")
          else ret "json"%string
     else ret (if _only_summaries self then "psml" else "pdml")%string) s
    = (Ok output_type, s)).
  { unfold output_type. destruct (use_json self); [|reflexivity].
    now rewrite Hjson. }
  rewrite Htype, Hparams. cbn [lift].
  unfold raise, ret, new_process, _created_new_process, bind, get, modify.
  cbn [processes set_processes set_next_pid next_pid].
  rewrite lookup_insert_eq. cbn [mbind option_bind].
  destruct Hrc as [-> | ->]; reflexivity.
Qed.

Lemma feeds_started (pr : process) (s : state) :
  feeds E (next_pid E s) pr [] (concat (stdout pr)) (started E pr s).
Proof.
  exists (stdout pr). split; [|reflexivity].
  cbn. rewrite lookup_insert_eq. now destruct pr.
Qed.

(** X19. In tagged-markup mode without summaries, if tshark starts and its
    whole output is a sequence of stretches that each end with a complete
    packet record (bytes before the opening tag allowed) followed by a
    tail without closing tag, and the decoder turns each record into a
    truthy packet, then [apply_on_packets] without [packet_count] calls a
    handler that never raises on exactly these packets, once each and in
    the order of the stream, however the output is cut into chunks; it
    then ends as [close_async] does, on a session in which the process is
    in the running set and its output has been read to the end. *)
Theorem push_delivers_every_record (packet_callback : callback E)
    (params : list string) (records : list bytes) (pkts : list (XmlPacket E))
    (tail : bytes) (s : state) :
  use_json self = false ->
  _only_summaries self = false ->
  get_parameters E self None = inr params ->
  returncode (create_subprocess_exec E (command_line E self params)) = None
  \/ returncode (create_subprocess_exec E (command_line E self params)) = Some 0 ->
  concat (stdout (create_subprocess_exec E (command_line E self params)))
  = concat records ++ tail ->
  Forall2 (decodes E None) records pkts ->
  find tail (closing_tag (b "packet")) = -1 ->
  (forall p x, (packet_callback p x).1 = None) ->
  calls E (apply_on_packets E self packet_callback None s).2
  = calls E s ++ map (fun pkt => (Packet E pkt, None)) pkts
  /\ exists s1,
       apply_on_packets E self packet_callback None s = close_async E s1
       /\ _running_processes E s1 = {[next_pid E s]} ∪ _running_processes E s
       /\ processes E s1 !! next_pid E s
          = Some (drained (create_subprocess_exec E (command_line E self params))).
Proof.
  intros Hjson Hsummaries Hparams Hrc Hstream Hrecords Htail Hquiet.
  set (pr := create_subprocess_exec E (command_line E self params)) in *.
  unfold apply_on_packets, packets_from_tshark, bind.
  rewrite (get_tshark_process_started None params s) by (assumption || congruence).
  fold pr.
  pose proof (feeds_started pr s) as Hfeeds. rewrite Hstream in Hfeeds.
  unfold _go_through_packets_from_fd, _get_psml_struct, bind, ret.
  rewrite Hsummaries.
  destruct (go_through_loop_delivers E self (next_pid E s) pr packet_callback None tail
              (steps_left E (next_pid E s) [] (started E pr s)) Hjson Hquiet Htail
              records pkts [] 0 (started E pr s) Hrecords Hfeeds ltac:(lia))
    as (s1 & Hloop & Hcalls & Hproc).
  assert (Hrun : keeps (same (handles E))
                   (go_through_loop E self (steps_left E (next_pid E s) [] (started E pr s))
                      (next_pid E s) packet_callback None None [] 0)).
  { apply (same_go_through_loop E self _ (fun _ => True));
      [reflexivity|easy|now repeat split]. }
  specialize (Hrun (started E pr s)). rewrite Hloop in Hrun.
  unfold same, handles in Hrun. cbn [snd] in Hrun. injection Hrun as Hrunning _.
  unfold try_finally, try_except. rewrite Hloop.
  pose proof (preserves_close_async E s1) as (_ & _ & _ & Hclose).
  split.
  - destruct (close_async E s1) as [[[]|e|] s2]; cbn [fst snd] in *;
      now rewrite Hclose, Hcalls.
  - exists s1. split; [now destruct (close_async E s1) as [[[]|e|] s2]|].
    split; [exact Hrunning|]. rewrite Hproc. apply lookup_insert_eq.
Qed.

End Delivery.

Lemma push_delivers_every_record_witness :
  let E := Example.two_records in
  let self := Example.session false true in
  calls E (apply_on_packets E self (fun _ x => (None, x)) None (Example.boot E 0%nat)).2
  = [] ++ map (fun pkt => (Packet E pkt, None))
            [b "<packet>A</packet>"; b "<packet>B</packet>"].
Proof.
  cbv zeta.
  apply (push_delivers_every_record Example.two_records (Example.session false true)
           (fun _ x => (None, x)) ["-r"; "capture.pcap"]%string
           [b "<?xml?><pdml><packet>A</packet>"; b "<packet>B</packet>"]
           [b "<packet>A</packet>"; b "<packet>B</packet>"]
           (b "</pdml>") (Example.boot Example.two_records 0%nat)).
  - reflexivity.
  - reflexivity.
  - vm_compute. reflexivity.
  - left. reflexivity.
  - vm_compute. reflexivity.
  - apply List.Forall2_cons; [repeat split; vm_compute; reflexivity|].
    apply List.Forall2_cons; [repeat split; vm_compute; reflexivity|].
    apply List.Forall2_nil.
  - vm_compute. reflexivity.
  - reflexivity.
Defined.

End PushFacts.

(** ** Pull-one over a stream of records *)

Module PullFacts.
Import Py PyFacts Capture Vocabulary.
Import ScannerFacts ParameterFacts SupervisorFacts EngineFacts.
Import ExtractionFacts CommandFacts CursorFacts ViewFacts BoundFacts HandlerFacts StreamFacts DeliveryFacts PushFacts.
#[local] Open Scope monad_scope.

Section Loop.
Context (E : Env) (self : config).

#[local] Abbreviation state := (state E).

(** The loop of the generator over a stream that begins with a complete
    record: it yields the packet of that record. *)
Lemma sync_loop_yields (fd : pid) (pr : process) (record rest : bytes)
    (pkt : XmlPacket E) (steps : nat) :
  use_json self = false ->
  decodes E None record pkt ->
  forall (data : bytes) (packets_captured : Z) (s : state),
    feeds E fd pr data (record ++ rest) s ->
    (steps_left E fd data s <= steps)%nat ->
    exists data' pr',
      sync_loop E self steps fd None data packets_captured s
      = (Ok (Packet E pkt),
         set_packet_generator E (GenSuspended E fd None data' (packets_captured + 1))
           (set_processes E (<[fd := pr']> (processes E s)) s))
      /\ feeds E fd pr data' rest (set_processes E (<[fd := pr']> (processes E s)) s).
Proof.
  intros Hjson (Hrec & Hpkt & Htruthy).
  induction steps as [|steps IH]; intros data packets_captured s Hfeeds Hsteps.
  { unfold steps_left in Hsteps. lia. }
  cbn [sync_loop].
  pose proof (get_packet_from_stream_steps E self fd data (0 <? packets_captured)
                None s) as Hless.
  destruct (get_packet_at_record E self fd pr data record rest (0 <? packets_captured)
              None s pkt Hjson Hrec Hpkt Hfeeds)
    as [(data' & Hrun & Hfeeds')|(data' & pr' & Hrun & Hfeeds')];
    rewrite Hrun in *.
  - cbn [truthy_packet]. rewrite Htruthy.
    destruct Hfeeds' as (chunks & Hpr & Hstream).
    exists data', (reading pr chunks).
    rewrite insert_id by exact Hpr. rewrite set_processes_same.
    split; [reflexivity|]. now exists chunks.
  - destruct (IH data' packets_captured _ Hfeeds' ltac:(lia))
      as (data'' & pr'' & Hloop & Hfeeds'').
    exists data'', pr''. rewrite Hloop.
    cbn [processes set_processes] in *. rewrite insert_insert_eq in *.
    split; [reflexivity|exact Hfeeds''].
Qed.

(** The same loop over what follows the last record: the generator
    finishes. *)
Lemma sync_loop_ends (fd : pid) (pr : process) (tail : bytes) (steps : nat) :
  use_json self = false ->
  find tail (closing_tag (b "packet")) = -1 ->
  forall (data : bytes) (packets_captured : Z) (s : state),
    feeds E fd pr data tail s ->
    (steps_left E fd data s <= steps)%nat ->
    sync_loop E self steps fd None data packets_captured s
    = sync_finally E fd StopIteration
        (set_processes E (<[fd := drained pr]> (processes E s)) s).
Proof.
  intros Hjson Htail.
  induction steps as [|steps IH]; intros data packets_captured s Hfeeds Hsteps.
  { unfold steps_left in Hsteps. lia. }
  cbn [sync_loop].
  pose proof (get_packet_from_stream_steps E self fd data (0 <? packets_captured)
                None s) as Hless.
  destruct (get_packet_at_tail E self fd pr data tail (0 <? packets_captured)
              None s Hjson Htail Hfeeds) as [Hrun|(data' & pr' & Hrun & Hfeeds')];
    rewrite Hrun in *; [reflexivity|].
  rewrite (IH data' packets_captured _ Hfeeds' ltac:(lia)).
  cbn [processes set_processes]. now rewrite insert_insert_eq.
Qed.

End Loop.

Section Pull.
Context (E : Env) (self : config) (params : list string).

#[local] Abbreviation state := (state E).
#[local] Abbreviation pr := (create_subprocess_exec E (command_line E self params)).

Hypothesis tagged_markup : use_json self = false.
Hypothesis no_summaries : _only_summaries self = false.
Hypothesis parameters : get_parameters E self None = inr params.
Hypothesis alive : returncode pr = None \/ returncode pr = Some 0.

(** A [send] comes down to the loop of the generator, in a state in which
    the generator is marked finished. *)
Lemma send_runs_loop (stream : bytes) (s : state) :
  pulling E pr stream s ->
  exists fd data n s0,
    _packet_generator_send E self s
    = sync_loop E self (steps_left E fd data s0) fd None data n s0
    /\ feeds E fd pr data stream s0
    /\ _packet_generator E s0 = GenFinished E.
Proof.
  unfold pulling, _packet_generator_send, bind, get, modify.
  destruct (_packet_generator E s) as [|fd psml data n|] eqn:Hgen; [| |contradiction].
  - intros Hstream.
    rewrite (get_tshark_process_started E self None params) by (assumption || congruence).
    unfold _get_psml_struct. rewrite no_summaries. unfold ret.
    rewrite (get_tshark_process_started E self None params) by (assumption || congruence).
    cbn [fst].
    eexists _, [], 0, _. split; [reflexivity|]. split; [|reflexivity].
    rewrite <- Hstream. apply feeds_started.
  - intros [-> Hfeeds].
    exists fd, data, n, (set_packet_generator E (GenFinished E) s).
    split; [reflexivity|]. split; [|reflexivity].
    now apply (feeds_same_processes E fd pr data stream s).
Qed.

Lemma send_yields (record rest : bytes) (pkt : XmlPacket E) (s : state) :
  decodes E None record pkt ->
  pulling E pr (record ++ rest) s ->
  exists s', _packet_generator_send E self s = (Ok (Packet E pkt), s')
             /\ pulling E pr rest s'.
Proof.
  intros Hdec Hpull.
  destruct (send_runs_loop _ _ Hpull) as (fd & data & n & s0 & -> & Hfeeds & _).
  destruct (sync_loop_yields E self fd pr record rest pkt (steps_left E fd data s0)
              tagged_markup Hdec data n s0 Hfeeds ltac:(lia))
    as (data' & pr' & -> & Hfeeds').
  eexists. split; [reflexivity|]. unfold pulling. cbn. split; [reflexivity|].
  exact Hfeeds'.
Qed.

Lemma send_ends (tail : bytes) (s : state) :
  find tail (closing_tag (b "packet")) = -1 ->
  cleans_up_quietly E (drained pr) = true ->
  pulling E pr tail s ->
  exists s', _packet_generator_send E self s = (Raise StopIteration, s')
             /\ _packet_generator E s' = GenFinished E.
Proof.
  intros Htail Hquiet Hpull.
  destruct (send_runs_loop _ _ Hpull) as (fd & data & n & s0 & -> & Hfeeds & Hgen).
  rewrite (sync_loop_ends E self fd pr tail (steps_left E fd data s0) tagged_markup
             Htail data n s0 Hfeeds ltac:(lia)).
  set (s1 := set_processes E _ s0).
  unfold sync_finally, bind, get, ret, raise.
  destruct (decide (fd ∈ _running_processes E s1)); [|now exists s1].
  destruct (cleanup_quiet E fd s1) as [r ->].
  { intros pr0. unfold s1. cbn [processes set_processes]. rewrite lookup_insert_eq.
    now intros [= <-]. }
  eexists. split; [reflexivity|]. exact Hgen.
Qed.

(** [next] when the packet is to come from the generator. *)
Lemma next_pulls (pkt : packet E) (s s1 : state) :
  (keep_packets self = true -> _current_packet E s = length (_packets E s)) ->
  _packet_generator_send E self s = (Ok pkt, s1) ->
  exists s',
    next E self s = (Ok pkt, s')
    /\ _packet_generator E s' = _packet_generator E s1
    /\ processes E s' = processes E s1
    /\ _packets E s' = (if keep_packets self then _packets E s ++ [pkt]
                        else _packets E s)
    /\ (keep_packets self = true -> _current_packet E s' = length (_packets E s')).
Proof.
  intros Hat Hsend.
  pose proof (preserves_packet_generator_send E self s) as (Hp & Hc & _).
  rewrite Hsend in Hp, Hc. cbn [snd] in Hp, Hc.
  unfold next. destruct (keep_packets self); cbn [negb].
  - specialize (Hat eq_refl). unfold bind, get, modify, ret.
    replace (length (_packets E s) <=? _current_packet E s)%nat with true
      by (symmetry; apply Nat.leb_le; lia).
    rewrite Hsend. unfold next_packet, bind, get, modify, ret, raise.
    cbn [_packets set_packets _current_packet].
    rewrite Hp, Hc, Hat, list_lookup_middle by reflexivity.
    eexists. split; [reflexivity|]. cbn. rewrite length_app. cbn.
    repeat split. intros _. lia.
  - exists s1. rewrite Hsend. repeat split; [exact Hp|discriminate].
Qed.

Lemma next_fails (e : exn) (s s1 : state) :
  (keep_packets self = true -> _current_packet E s = length (_packets E s)) ->
  _packet_generator_send E self s = (Raise e, s1) ->
  next E self s = (Raise e, s1).
Proof.
  intros Hat Hsend. unfold next. destruct (keep_packets self); cbn [negb]; [|exact Hsend].
  specialize (Hat eq_refl). unfold bind, get, modify, ret.
  replace (length (_packets E s) <=? _current_packet E s)%nat with true
    by (symmetry; apply Nat.leb_le; lia).
  now rewrite Hsend.
Qed.

Lemma pulling_same (stream : bytes) (s s' : state) :
  _packet_generator E s' = _packet_generator E s ->
  processes E s' = processes E s ->
  pulling E pr stream s -> pulling E pr stream s'.
Proof.
  unfold pulling. intros -> Hp.
  destruct (_packet_generator E s); [easy| |easy].
  intros [-> H]. split; [reflexivity|].
  now apply (feeds_same_processes E _ _ _ _ s).
Qed.

Lemma next_n_pulls (tail : bytes) (records : list bytes) (pkts : list (XmlPacket E)) :
  Forall2 (decodes E None) records pkts ->
  forall s : state,
    pulling E pr (concat records ++ tail) s ->
    (keep_packets self = true -> _current_packet E s = length (_packets E s)) ->
    exists s',
      next_n E self (length records) s = (map (fun pkt => Ok (Packet E pkt)) pkts, s')
      /\ pulling E pr tail s'
      /\ _packets E s' = (if keep_packets self
                          then _packets E s ++ map (Packet E) pkts
                          else _packets E s)
      /\ (keep_packets self = true -> _current_packet E s' = length (_packets E s')).
Proof.
  induction 1 as [|record pkt records pkts Hdec Hrecords IH]; intros s Hpull Hat.
  - exists s. cbn. rewrite app_nil_r. repeat split; try assumption.
    now destruct (keep_packets self).
  - cbn [concat] in Hpull. rewrite <- app_assoc in Hpull.
    destruct (send_yields record _ pkt s Hdec Hpull) as (s1 & Hsend & Hpull1).
    destruct (next_pulls _ s s1 Hat Hsend) as (s2 & Hnext & Hgen & Hproc & Hpkts & Hat2).
    destruct (IH s2 (pulling_same _ s1 s2 Hgen Hproc Hpull1) Hat2)
      as (s' & Hrun & Hpull' & Hpkts' & Hat').
    exists s'. cbn [length next_n]. rewrite Hnext. cbn [fst snd]. rewrite Hrun.
    split; [reflexivity|]. split; [exact Hpull'|]. split; [|exact Hat'].
    rewrite Hpkts', Hpkts. destruct (keep_packets self); [|reflexivity].
    now rewrite <- app_assoc.
Qed.

(** X20. In tagged-markup mode without summaries, on a session whose
    generator has not started (and whose cursor is at the end of the
    retained packets if it keeps them), if tshark starts, its clean-up
    raises nothing once its output is read to the end (it has exited
    without a positive status, or it is killed without an error), and its
    whole output is a sequence of complete packet records followed by a
    tail without closing tag, each decoded to a truthy packet, then as many calls of [next] as there are records
    return these packets, one per call and in the order of the stream, the
    following call raises [StopIteration], and the retained packets are
    the old ones followed by these packets if [keep_packets] is set and
    unchanged otherwise. *)
Theorem pull_yields_every_record (records : list bytes) (pkts : list (XmlPacket E))
    (tail : bytes) (s : state) :
  cleans_up_quietly E (drained pr) = true ->
  concat (stdout pr) = concat records ++ tail ->
  Forall2 (decodes E None) records pkts ->
  find tail (closing_tag (b "packet")) = -1 ->
  _packet_generator E s = GenCreated E ->
  (keep_packets self = true -> _current_packet E s = length (_packets E s)) ->
  (next_n E self (length records) s).1 = map (fun pkt => Ok (Packet E pkt)) pkts
  /\ (next E self (next_n E self (length records) s).2).1 = Raise StopIteration
  /\ _packets E (next_n E self (length records) s).2
     = (if keep_packets self then _packets E s ++ map (Packet E) pkts
        else _packets E s).
Proof.
  intros Hquiet Hstream Hrecords Htail Hgen Hat.
  assert (Hpull : pulling E pr (concat records ++ tail) s).
  { unfold pulling. now rewrite Hgen. }
  destruct (next_n_pulls tail records pkts Hrecords s Hpull Hat)
    as (s' & -> & Hpull' & Hpkts & Hat').
  cbn [fst snd]. split; [reflexivity|]. split; [|exact Hpkts].
  destruct (send_ends tail s' Htail Hquiet Hpull') as (s'' & Hsend & _).
  now rewrite (next_fails _ s' s'' Hat' Hsend).
Qed.

End Pull.

Section Generator.
Context (E : Env) (self : config).

#[local] Abbreviation state := (state E).

(** A [send] that raises leaves the generator finished. *)
Lemma send_raise_finished (e : exn) (s s' : state) :
  _packet_generator_send E self s = (Raise e, s') ->
  _packet_generator E s' = GenFinished E.
Proof.
  assert (Hspawn : keeps (same (_packet_generator E))
                     (_get_tshark_process E self None)).
  { apply (same_get_tshark_process E self _ (fun _ => True));
      [reflexivity|easy|now split]. }
  assert (Hloop : forall steps fd psml data n (s0 s1 : state) e0,
             sync_loop E self steps fd psml data n s0 = (Raise e0, s1) ->
             _packet_generator E s1 = _packet_generator E s0).
  { intros steps fd psml data n s0 s1 e0 Hrun.
    pose proof (sync_loop_view E self (_packet_generator E) (fun _ => True)
                  ltac:(reflexivity) steps fd psml data n s0 I) as Hview.
    now rewrite Hrun in Hview. }
  unfold _packet_generator_send, bind, get, modify.
  destruct (_packet_generator E s) as [|fd psml data n|] eqn:Hgen.
  - pose proof (Hspawn (set_packet_generator E (GenFinished E) s)) as H1.
    unfold same in H1.
    destruct (_get_tshark_process E self None _) as [[p1|e1|] s1]; cbn in H1;
      [|now intros [= <- <-]|discriminate].
    pose proof (same_get_psml_struct E self (_packet_generator E) (fun _ => True)
                  ltac:(reflexivity) p1 I s1) as H2.
    unfold same in H2.
    destruct (_get_psml_struct E self p1 s1) as [[r|e2|] s2]; cbn [fst snd] in H2;
      [|intros [= <- <-]; congruence|discriminate].
    pose proof (Hspawn s2) as H3.
    unfold same in H3.
    destruct (_get_tshark_process E self None s2) as [[p2|e3|] s3]; cbn [fst snd] in H3;
      [|intros [= <- <-]; congruence|discriminate].
    intros Hrun. apply Hloop in Hrun. congruence.
  - intros Hrun. now apply Hloop in Hrun.
  - now intros [= <- <-].
Qed.

(** X21. Once [next] has raised (on a session whose cursor is in range if it
    keeps its packets), whatever the error (a crash of tshark, a
    decoder error, the end of the stream), the next call of [next] raises
    [StopIteration] and changes nothing: the generator is finished and is
    never restarted. *)
Theorem next_after_an_error (e : exn) (s s' : state) :
  (keep_packets self = true -> cursor_in_range E s) ->
  next E self s = (Raise e, s') ->
  next E self s' = (Raise StopIteration, s').
Proof.
  intros Hin Hnext.
  assert (Hsend : _packet_generator_send E self s = (Raise e, s')
                  /\ (keep_packets self = true ->
                      _current_packet E s' = length (_packets E s'))).
  { destruct (keep_packets self) eqn:Hkeep.
    - pose proof (next_spec E self s Hkeep (Hin eq_refl)) as Hspec.
      rewrite Hnext in Hspec. destruct Hspec as ((Hp & Hc & _) & Hat & Hsend).
      split; [exact Hsend|]. intros _. now rewrite Hp, Hc.
    - split; [|discriminate]. revert Hnext. unfold next. now rewrite Hkeep. }
  destruct Hsend as [Hsend Hat].
  apply send_raise_finished in Hsend.
  assert (Hagain : _packet_generator_send E self s' = (Raise StopIteration, s')).
  { unfold _packet_generator_send, bind, get. now rewrite Hsend. }
  unfold next. destruct (keep_packets self); cbn [negb]; [|exact Hagain].
  specialize (Hat eq_refl). unfold bind, get, modify, ret.
  replace (length (_packets E s') <=? _current_packet E s')%nat with true
    by (symmetry; apply Nat.leb_le; lia).
  now rewrite Hagain.
Qed.

(** X22. Resuming the generator of [next] once it has started neither starts
    a process nor changes the running set. Its first step, without
    summaries and when tshark starts, starts two tshark processes and puts
    both handles in the running set; after that step the first process is
    still as it was started: nothing has been read from its output. *)
Theorem generator_keeps_its_processes (params : list string) (s : state) :
  (_packet_generator E s <> GenCreated E ->
   _running_processes E (_packet_generator_send E self s).2 = _running_processes E s
   /\ next_pid E (_packet_generator_send E self s).2 = next_pid E s)
  /\ (_packet_generator E s = GenCreated E ->
      _only_summaries self = false ->
      (use_json self = true ->
       tshark_supports_json E (_get_tshark_version E self) = true) ->
      get_parameters E self None = inr params ->
      returncode (create_subprocess_exec E (command_line E self params)) = None
      \/ returncode (create_subprocess_exec E (command_line E self params)) = Some 0 ->
      _running_processes E (_packet_generator_send E self s).2
      = {[S (next_pid E s)]} ∪ ({[next_pid E s]} ∪ _running_processes E s)
      /\ next_pid E (_packet_generator_send E self s).2 = S (S (next_pid E s))
      /\ processes E (_packet_generator_send E self s).2 !! next_pid E s
         = Some (create_subprocess_exec E (command_line E self params))).
Proof.
  assert (Hloop : forall {V} (view : state -> V) steps fd psml data n (s0 : state),
             (forall q pr0 s1, q = fd ->
                view (set_processes E (<[q := pr0]> (processes E s1)) s1) = view s1) ->
             (forall g s1, view (set_packet_generator E g s1) = view s1) ->
             view (sync_loop E self steps fd psml data n s0).2 = view s0).
  { intros V view steps fd psml data n s0 Hv Hg.
    pose proof (sync_loop_view E self view (fun q => q = fd) Hv steps fd psml data n s0
                  eq_refl) as Hview.
    destruct (sync_loop E self steps fd psml data n s0) as [[pkt|e|] s1];
      cbn [snd]; try exact Hview.
    destruct Hview as (s2 & d & m & H1 & ->). now rewrite Hg. }
  split.
  - intros Hgen. unfold _packet_generator_send, bind, get, modify.
    destruct (_packet_generator E s) as [|fd psml data n|]; [contradiction| |easy].
    set (s0 := set_packet_generator E (GenFinished E) s).
    change (_running_processes E s) with (_running_processes E s0).
    change (next_pid E s) with (next_pid E s0).
    split; [apply (Hloop _ (_running_processes E))|apply (Hloop _ (next_pid E))];
      reflexivity.
  - intros Hgen Hsum Hjson Hparams Hrc. unfold _packet_generator_send, bind, get, modify.
    rewrite Hgen.
    rewrite (get_tshark_process_started E self None params) by assumption.
    unfold _get_psml_struct. rewrite Hsum. unfold ret.
    rewrite (get_tshark_process_started E self None params) by assumption.
    set (pr := create_subprocess_exec E (command_line E self params)) in *.
    set (s0 := set_packet_generator E (GenFinished E) s).
    set (s2 := started E pr (started E pr s0)).
    cbn [fst].
    change (next_pid E (started E pr s0)) with (S (next_pid E s)).
    split; [|split].
    + rewrite (Hloop _ (_running_processes E)) by reflexivity. reflexivity.
    + rewrite (Hloop _ (next_pid E)) by reflexivity. reflexivity.
    + rewrite (Hloop _ (fun s1 => processes E s1 !! next_pid E s)).
      * unfold s2, started. cbn. rewrite lookup_insert_ne by lia.
        apply lookup_insert_eq.
      * intros q pr0 s1 ->. cbn. apply lookup_insert_ne. lia.
      * reflexivity.
Qed.

End Generator.

Lemma pull_yields_every_record_witness :
  let E := Example.two_records in
  let self := Example.session false true in
  let s := Example.boot E 0%nat in
  (next_n E self 2 s).1
  = map (fun pkt => Ok (Packet E pkt)) [b "<packet>A</packet>"; b "<packet>B</packet>"]
  /\ (next E self (next_n E self 2 s).2).1 = Raise StopIteration
  /\ _packets E (next_n E self 2 s).2
     = [] ++ map (Packet E) [b "<packet>A</packet>"; b "<packet>B</packet>"].
Proof.
  cbv zeta.
  apply (pull_yields_every_record Example.two_records (Example.session false true)
           ["-r"; "capture.pcap"]%string eq_refl eq_refl eq_refl (or_introl eq_refl)
           [b "<?xml?><pdml><packet>A</packet>"; b "<packet>B</packet>"]
           [b "<packet>A</packet>"; b "<packet>B</packet>"]
           (b "</pdml>") (Example.boot Example.two_records 0%nat)).
  - vm_compute. reflexivity.
  - vm_compute. reflexivity.
  - apply List.Forall2_cons; [repeat split; vm_compute; reflexivity|].
    apply List.Forall2_cons; [repeat split; vm_compute; reflexivity|].
    apply List.Forall2_nil.
  - vm_compute. reflexivity.
  - reflexivity.
  - reflexivity.
Defined.

Lemma next_after_an_error_witness :
  let E := Example.crashing 2 in
  let self := Example.session false true in
  let s' := (next E self (Example.boot E 0%nat)).2 in
  next E self s' = (Raise StopIteration, s').
Proof.
  cbv zeta.
  apply (next_after_an_error (Example.crashing 2) (Example.session false true)
           (TSharkCrashException
              "TShark seems to have crashed (retcode: 2). Try rerunning in debug mode [ capture_obj.set_debug() ] or try updating tshark.")
           (Example.boot (Example.crashing 2) 0%nat)).
  - intros _. apply le_n.
  - vm_compute. reflexivity.
Defined.

Lemma generator_keeps_its_processes_witness :
  let E := Example.two_records in
  let self := Example.session false true in
  let s1 := (_packet_generator_send E self (Example.boot E 0%nat)).2 in
  (_running_processes E s1 = {[1%nat]} ∪ ({[0%nat]} ∪ ∅) /\ next_pid E s1 = 2%nat)
  /\ _running_processes E (_packet_generator_send E self s1).2 = _running_processes E s1
  /\ next_pid E (_packet_generator_send E self s1).2 = next_pid E s1.
Proof.
  cbv zeta. split.
  - destruct (proj2 (generator_keeps_its_processes Example.two_records
                       (Example.session false true) ["-r"; "capture.pcap"]%string
                       (Example.boot Example.two_records 0%nat)))
      as (Hrunning & Hnext & _).
    + reflexivity.
    + reflexivity.
    + discriminate.
    + vm_compute. reflexivity.
    + left. reflexivity.
    + split; [exact Hrunning|exact Hnext].
  - apply (proj1 (generator_keeps_its_processes Example.two_records
                    (Example.session false true) []
                    (_packet_generator_send Example.two_records
                       (Example.session false true)
                       (Example.boot Example.two_records 0%nat)).2)).
    vm_compute. discriminate.
Defined.

End PullFacts.

(** ** Loading packets *)

Module LoadFacts.
Import Py PyFacts Capture Vocabulary.
Import ScannerFacts ParameterFacts SupervisorFacts EngineFacts.
Import ExtractionFacts CommandFacts CursorFacts ViewFacts BoundFacts HandlerFacts StreamFacts DeliveryFacts PushFacts PullFacts.
#[local] Open Scope monad_scope.

Section Load.
Context (E : Env) (self : config).

#[local] Abbreviation state := (state E).

(** One call of the handler of [load_packets]. *)
Lemma call_keep_packet (n init : Z) (pkt : packet E) (s : state) :
  exists s',
    call E (keep_packet E n init) pkt s
    = (if negb (n =? 0) && (n <=? len (_packets E s) + 1 - init)
       then Raise StopCapture else Ok tt, s')
    /\ _packets E s' = _packets E s ++ [pkt]
    /\ processes E s' = processes E s.
Proof.
  unfold call, keep_packet. rewrite len_app.
  change (len [pkt]) with 1.
  destruct (negb (n =? 0) && (n <=? len (_packets E s) + 1 - init));
    eexists; repeat split.
Qed.

(** The loop under the handler of [load_packets], over a stream of
    complete records: the packets are retained in the order of the stream
    until there are [n] of them. *)
Lemma go_through_loop_keeps_first (fd : pid) (pr : process)
    (psml_struct : option (PsmlStructure E)) (tail : bytes) (n init : Z)
    (steps : nat) :
  use_json self = false ->
  find tail (closing_tag (b "packet")) = -1 ->
  forall (records : list bytes) (pkts : list (XmlPacket E))
         (data : bytes) (packets_captured : Z) (s : state),
    Forall2 (decodes E psml_struct) records pkts ->
    feeds E fd pr data (concat records ++ tail) s ->
    (steps_left E fd data s <= steps)%nat ->
    n = 0 \/ len (_packets E s) - init < n ->
    exists s',
      go_through_loop E self steps fd (keep_packet E n init) None psml_struct data
        packets_captured s = (Ok tt, s')
      /\ _packets E s'
         = _packets E s
           ++ map (Packet E)
                (if n =? 0 then pkts
                 else take (Z.to_nat (n - (len (_packets E s) - init))) pkts).
Proof.
  intros Hjson Htail.
  induction steps as [|steps IH];
    intros records pkts data packets_captured s Hrecords Hfeeds Hsteps Hn.
  { unfold steps_left in Hsteps. lia. }
  cbn [go_through_loop].
  pose proof (get_packet_from_stream_steps E self fd data (0 <? packets_captured)
                psml_struct s) as Hless.
  change (count_reached None ?x) with false. cbv iota.
  destruct Hrecords as [|record pkt records pkts (Hrec & Hpkt & Htruthy) Hrecords].
  - cbn [concat app] in Hfeeds.
    destruct (get_packet_at_tail E self fd pr data tail (0 <? packets_captured)
                psml_struct s Hjson Htail Hfeeds) as [Hrun|(data' & pr' & Hrun & Hfeeds')];
      rewrite Hrun in *.
    + eexists. split; [reflexivity|]. cbn [_packets set_processes].
      rewrite take_nil. destruct (n =? 0); cbn; now rewrite app_nil_r.
    + destruct (IH [] [] data' packets_captured _ (List.Forall2_nil _) Hfeeds'
                  ltac:(lia) Hn) as (s' & Hloop & Hpkts).
      exists s'. split; [exact Hloop|exact Hpkts].
  - cbn [concat] in Hfeeds. rewrite <- app_assoc in Hfeeds.
    destruct (get_packet_at_record E self fd pr data record _ (0 <? packets_captured)
                psml_struct s pkt Hjson Hrec Hpkt Hfeeds)
      as [(data' & Hrun & Hfeeds')|(data' & pr' & Hrun & Hfeeds')];
      rewrite Hrun in *.
    + cbn [truthy_packet]. rewrite Htruthy.
      destruct (call_keep_packet n init (Packet E pkt) s) as (s2 & -> & Hp2 & Hproc).
      destruct (negb (n =? 0) && (n <=? len (_packets E s) + 1 - init)) eqn:Hstop.
      * exists s2. split; [reflexivity|]. rewrite Hp2.
        apply andb_true_iff in Hstop as [H0 H1].
        apply negb_true_iff in H0. rewrite H0. apply Z.leb_le in H1.
        apply Z.eqb_neq in H0. destruct Hn as [Hn|Hn]; [contradiction|].
        replace (Z.to_nat (n - (len (_packets E s) - init))) with 1%nat by lia.
        reflexivity.
      * destruct (IH records pkts data' (packets_captured + 1) s2 Hrecords
                    (feeds_same_processes _ _ _ _ _ _ _ Hproc Hfeeds'))
          as (s' & Hloop & Hpkts).
        { rewrite (steps_left_same E fd data' s s2 Hproc). lia. }
        { rewrite Hp2, len_app. change (len [Packet E pkt]) with 1.
          apply andb_false_iff in Hstop as [H|H].
          - apply negb_false_iff, Z.eqb_eq in H. now left.
          - apply Z.leb_gt in H. right. lia. }
        exists s'. split; [exact Hloop|]. rewrite Hpkts, Hp2, <- app_assoc.
        f_equal. rewrite len_app. change (len [Packet E pkt]) with 1.
        destruct (n =? 0) eqn:H0; [reflexivity|].
        apply andb_false_iff in Hstop as [H|H];
          [rewrite ?H0 in H; discriminate H|].
        apply Z.leb_gt in H.
        replace (Z.to_nat (n - (len (_packets E s) - init)))
          with (S (Z.to_nat (n - (len (_packets E s) + 1 - init)))) by lia.
        reflexivity.
    + destruct (IH (record :: records) (pkt :: pkts) data' packets_captured
                  (set_processes E (<[fd:=pr']> (processes E s)) s)
                  (List.Forall2_cons _ _ (conj Hrec (conj Hpkt Htruthy)) Hrecords))
        as (s' & Hloop & Hpkts).
      { cbn [concat]. now rewrite <- app_assoc. }
      { lia. }
      { exact Hn. }
      exists s'. split; [exact Hloop|exact Hpkts].
Qed.

(** What clean-up raises, if it raises. *)
Lemma cleanup_subprocess_raises (process : pid) (e : exn) (s : state) :
  (_cleanup_subprocess E process s).1 = Raise e ->
  (exists msg, e = TSharkCrashException msg)
  \/ (e = OSError /\ String.eqb (os_name E) "nt" = false).
Proof.
  unfold _cleanup_subprocess, bind, get, modify, ret, raise.
  destruct (processes E s !! process) as [pr|]; [|discriminate].
  destruct (returncode pr) as [code|].
  - destruct (code >? 0); [|discriminate]. intros [= <-]. left. eauto.
  - destruct (on_kill pr); try discriminate.
    destruct (String.eqb (os_name E) "nt") eqn:Hnt; [discriminate|].
    intros [= <-]. now right.
Qed.

Lemma cleanup_each_raises (l : list pid) (e : exn) (s : state) :
  (cleanup_each E l s).1 = Raise e ->
  (exists msg, e = TSharkCrashException msg)
  \/ (e = OSError /\ String.eqb (os_name E) "nt" = false).
Proof.
  revert s. induction l as [|p l IH]; intros s; cbn [cleanup_each]; [discriminate|].
  unfold bind. pose proof (cleanup_subprocess_raises p e s) as Hone.
  destruct (_cleanup_subprocess E p s) as [[r|e'|] s1]; cbn [fst snd] in *.
  - apply IH.
  - intros [= ->]. now apply Hone.
  - discriminate.
Qed.

Lemma close_async_raises (e : exn) (s : state) :
  (close_async E s).1 = Raise e ->
  (exists msg, e = TSharkCrashException msg)
  \/ (e = OSError /\ String.eqb (os_name E) "nt" = false).
Proof.
  unfold close_async, bind, get, modify.
  pose proof (cleanup_each_raises (elements (_running_processes E s)) e s) as Hall.
  destruct (cleanup_each E (elements (_running_processes E s)) s) as [[r|e'|] s1];
    cbn [fst snd] in *; [discriminate| |discriminate].
  intros [= ->]. now apply Hall.
Qed.

(** X23. In tagged-markup mode without summaries, over a tshark output made
    of complete packet records that decode to truthy packets,
    [load_packets(n)] with [n >= 0] appends to the retained packets the
    packets of the first [n] records, or of all records when [n] is 0 or
    exceeds their number, in the order of the stream; it sets [loaded]
    when it returns and leaves [loaded] as it was when it raises. *)
Theorem load_packets_retains_the_first (n : Z) (params : list string)
    (records : list bytes) (pkts : list (XmlPacket E)) (tail : bytes) (s : state) :
  0 <= n ->
  use_json self = false ->
  _only_summaries self = false ->
  get_parameters E self None = inr params ->
  returncode (create_subprocess_exec E (command_line E self params)) = None
  \/ returncode (create_subprocess_exec E (command_line E self params)) = Some 0 ->
  concat (stdout (create_subprocess_exec E (command_line E self params)))
  = concat records ++ tail ->
  Forall2 (decodes E None) records pkts ->
  find tail (closing_tag (b "packet")) = -1 ->
  _packets E (load_packets E self n s).2
  = _packets E s ++ map (Packet E) (if n =? 0 then pkts else take (Z.to_nat n) pkts)
  /\ ((load_packets E self n s).1 = Ok tt -> loaded E (load_packets E self n s).2 = true)
  /\ ((load_packets E self n s).1 <> Ok tt ->
      loaded E (load_packets E self n s).2 = loaded E s).
Proof.
  intros Hn Hjson Hsummaries Hparams Hrc Hstream Hrecords Htail.
  set (pr := create_subprocess_exec E (command_line E self params)) in *.
  set (handler := keep_packet E n (len (_packets E s))).
  assert (Happly :
    _packets E (apply_on_packets E self handler None s).2
    = _packets E s ++ map (Packet E) (if n =? 0 then pkts else take (Z.to_nat n) pkts)
    /\ (apply_on_packets E self handler None s).1 <> Raise TimeoutError
    /\ loaded E (apply_on_packets E self handler None s).2 = loaded E s).
  { assert (H3 : loaded E (apply_on_packets E self handler None s).2 = loaded E s).
    { apply (same_apply_on_packets E self (loaded E) (fun _ => True));
        [reflexivity|easy|now split|now repeat split]. }
    assert (Hrun : exists s1,
               apply_on_packets E self handler None s = close_async E s1
               /\ _packets E s1
                  = _packets E s
                    ++ map (Packet E) (if n =? 0 then pkts else take (Z.to_nat n) pkts)).
    { unfold apply_on_packets, packets_from_tshark, bind.
      rewrite (get_tshark_process_started E self None params s)
        by (assumption || congruence).
      fold pr.
      pose proof (feeds_started E pr s) as Hfeeds. rewrite Hstream in Hfeeds.
      unfold _go_through_packets_from_fd, _get_psml_struct, bind, ret.
      rewrite Hsummaries.
      destruct (go_through_loop_keeps_first (next_pid E s) pr None tail n
                  (len (_packets E s))
                  (steps_left E (next_pid E s) [] (started E pr s)) Hjson Htail
                  records pkts [] 0 (started E pr s) Hrecords Hfeeds ltac:(lia))
        as (s1 & Hloop & Hpkts).
      { cbn [_packets started set_running_processes set_next_pid set_processes]. lia. }
      cbn [_packets started set_running_processes set_next_pid set_processes] in Hpkts.
      replace (n - (len (_packets E s) - len (_packets E s))) with n in Hpkts by lia.
      unfold try_finally, try_except. fold handler in Hloop. rewrite Hloop.
      exists s1. split; [now destruct (close_async E s1) as [[[]|e|] s2]|exact Hpkts]. }
    destruct Hrun as (s1 & Hrun & Hpkts). rewrite Hrun in *.
    pose proof (preserves_close_async E s1) as (Hclose & _).
    split; [now rewrite Hclose|]. split; [|exact H3].
    intros Hr. destruct (close_async_raises _ _ Hr) as [[msg H]|[H _]]; discriminate. }
  destruct Happly as (Hpkts & Htimeout & Hloaded).
  unfold load_packets, bind, get, try_except, modify. fold handler.
  destruct (apply_on_packets E self handler None s) as [[[]|e|] s2];
    cbn [fst snd] in *.
  - split; [exact Hpkts|]. split; [reflexivity|]. congruence.
  - destruct e; try (now destruct Htimeout); cbn [fst snd ret];
      (split; [exact Hpkts|]); (split; [discriminate|intros _; exact Hloaded]).
  - split; [exact Hpkts|]. split; [discriminate|intros _; exact Hloaded].
Qed.

End Load.

Lemma load_packets_retains_the_first_witness :
  let E := Example.two_records in
  let self := Example.session false true in
  let out := load_packets E self 1 (Example.boot E 0%nat) in
  _packets E out.2 = [] ++ map (Packet E) (take 1 [b "<packet>A</packet>"; b "<packet>B</packet>"])
  /\ loaded E out.2 = true.
Proof.
  cbv zeta.
  destruct (load_packets_retains_the_first Example.two_records
              (Example.session false true) 1 ["-r"; "capture.pcap"]%string
              [b "<?xml?><pdml><packet>A</packet>"; b "<packet>B</packet>"]
              [b "<packet>A</packet>"; b "<packet>B</packet>"]
              (b "</pdml>") (Example.boot Example.two_records 0%nat))
    as (Hpackets & Hloaded & _).
  - lia.
  - reflexivity.
  - reflexivity.
  - vm_compute. reflexivity.
  - left. reflexivity.
  - vm_compute. reflexivity.
  - apply List.Forall2_cons; [repeat split; vm_compute; reflexivity|].
    apply List.Forall2_cons; [repeat split; vm_compute; reflexivity|].
    apply List.Forall2_nil.
  - vm_compute. reflexivity.
  - split; [exact Hpackets|]. apply Hloaded. vm_compute. reflexivity.
Defined.

End LoadFacts.

(** ** Summaries, construction and failures *)

Module SessionFacts.
Import Py PyFacts Capture Vocabulary.
Import ScannerFacts ParameterFacts SupervisorFacts EngineFacts.
Import ExtractionFacts CommandFacts CursorFacts ViewFacts BoundFacts HandlerFacts StreamFacts DeliveryFacts PushFacts PullFacts LoadFacts.
#[local] Open Scope monad_scope.

Section Summaries.
Context (E : Env) (self : config).

#[local] Abbreviation state := (state E).

(** The loop of [_get_psml_struct] over a stream that begins with a
    complete [structure] record. *)
Lemma psml_struct_loop_finds (fd : pid) (pr : process) (header rest : bytes)
    (structure : PsmlStructure E) (steps : nat) :
  complete_record (b "structure") header = true ->
  psml_structure_from_xml E (record_of (b "structure") header) = inr structure ->
  truthy_psml_structure E structure = true ->
  forall (data : bytes) (s : state),
    find data (closing_tag (b "structure")) = -1 ->
    feeds E fd pr data (header ++ rest) s ->
    (steps_left E fd data s <= steps)%nat ->
    exists data' pr',
      psml_struct_loop E steps fd data s
      = (Ok (Some structure, data'),
         set_processes E (<[fd := pr']> (processes E s)) s)
      /\ feeds E fd pr data' rest (set_processes E (<[fd := pr']> (processes E s)) s).
Proof.
  intros Hrec Hparse Htruthy.
  induction steps as [|steps IH]; intros data s Hnone Hfeeds Hsteps.
  { unfold steps_left in Hsteps. lia. }
  cbn [psml_struct_loop]. unfold bind.
  destruct (read_steps E fd SUMMARIES_BATCH_SIZE s eq_refl)
    as (chunk0 & s0 & Hread0 & _ & Hless).
  destruct (read_feeds E fd pr SUMMARIES_BATCH_SIZE data _ s eq_refl Hfeeds)
    as [(chunk & pr' & Hne & Hread & Hfeeds1)|[Hdata _]].
  2:{ exfalso. rewrite Hdata in Hnone.
      now apply (complete_record_found _ _ rest Hrec). }
  rewrite Hread in *. injection Hread0 as <- <-.
  specialize (Hless Hne data).
  destruct (Z.eq_dec (find (data ++ chunk) (closing_tag (b "structure"))) (-1))
    as [Hnone1|Hfound].
  - unfold _extract_tag_from_data. rewrite Hnone1.
    change (-1 =? -1) with true. cbn [negb truthy_opt_bytes].
    destruct chunk as [|c chunk]; [contradiction|]. cbn [truthy_bytes negb].
    destruct (IH (data ++ c :: chunk) _ Hnone1 Hfeeds1 ltac:(lia))
      as (data' & pr'' & Hloop & Hfeeds').
    exists data', pr''. rewrite Hloop.
    cbn [processes set_processes] in *. rewrite insert_insert_eq in *.
    split; [reflexivity|exact Hfeeds'].
  - destruct Hfeeds1 as (chunks & Hpr & Hstream).
    destruct (extract_head_record _ _ _ _ _ Hrec Hstream Hfound)
      as (data' & Hdata & ->).
    cbn [truthy_opt_bytes]. rewrite (complete_record_not_empty _ _ Hrec).
    change (default [] (Some ?r)) with r. rewrite Hparse. cbn [lift]. unfold ret.
    rewrite Htruthy.
    exists data', pr'. split; [reflexivity|].
    exists chunks. split; [exact Hpr|].
    rewrite Hdata, <- app_assoc in Hstream. now apply app_inv_head in Hstream.
Qed.

(** X24. [_get_psml_struct] reads nothing and returns [None] with an empty
    buffer without [only_summaries]. With [only_summaries], on a stream that begins with
    a complete [structure] record (bytes before its opening tag allowed)
    which [psml_structure_from_xml] turns into a truthy structure, it
    returns that structure and the bytes it has read past the record, so
    that what follows the record in the stream is still to be seen by the
    reader, nothing lost, however the stream is cut into chunks. *)
Theorem psml_structure_is_read (fd : pid) (pr : process) (header rest : bytes)
    (structure : PsmlStructure E) (s : state) :
  (_only_summaries self = false ->
   _get_psml_struct E self fd s = (Ok (None, []), s))
  /\ (_only_summaries self = true ->
      complete_record (b "structure") header = true ->
      psml_structure_from_xml E (record_of (b "structure") header) = inr structure ->
      truthy_psml_structure E structure = true ->
      feeds E fd pr [] (header ++ rest) s ->
      exists data' pr',
        _get_psml_struct E self fd s
        = (Ok (Some structure, data'),
           set_processes E (<[fd := pr']> (processes E s)) s)
        /\ feeds E fd pr data' rest
             (set_processes E (<[fd := pr']> (processes E s)) s)).
Proof.
  split.
  - intros Hsum. unfold _get_psml_struct. now rewrite Hsum.
  - intros Hsum Hrec Hparse Htruthy Hfeeds. unfold _get_psml_struct. rewrite Hsum.
    now apply (psml_struct_loop_finds fd pr header rest structure).
Qed.

End Summaries.

Section Constructor.
Context (E : Env).

(** X25. When the input file exists, [include_raw] is not set without
    [use_json], an event loop is given or available, and the lower-cased
    [encryption_type] is a supported standard, the constructor returns a
    session that holds the arguments as given, with the encryption type
    stored lower-cased beside the decryption key, and it resets the
    session state: not loaded, no retained packets, cursor at 0, no
    running process, generator not started, and no process started. *)
Theorem init_succeeds (a : init_args) (encryption_type : string) (s : state E) :
  path_exists E (file_name (arg_input_file a)) = true ->
  arg_include_raw a && negb (arg_use_json a) = false ->
  arg_eventloop_given a || event_loop_available E = true ->
  arg_encryption_type a = Some encryption_type ->
  str_in (lower encryption_type) SUPPORTED_ENCRYPTION_STANDARDS = true ->
  __init__ E a s
  = (Ok {| input_filename := file_name (arg_input_file a);
           keep_packets := arg_keep_packets a;
           tshark_path := arg_tshark_path a;
           _override_prefs := arg_override_prefs a;
           debug := arg_debug a;
           use_json := arg_use_json a;
           include_raw := arg_include_raw a;
           _display_filter := arg_display_filter a;
           _capture_filter := arg_capture_filter a;
           _only_summaries := arg_only_summaries a;
           _output_file := arg_output_file a;
           _decode_as := arg_decode_as a;
           _disable_protocol := arg_disable_protocol a;
           _custom_parameters := arg_custom_parameters a;
           encryption := (arg_decryption_key a, lower encryption_type) |},
     {| loaded := false; _packets := []; _current_packet := 0%nat;
        _running_processes := ∅; _packet_generator := GenCreated E;
        processes := processes E s; next_pid := next_pid E s;
        user := user E s; calls := calls E s |}).
Proof.
  intros Hpath Hraw Hloop Henc Hin.
  assert (Htruthy : truthy_str encryption_type = true).
  { destruct encryption_type; [discriminate Hin|reflexivity]. }
  unfold __init__, bind, modify, raise, ret, _setup_eventloop.
  rewrite Hpath, Hraw, Henc, Htruthy, Hin. cbn.
  destruct (arg_eventloop_given a); [|cbn in Hloop; rewrite Hloop]; reflexivity.
Qed.

End Constructor.

Section Json.
Context (E : Env) (self : config).

#[local] Abbreviation state := (state E).

(** X26. In JSON mode with a tshark that does not support JSON,
    [apply_on_packets] and [load_packets] raise [TSharkVersionException]
    with the message [JSON only supported on Wireshark >= 2.2.0] and
    leave the session exactly as it was, and the first [next] (generator
    not started, cursor at the end of the retained packets if they are
    kept) raises the same error and only marks the generator as finished:
    no process is ever started. *)
Theorem json_needs_support (s : state) :
  use_json self = true ->
  tshark_supports_json E (_get_tshark_version E self) = false ->
  (forall packet_callback packet_count,
      apply_on_packets E self packet_callback packet_count s
      = (Raise (TSharkVersionException "JSON only supported on Wireshark >= 2.2.0"), s))
  /\ (forall n,
         load_packets E self n s
         = (Raise (TSharkVersionException "JSON only supported on Wireshark >= 2.2.0"), s))
  /\ (_packet_generator E s = GenCreated E ->
      (keep_packets self = true -> _current_packet E s = length (_packets E s)) ->
      next E self s
      = (Raise (TSharkVersionException "JSON only supported on Wireshark >= 2.2.0"),
         set_packet_generator E (GenFinished E) s)).
Proof.
  intros Hjson Hsupport.
  assert (Hspawn : forall packet_count (s0 : state),
             _get_tshark_process E self packet_count s0
             = (Raise (TSharkVersionException
                         "JSON only supported on Wireshark >= 2.2.0"), s0)).
  { intros packet_count s0. unfold _get_tshark_process, bind.
    now rewrite Hjson, Hsupport. }
  assert (Happly : forall packet_callback packet_count,
             apply_on_packets E self packet_callback packet_count s
             = (Raise (TSharkVersionException
                         "JSON only supported on Wireshark >= 2.2.0"), s)).
  { intros packet_callback packet_count.
    unfold apply_on_packets, packets_from_tshark, bind. now rewrite Hspawn. }
  split; [exact Happly|]. split.
  - intros n. unfold load_packets, bind, get, try_except. now rewrite Happly.
  - intros Hgen Hat.
    apply (next_fails E self); [exact Hat|].
    unfold _packet_generator_send, bind, get, modify. rewrite Hgen.
    now rewrite Hspawn.
Qed.

End Json.

Section Closing.
Context (E : Env).

#[local] Abbreviation state := (state E).

(** X27. When [close] raises, the error is a [TSharkCrashException], or an
    [OSError] on a system other than Windows ([os.name] is not [nt]); in
    particular it never raises [TimeoutError] or [ProcessLookupError].
    And when it raises, the running set is left as it was, not
    emptied. *)
Theorem close_raises_crash_or_oserror (e : exn) (s : state) :
  (close E s).1 = Raise e ->
  ((exists msg, e = TSharkCrashException msg)
   \/ (e = OSError /\ String.eqb (os_name E) "nt" = false))
  /\ _running_processes E (close E s).2 = _running_processes E s.
Proof.
  intros Hraise. split; [now apply (close_async_raises E e s)|].
  revert Hraise. unfold close, close_async, bind, get, modify.
  assert (H : keeps (same (_running_processes E))
                (cleanup_each E (elements (_running_processes E s)))).
  { apply (same_cleanup_each E _ (fun _ => True)); [reflexivity|].
    now apply Forall_forall. }
  specialize (H s). unfold same in H.
  destruct (cleanup_each E (elements (_running_processes E s)) s) as [[r|e'|] s1];
    cbn [fst snd] in *; [discriminate| |discriminate].
  now intros _.
Qed.

End Closing.

Lemma psml_structure_is_read_witness :
  let E := Example.summaries in
  let self := Example.plain true None in
  let pr := create_subprocess_exec E (command_line E self ["-r"; "capture.pcap"]%string) in
  let s := started E pr (Example.boot E 0%nat) in
  exists data' pr',
    _get_psml_struct E self 0%nat s
    = (Ok (Some (b "<structure><section>No.</section></structure>"), data'),
       set_processes E (<[0%nat := pr']> (processes E s)) s)
    /\ feeds E 0%nat pr data' (b "<packet>A</packet></psml>")
         (set_processes E (<[0%nat := pr']> (processes E s)) s).
Proof.
  cbv zeta.
  apply (proj2 (psml_structure_is_read Example.summaries (Example.plain true None)
                  0%nat
                  (create_subprocess_exec Example.summaries
                     (command_line Example.summaries (Example.plain true None)
                        ["-r"; "capture.pcap"]%string))
                  (b "<psml><structure><section>No.</section></structure>")
                  (b "<packet>A</packet></psml>")
                  (b "<structure><section>No.</section></structure>")
                  (started Example.summaries
                     (create_subprocess_exec Example.summaries
                        (command_line Example.summaries (Example.plain true None)
                           ["-r"; "capture.pcap"]%string))
                     (Example.boot Example.summaries 0%nat)))).
  - reflexivity.
  - vm_compute. reflexivity.
  - vm_compute. reflexivity.
  - reflexivity.
  - exists [b "<psml><structure><section>No.</section></struc";
            b "ture><packet>A</packet></psml>"].
    split; vm_compute; reflexivity.
Defined.

Lemma init_succeeds_witness :
  (__init__ Example.host (Example.args false true) Example.fresh).1
  = Ok (Example.session false true).
Proof.
  rewrite (init_succeeds Example.host (Example.args false true) "wpa-pwd"
             Example.fresh eq_refl eq_refl eq_refl eq_refl eq_refl).
  reflexivity.
Defined.

Lemma json_needs_support_witness :
  let E := Example.old_host in
  let self := Example.session true true in
  let error := TSharkVersionException "JSON only supported on Wireshark >= 2.2.0" in
  apply_on_packets E self (fun _ x => (None, x)) None (Example.boot E 0%nat)
  = (Raise error, Example.boot E 0%nat)
  /\ load_packets E self 0 (Example.boot E 0%nat) = (Raise error, Example.boot E 0%nat)
  /\ next E self (Example.boot E 0%nat)
     = (Raise error, set_packet_generator E (GenFinished E) (Example.boot E 0%nat)).
Proof.
  cbv zeta.
  destruct (json_needs_support Example.old_host (Example.session true true)
              (Example.boot Example.old_host 0%nat) eq_refl eq_refl)
    as (Hpush & Hload & Hpull).
  split; [apply Hpush|]. split; [apply Hload|].
  apply Hpull; reflexivity.
Defined.

Lemma close_raises_crash_or_oserror_witness :
  let E := Example.crashing 2 in
  let self := Example.session false true in
  let s := (next E self (Example.boot E 0%nat)).2 in
  let crash :=
    TSharkCrashException
      "TShark seems to have crashed (retcode: 2). Try rerunning in debug mode [ capture_obj.set_debug() ] or try updating tshark." in
  ((exists msg, crash = TSharkCrashException msg)
   \/ (crash = OSError /\ String.eqb (os_name E) "nt" = false))
  /\ _running_processes E (close E s).2 = _running_processes E s.
Proof.
  cbv zeta.
  apply (close_raises_crash_or_oserror (Example.crashing 2)).
  vm_compute. reflexivity.
Defined.

End SessionFacts.

(** ** The model at work: the scenarios of the specification *)

Module Scenarios.
Import Py Capture.

(** Tagged-markup input, read in two chunks that cut the second record:
    two packets, then the end of the stream. *)
Example two_tagged_records :
  Example.three_pulls Example.two_packets (Example.session false true)
    (Example.boot Example.two_packets 0%nat)
  = (Ok (Packet Example.two_packets (b "<packet>A</packet>")),
     Ok (Packet Example.two_packets (b "<packet>B</packet>")),
     Raise StopIteration).
Proof. vm_compute. reflexivity. Qed.

(** JSON input laid out as tshark 3.x does: two records, then the end of
    the stream once the end-of-array separator is used up. *)
Example two_json_records :
  Example.three_pulls Example.two_json_packets (Example.session true true)
    (Example.boot Example.two_json_packets 0%nat)
  = (Ok (JsonPacket Example.two_json_packets (b "{1" ++ [x0a] ++ b "  }")),
     Ok (JsonPacket Example.two_json_packets
           ([x0a] ++ b "  {2" ++ [x0a] ++ b "  }")),
     Raise StopIteration).
Proof. vm_compute. reflexivity. Qed.

(** The handler of [apply_on_packets] is given the packets that [next]
    returns, in the same order, and no process is left running. *)
Example push_all_as_pull_one :
  let E := Example.two_packets in
  let out := apply_on_packets E (Example.session false true) (fun _ x => (None, x))
               None (Example.boot E 0%nat) in
  out.1 = Ok tt
  /\ calls E out.2 = [(Packet E (b "<packet>A</packet>"), None);
                      (Packet E (b "<packet>B</packet>"), None)]
  /\ _running_processes E out.2 = ∅.
Proof. cbv zeta. repeat split; vm_compute; reflexivity. Qed.

(** A count bound of one: one call of the handler, and the clean-up. *)
Example push_all_with_a_count :
  let E := Example.two_packets in
  let out := apply_on_packets E (Example.session false true) (fun _ x => (None, x))
               (Some 1) (Example.boot E 0%nat) in
  out.1 = Ok tt
  /\ calls E out.2 = [(Packet E (b "<packet>A</packet>"), None)]
  /\ _running_processes E out.2 = ∅.
Proof. cbv zeta. repeat split; vm_compute; reflexivity. Qed.

(** Indexed access on a session that keeps its packets. *)
Example indexed_access :
  let E := Example.two_packets in
  (__getitem__ E (Example.session false true) 1 (Example.boot E 0%nat)).1
  = Ok (Packet E (b "<packet>B</packet>"))
  /\ (__getitem__ E (Example.session false true) 2 (Example.boot E 0%nat)).1
     = Raise (KeyError "Packet of index 2 does not exist in capture").
Proof. cbv zeta. split; vm_compute; reflexivity. Qed.

(** A producer that exits with status 2 before any output: the first
    [next] fails with the crash error that carries the code. *)
Example crash_before_output :
  (next (Example.crashing 2) (Example.session false true)
     (Example.boot (Example.crashing 2) 0%nat)).1
  = Raise (TSharkCrashException
             "TShark seems to have crashed (retcode: 2). Try rerunning in debug mode [ capture_obj.set_debug() ] or try updating tshark.").
Proof. vm_compute. reflexivity. Qed.

(** The UTF-8 codec on a few inputs: two, three and four-byte sequences,
    and what [errors='ignore'] drops. *)
Example utf8_samples :
  utf8_decode strict [xc3; xa9; xe2; x82; xac; xf0; x9f; x98; x80]
  = Some [233; 8364; 128512]%N
  /\ utf8_encode [233; 8364; 128512]%N
     = Some [xc3; xa9; xe2; x82; xac; xf0; x9f; x98; x80]
  /\ utf8_decode strict [xed; xa0; x80] = None
  /\ utf8_decode strict [xc0; x80] = None
  /\ utf8_decode ignore ([xe2; x82] ++ b "<" ++ [xf0; x9f; x98] ++ b ">"
                         ++ [xed; xa0; x80] ++ b "|" ++ [xc0; x80] ++ b "|" ++ [xe2])
     = Some [60; 62; 124; 124]%N.
Proof. repeat split; vm_compute; reflexivity. Qed.

End Scenarios.
